(** * radarr_flat_import: matching, deduplication and resume

    A shallow embedding of [radarr_flat_import_v2.4.py]: the line parser
    ([parse_title_year]), the resume state ([load_state], [save_state]),
    the resolution engine ([choose_from_results]) and the import loop of
    [main], with the theorems that settle the specification's claims.

    Text is a [string] of 8-bit characters read as the code points
    U+0000..U+00FF; [isspace], [isdigit], [lower] follow Python's [str]
    methods on that range; [int()] has its own white space and its limit
    on the number of digits.  The console is a list of pending input lines
    ([input()] on an empty list raises [EOFError]); the remote service and
    the file system answer through a [world] of replies, a write of the
    state file succeeding, failing before the file is opened, or failing
    after it has been truncated; [log] lines, writes of the state file and
    HTTP requests (tagged with the line they are issued for) are recorded
    in a trace, newest first.  [time.sleep] and the wording of messages
    are left out. *)

From Stdlib Require Import ZArith Lia Bool Ascii String.
From stdpp Require Import base gmap sets list strings.

Local Open Scope Z_scope.
Set Warnings "-register-all".
Set Default Proof Using "Type".

(** ** Characters and strings, as Python's [str] sees them *)

Module PyStr.

Definition ord (c : ascii) : nat := nat_of_ascii c.

Definition between (lo hi n : nat) : bool := (lo <=? n)%nat && (n <=? hi)%nat.

(** [str.isspace] on one character; also the class [\s] of [re]. *)
Definition isspace (c : ascii) : bool :=
  between 9 13 (ord c) || between 28 32 (ord c)
  || (ord c =? 133)%nat || (ord c =? 160)%nat.

(** The class [\d] of [re]: decimal digits. *)
Definition isdecimal (c : ascii) : bool := between 48 57 (ord c).

(** [str.isdigit] on one character: decimal digits and the superscripts. *)
Definition isdigit_char (c : ascii) : bool :=
  isdecimal c || (ord c =? 178)%nat || (ord c =? 179)%nat || (ord c =? 185)%nat.

Definition lower_char (c : ascii) : ascii :=
  if between 65 90 (ord c)
     || (between 192 222 (ord c) && negb (ord c =? 215)%nat)
  then ascii_of_nat (ord c + 32) else c.

Fixpoint lower (s : string) : string :=
  match s with
  | EmptyString => EmptyString
  | String c r => String (lower_char c) (lower r)
  end.

Fixpoint all_space (s : string) : bool :=
  match s with
  | EmptyString => true
  | String c r => isspace c && all_space r
  end.

Fixpoint lstrip (s : string) : string :=
  match s with
  | EmptyString => EmptyString
  | String c r => if isspace c then lstrip r else s
  end.

Fixpoint rstrip (s : string) : string :=
  match s with
  | EmptyString => EmptyString
  | String c r =>
      match rstrip r with
      | EmptyString => if isspace c then EmptyString else String c EmptyString
      | r' => String c r'
      end
  end.

(** [s.strip()] *)
Definition strip (s : string) : string := rstrip (lstrip s).

(** [s.isdigit()]: non-empty and every character a digit. *)
Fixpoint all_digit (s : string) : bool :=
  match s with
  | EmptyString => true
  | String c r => isdigit_char c && all_digit r
  end.

Definition isdigit (s : string) : bool :=
  match s with
  | EmptyString => false
  | _ => all_digit s
  end.

Definition digit_val (c : ascii) : Z := Z.of_nat (ord c) - 48.

(** The limit of [int()] on the number of digits of its argument
    ([sys.get_int_max_str_digits()], at the interpreter's default). *)
Definition MAX_STR_DIGITS : Z := 4300.

(** The white space [int()] skips around a number.  It is not that of
    [str.strip]: the separators U+001C..U+001F count as white space for
    [isspace] but are left in place by [int()], which then raises. *)
Definition int_space (c : ascii) : bool :=
  between 9 13 (ord c) || (ord c =? 32)%nat
  || (ord c =? 133)%nat || (ord c =? 160)%nat.

Fixpoint int_lstrip (s : string) : string :=
  match s with
  | EmptyString => EmptyString
  | String c r => if int_space c then int_lstrip r else s
  end.

Fixpoint int_rstrip (s : string) : string :=
  match s with
  | EmptyString => EmptyString
  | String c r =>
      match int_rstrip r with
      | EmptyString => if int_space c then EmptyString else String c EmptyString
      | r' => String c r'
      end
  end.

Fixpoint count_decimal (s : string) : Z :=
  match s with
  | EmptyString => 0
  | String c r => (if isdecimal c then 1 else 0) + count_decimal r
  end.

(** [int(s)] for a string that [isdigit()] accepts; [None] is the
    [ValueError] raised on a superscript digit or on more than
    [MAX_STR_DIGITS] digits. *)
Fixpoint int_digits_acc (acc : Z) (s : string) : option Z :=
  match s with
  | EmptyString => Some acc
  | String c r =>
      if isdecimal c then int_digits_acc (10 * acc + digit_val c) r else None
  end.

Definition int_digits (s : string) : option Z :=
  match s with
  | EmptyString => None
  | _ => if MAX_STR_DIGITS <? count_decimal s then None else int_digits_acc 0 s
  end.

(** [s.startswith("#")] *)
Definition starts_with_hash (s : string) : bool :=
  match s with
  | String c _ => Ascii.eqb c "#"
  | EmptyString => false
  end.

End PyStr.

Import PyStr.

(** ** Parsing: [parse_title_year] *)

(** The pattern [\((\d{4})\)\s*$] tried at the start of [s]: the year it
    captures.  [\s*] is greedy and [$] holds at the end (or before a final
    newline, itself white space), so the rest has to be white space only. *)
Definition match_year_here (s : string) : option Z :=
  match s with
  | String p (String a (String b (String c (String d (String q rest))))) =>
      if Ascii.eqb p "(" && isdecimal a && isdecimal b && isdecimal c
         && isdecimal d && Ascii.eqb q ")" && all_space rest
      then Some (1000 * digit_val a + 100 * digit_val b
                 + 10 * digit_val c + digit_val d)
      else None
  | _ => None
  end.

(** [re.search]: the leftmost position where the pattern matches, with the
    captured year ([m.start()], [int(m.group(1))]). *)
Fixpoint re_search_year (s : string) : option (nat * Z) :=
  match match_year_here s with
  | Some y => Some (O, y)
  | None =>
      match s with
      | EmptyString => None
      | String _ r =>
          match re_search_year r with
          | Some (i, y) => Some (S i, y)
          | None => None
          end
      end
  end.

Definition parse_title_year (term : string) : string * option Z :=
  match re_search_year term with
  | Some (i, y) => (strip (substring 0 i term), Some y)
  | None => (strip term, None)
  end.

(** ** Data model *)

(** A lookup candidate or library entry: the fields of the JSON object the
    program reads ([None] when the key is absent or [null]). *)
Record movie := Movie {
  tmdbId : option Z;
  title : option string;
  year : option Z
}.

(** Values read back by [json.loads].  A float stands for what [int()]
    makes of it ([None]: [nan] or an infinity, on which [int()] raises);
    a dict is the list of its items, keys distinct. *)
Inductive json :=
| JNull
| JBool (b : bool)
| JInt (n : Z)
| JFloat (truncated : option Z)
| JStr (s : string)
| JList (items : list json)
| JDict (items : list (string * json)).

Fixpoint dict_get (k : string) (d : list (string * json)) : option json :=
  match d with
  | [] => None
  | (k', v) :: r => if String.eqb k k' then Some v else dict_get k r
  end.

(** [k in d] *)
Definition has_key (k : string) (d : list (string * json)) : bool :=
  match dict_get k d with Some _ => true | None => false end.

(** [d.get(k, dflt)] *)
Definition get_default (k : string) (dflt : json) (d : list (string * json)) : json :=
  match dict_get k d with Some v => v | None => dflt end.

(** [int(s)] on text: surrounding white space (that of [int_space]), an
    optional sign, decimal digits with single underscores between them, at
    most [MAX_STR_DIGITS] digits. *)
Fixpoint int_body (acc : Z) (after_digit : bool) (s : string) : option Z :=
  match s with
  | EmptyString => if after_digit then Some acc else None
  | String c r =>
      if isdecimal c then int_body (10 * acc + digit_val c) true r
      else if Ascii.eqb c "_" && after_digit then int_body acc false r
      else None
  end.

Definition int_number (s : string) : option Z :=
  if MAX_STR_DIGITS <? count_decimal s then None else int_body 0 false s.

Definition int_of_str (s : string) : option Z :=
  match int_rstrip (int_lstrip s) with
  | String c r =>
      if Ascii.eqb c "+" then int_number r
      else if Ascii.eqb c "-" then option_map Z.opp (int_number r)
      else int_number (String c r)
  | EmptyString => None
  end.

(** [int(v)]; [None] is the [TypeError] or [ValueError] it raises. *)
Definition py_int (v : json) : option Z :=
  match v with
  | JInt n => Some n
  | JBool b => Some (if b then 1 else 0)
  | JFloat t => t
  | JStr s => int_of_str s
  | JNull | JList _ | JDict _ => None
  end.

(** The state file on disk: absent; present but [read_text] raises;
    readable but [json.loads] raises; or holding a JSON value. *)
Inductive file_state :=
| Missing
| Unreadable
| NotJson
| Json (data : json).

Record config := Config {
  STRICT_YEAR_MATCH : bool;
  INTERACTIVE_ON_ISSUES : bool;
  CONFIRM_EACH_ADD_DEFAULT : bool;
  DRY_RUN : bool;
  AUTO_ADD : bool;
  YES_ALL : bool;
  MAX_ADD : option Z
}.

Definition MAX_CHOICES_TO_SHOW : nat := 8.

(** The configuration block of the script, no command-line flag given. *)
Definition default_config : config :=
  {| STRICT_YEAR_MATCH := true; INTERACTIVE_ON_ISSUES := true;
     CONFIRM_EACH_ADD_DEFAULT := true; DRY_RUN := false;
     AUTO_ADD := false; YES_ALL := false; MAX_ADD := None |}.

Record stats_t := Stats {
  processed : Z;
  would_add : Z;
  duplicates : Z;
  misses : Z;
  errors : Z;
  skipped : Z;
  added : Z
}.

Definition zero_stats : stats_t := Stats 0 0 0 0 0 0 0.

(** How a write of the state file by [Path.write_text] ends: the text is
    written; or [open] raises and the file is as it was; or the file is
    opened, which truncates it, and the write raises, so that a proper
    prefix of the text at most is left. *)
Inductive write_reply :=
| Written
| NotOpened
| CutShort.

(** The tag of a per-line log message, with the id it prints. *)
Inductive tag :=
| MISS
| SKIP
| ERR
| DUP (tmdb : Z)
| DRY (tmdb : Z)
| ADD (tmdb : Z)
| FAIL.

Inductive event :=
| Saved (next_index : Z) (reply : write_reply)
| HttpLookup (idx : Z) (term : string)
| HttpAdd (idx : Z) (m : movie)
| LogLine (line_no : Z) (t : tag)
| LogStop
| LogYearMiss (term : string) (wanted : Z)
| LogAmbig (term : string) (shown : list movie)
| LogFatal.

(** What the run mutates: the two sticky flags, [stats], the duplicate
    index [existing_tmdb], [dryrun_hits], the state file (with the count of
    writes attempted), the pending console input and the trace. *)
Record run_state := RunState {
  always_continue : bool;
  always_yes_add : bool;
  stats : stats_t;
  existing_tmdb : gset Z;
  dryrun_hits : list (option string * option Z * Z);
  state_file : file_state;
  writes : nat;
  stdin : list string;
  trace : list event
}.

Definition set_always_continue (b : bool) (st : run_state) : run_state :=
  RunState b (always_yes_add st) (stats st) (existing_tmdb st)
    (dryrun_hits st) (state_file st) (writes st) (stdin st) (trace st).

Definition set_always_yes_add (b : bool) (st : run_state) : run_state :=
  RunState (always_continue st) b (stats st) (existing_tmdb st)
    (dryrun_hits st) (state_file st) (writes st) (stdin st) (trace st).

Definition set_stats (s : stats_t) (st : run_state) : run_state :=
  RunState (always_continue st) (always_yes_add st) s (existing_tmdb st)
    (dryrun_hits st) (state_file st) (writes st) (stdin st) (trace st).

Definition set_existing (e : gset Z) (st : run_state) : run_state :=
  RunState (always_continue st) (always_yes_add st) (stats st) e
    (dryrun_hits st) (state_file st) (writes st) (stdin st) (trace st).

Definition set_hits (h : list (option string * option Z * Z)) (st : run_state) : run_state :=
  RunState (always_continue st) (always_yes_add st) (stats st)
    (existing_tmdb st) h (state_file st) (writes st) (stdin st) (trace st).

Definition set_file (f : file_state) (n : nat) (st : run_state) : run_state :=
  RunState (always_continue st) (always_yes_add st) (stats st)
    (existing_tmdb st) (dryrun_hits st) f n (stdin st) (trace st).

Definition set_stdin (i : list string) (st : run_state) : run_state :=
  RunState (always_continue st) (always_yes_add st) (stats st)
    (existing_tmdb st) (dryrun_hits st) (state_file st) (writes st) i (trace st).

Definition emit (e : event) (st : run_state) : run_state :=
  RunState (always_continue st) (always_yes_add st) (stats st)
    (existing_tmdb st) (dryrun_hits st) (state_file st) (writes st) (stdin st)
    (e :: trace st).

(** The module's globals when [main] starts, on a given disk and console. *)
Definition initial_state (f : file_state) (console : list string) : run_state :=
  RunState false false zero_stats ∅ [] f O console [].

(** Replies of the outside: the lookup and the add issued for line [idx],
    the library listing ([None]: the request fails), and how the n-th
    write of the state file ends. *)
Inductive lookup_reply :=
| LookupOk (results : list movie)
| LookupUnauthorized
| LookupFailed.

Inductive add_reply :=
| AddStatus (code : Z)
| AddFailed.

Record world := World {
  on_lookup : Z -> string -> lookup_reply;
  on_add : Z -> movie -> add_reply;
  on_library : option (list movie);
  on_write : nat -> write_reply
}.

(** ** Control: return, [Exception], [sys.exit] *)

Inductive outcome (A : Type) :=
| Ret (a : A)
| Raise
| Exit.

Arguments Ret {A} a.
Arguments Raise {A}.
Arguments Exit {A}.

Definition M (A : Type) : Type := run_state -> outcome A * run_state.

Definition ret {A} (a : A) : M A := fun st => (Ret a, st).

Definition raise {A} : M A := fun st => (Raise, st).

Definition bind {A B} (c : M A) (k : A -> M B) : M B :=
  fun st =>
    match c st with
    | (Ret a, st') => k a st'
    | (Raise, st') => (Raise, st')
    | (Exit, st') => (Exit, st')
    end.

(** [try: c  except Exception: h]; [SystemExit] is not an [Exception]. *)
Definition try_except {A} (c h : M A) : M A :=
  fun st =>
    match c st with
    | (Raise, st') => h st'
    | r => r
    end.

Definition modify (f : run_state -> run_state) : M unit :=
  fun st => (Ret tt, f st).

Definition gets {A} (g : run_state -> A) : M A :=
  fun st => (Ret (g st), st).

Declare Scope py_scope.
Delimit Scope py_scope with py.
Notation "x <- c ;; k" := (bind c (fun x => k))
  (at level 100, c at next level, right associativity) : py_scope.
Notation "c ;;; k" := (bind c (fun _ => k))
  (at level 100, right associativity) : py_scope.
Local Open Scope py_scope.

Definition log (e : event) : M unit := modify (emit e).

(** [fatal(msg)]: log, then [sys.exit(1)]. *)
Definition fatal {A} : M A := fun st => (Exit, emit LogFatal st).

Definition bump (f : stats_t -> stats_t) : M unit :=
  modify (fun st => set_stats (f (stats st)) st).

Definition inc_processed (s : stats_t) : stats_t :=
  Stats (processed s + 1) (would_add s) (duplicates s) (misses s) (errors s) (skipped s) (added s).
Definition inc_would_add (s : stats_t) : stats_t :=
  Stats (processed s) (would_add s + 1) (duplicates s) (misses s) (errors s) (skipped s) (added s).
Definition inc_duplicates (s : stats_t) : stats_t :=
  Stats (processed s) (would_add s) (duplicates s + 1) (misses s) (errors s) (skipped s) (added s).
Definition inc_misses (s : stats_t) : stats_t :=
  Stats (processed s) (would_add s) (duplicates s) (misses s + 1) (errors s) (skipped s) (added s).
Definition inc_errors (s : stats_t) : stats_t :=
  Stats (processed s) (would_add s) (duplicates s) (misses s) (errors s + 1) (skipped s) (added s).
Definition inc_skipped (s : stats_t) : stats_t :=
  Stats (processed s) (would_add s) (duplicates s) (misses s) (errors s) (skipped s + 1) (added s).
Definition inc_added (s : stats_t) : stats_t :=
  Stats (processed s) (would_add s) (duplicates s) (misses s) (errors s) (skipped s) (added s + 1).

(** ** Resume state: [load_state], [save_state] *)

Definition fresh_state : list (string * json) := [("next_index"%string, JInt 0)].

(** The dict [load_state()] returns. *)
Definition load_state (f : file_state) : list (string * json) :=
  match f with
  | Json (JDict data) =>
      if has_key "next_index" data then data
      else if has_key "last_index" data then
        match py_int (get_default "last_index" (JInt 0) data) with
        | Some n => [("next_index"%string, JInt n)]
        | None => fresh_state
        end
      else data
  | _ => fresh_state
  end.

(** [start_index = int(state.get("next_index", 0))] in [main], outside any
    [try]. *)
Definition start_index : M Z :=
  fun st =>
    match py_int (get_default "next_index" (JInt 0) (load_state (state_file st))) with
    | Some n => (Ret n, st)
    | None => (Raise, st)
    end.

(** The file [json.dumps({"next_index": n})] leaves, read back. *)
Definition saved_index (n : Z) : file_state :=
  Json (JDict [("next_index"%string, JInt n)]).

(** The state file after a write of [next_index] that ends with [reply]:
    what is left of a write cut short is no JSON text. *)
Definition after_write (reply : write_reply) (next_index : Z)
    (before : file_state) : file_state :=
  match reply with
  | Written => saved_index next_index
  | NotOpened => before
  | CutShort => NotJson
  end.

(** [save_state(next_index)]: the exception of a failed write is
    swallowed. *)
Definition save_state (w : world) (next_index : Z) : M unit :=
  fun st =>
    let reply := on_write w (writes st) in
    (Ret tt, emit (Saved next_index reply)
               (set_file (after_write reply next_index (state_file st))
                  (S (writes st)) st)).

(** ** Prompts *)

Definition among (ans : string) (l : list string) : bool :=
  existsb (String.eqb ans) l.

Inductive answer := Yes | No | Always.

(** The [while True] loop of [prompt_continue] over the pending input
    lines: the answer (none when the input runs out) and what is left. *)
Fixpoint read_continue (inp : list string) : option answer * list string :=
  match inp with
  | [] => (None, [])
  | l :: rest =>
      let ans := lower (strip l) in
      if among ans [""; "y"; "yes"]%string then (Some Yes, rest)
      else if among ans ["n"; "no"; "q"; "quit"]%string then (Some No, rest)
      else if among ans ["a"; "always"]%string then (Some Always, rest)
      else read_continue rest
  end.

Definition prompt_continue (cfg : config) : M bool :=
  fun st =>
    if negb (INTERACTIVE_ON_ISSUES cfg) || always_continue st then (Ret true, st)
    else
      match read_continue (stdin st) with
      | (None, rest) => (Raise, set_stdin rest st)
      | (Some Yes, rest) => (Ret true, set_stdin rest st)
      | (Some No, rest) => (Ret false, set_stdin rest st)
      | (Some Always, rest) => (Ret true, set_always_continue true (set_stdin rest st))
      end.

Fixpoint read_confirm (inp : list string) : option answer * list string :=
  match inp with
  | [] => (None, [])
  | l :: rest =>
      let ans := lower (strip l) in
      if among ans [""; "y"; "yes"]%string then (Some Yes, rest)
      else if among ans ["n"; "no"; "s"; "skip"]%string then (Some No, rest)
      else if among ans ["a"; "all"; "always"]%string then (Some Always, rest)
      else read_confirm rest
  end.

Definition prompt_confirm_add (cfg : config) : M bool :=
  fun st =>
    if AUTO_ADD cfg then (Ret true, st)
    else if always_yes_add st then (Ret true, st)
    else
      match read_confirm (stdin st) with
      | (None, rest) => (Raise, set_stdin rest st)
      | (Some Yes, rest) =>
          (Ret true,
           if YES_ALL cfg then set_always_yes_add true (set_stdin rest st)
           else set_stdin rest st)
      | (Some No, rest) => (Ret false, set_stdin rest st)
      | (Some Always, rest) => (Ret true, set_always_yes_add true (set_stdin rest st))
      end.

(** ** Matching and disambiguation: [choose_from_results] *)

(** What the function returns: a candidate, [None] or ["ABORT"]. *)
Inductive selection :=
| Selected (m : movie)
| NoSelection
| ABORT.

(** [[m for m in results if m.get("year") == desired_year]] *)
Definition year_is (y : Z) (m : movie) : bool :=
  match year m with
  | Some y' => y' =? y
  | None => false
  end.

Definition year_matches (y : Z) (results : list movie) : list movie :=
  List.filter (year_is y) results.

(** [(m.get("title") or "").strip().lower() == title_only.lower()] *)
Definition title_is (title_only : string) (m : movie) : bool :=
  String.eqb (lower (strip (default EmptyString (title m)))) (lower title_only).

Definition exact_title (term : string) (filtered : list movie) : list movie :=
  List.filter (title_is (fst (parse_title_year term))) filtered.

Definition is_none {A} (o : option A) : bool :=
  match o with None => true | Some _ => false end.

(** The guard of the exact-title shortcut:
    [len(exact_title) == 1 and desired_year is None]. *)
Definition shortcut_applies (term : string) (filtered : list movie)
    (desired_year : option Z) : bool :=
  (length (exact_title term filtered) =? 1)%nat && is_none desired_year.

Inductive choice :=
| ChooseSkip
| ChooseQuit
| ChooseAlways
| ChoosePick (i : nat)
| ChooseBadInt.

(** The [while True] loop of the ambiguity prompt, [n] candidates shown.
    [ChooseBadInt]: [isdigit()] held but [int()] raised. *)
Fixpoint read_choice (n : nat) (inp : list string) : option choice * list string :=
  match inp with
  | [] => (None, [])
  | l :: rest =>
      let ans := lower (strip l) in
      if String.eqb ans "" then (Some ChooseSkip, rest)
      else if among ans ["s"; "skip"]%string then (Some ChooseSkip, rest)
      else if among ans ["q"; "quit"]%string then (Some ChooseQuit, rest)
      else if String.eqb ans "a" then (Some ChooseAlways, rest)
      else if isdigit ans then
        match int_digits ans with
        | None => (Some ChooseBadInt, rest)
        | Some i =>
            if i <? Z.of_nat n then (Some (ChoosePick (Z.to_nat i)), rest)
            else read_choice n rest
        end
      else read_choice n rest
  end.

(** The ambiguity prompt: show the first [MAX_CHOICES_TO_SHOW] candidates
    and act on the operator's answer. *)
Definition disambiguate (term : string) (filtered : list movie) : M selection :=
  let shown := firstn MAX_CHOICES_TO_SHOW filtered in
  log (LogAmbig term shown) ;;;
  fun st =>
    match read_choice (length shown) (stdin st) with
    | (None, rest) => (Raise, set_stdin rest st)
    | (Some ChooseSkip, rest) => (Ret NoSelection, set_stdin rest st)
    | (Some ChooseQuit, rest) => (Ret ABORT, set_stdin rest st)
    | (Some ChooseAlways, rest) =>
        match shown with
        | m :: _ => (Ret (Selected m), set_always_continue true (set_stdin rest st))
        | [] => (Raise, set_always_continue true (set_stdin rest st))
        end
    | (Some (ChoosePick i), rest) =>
        match nth_error shown i with
        | Some m => (Ret (Selected m), set_stdin rest st)
        | None => (Raise, set_stdin rest st)
        end
    | (Some ChooseBadInt, rest) => (Raise, set_stdin rest st)
    end.

(** The end of [choose_from_results]: the ambiguity prompt when it is
    enabled, not locked to always-continue and several candidates remain;
    the first candidate otherwise. *)
Definition choose_otherwise (cfg : config) (term : string) (first : movie)
    (filtered : list movie) : M selection :=
  fun st =>
    if INTERACTIVE_ON_ISSUES cfg && negb (always_continue st)
       && (1 <? length filtered)%nat
    then disambiguate term filtered st
    else (Ret (Selected first), st).

(** [choose_from_results] after the year filter: the empty case, the
    exact-title shortcut, then [choose_otherwise]. *)
Definition choose_from (cfg : config) (term : string) (filtered : list movie)
    (desired_year : option Z) : M selection :=
  match filtered with
  | [] => ret NoSelection
  | first :: _ =>
      if shortcut_applies term filtered desired_year then
        match exact_title term filtered with
        | m :: _ => ret (Selected m)
        | [] => raise
        end
      else choose_otherwise cfg term first filtered
  end.

Definition choose_from_results (cfg : config) (term : string)
    (results : list movie) (desired_year : option Z) : M selection :=
  match desired_year with
  | Some y =>
      if STRICT_YEAR_MATCH cfg then
        match year_matches y results with
        | [] =>
            log (LogYearMiss term y) ;;;
            go_on <- prompt_continue cfg ;;
            if go_on then choose_from cfg term results desired_year
            else ret ABORT
        | matches => choose_from cfg term matches desired_year
        end
      else choose_from cfg term results desired_year
  | None => choose_from cfg term results desired_year
  end.

(** ** The import loop of [main] *)

(** [{m["tmdbId"] for m in movies if m.get("tmdbId")}] *)
Definition truthy_id (m : movie) : option Z :=
  match tmdbId m with
  | Some i => if i =? 0 then None else Some i
  | None => None
  end.

Definition get_existing_tmdb_ids (library : list movie) : gset Z :=
  list_to_set (omap truthy_id library).

(** [[l.strip() for l in f if l.strip() and not l.strip().startswith("#")]] *)
Definition read_movies (lines : list string) : list string :=
  List.filter (fun l => negb (String.eqb l "") && negb (starts_with_hash l))
    (map strip lines).

(** [movies[idx]]: a negative index counts from the end; [None] is
    [IndexError]. *)
Definition py_index (movies : list string) (idx : Z) : option string :=
  let n := Z.of_nat (length movies) in
  if (0 <=? idx) && (idx <? n) then nth_error movies (Z.to_nat idx)
  else if (- n <=? idx) && (idx <? 0) then nth_error movies (Z.to_nat (n + idx))
  else None.

(** [range(a, b)] *)
Definition py_range (a b : Z) : list Z :=
  map (fun k => a + Z.of_nat k) (seq 0 (Z.to_nat (b - a))).

(** [lookup(term)]: 401 is fatal, any other failure raises. *)
Definition lookup (w : world) (idx : Z) (term : string) : M (list movie) :=
  log (HttpLookup idx term) ;;;
  match on_lookup w idx term with
  | LookupOk results => ret results
  | LookupUnauthorized => fatal
  | LookupFailed => raise
  end.

(** [add_movie(...)] through [api_post]: the status code of the reply. *)
Definition add_movie (w : world) (idx : Z) (m : movie) : M Z :=
  log (HttpAdd idx m) ;;;
  match on_add w idx m with
  | AddStatus code => if code =? 401 then fatal else ret code
  | AddFailed => raise
  end.

(** [if not prompt_continue(...): fatal("User aborted.")] *)
Definition continue_or_abort (cfg : config) : M unit :=
  go_on <- prompt_continue cfg ;;
  if go_on then ret tt else fatal.

(** From [tmdb = selected.get("tmdbId")] to the end of the [try] block. *)
Definition handle_selected (w : world) (cfg : config) (idx : Z)
    (selected : movie) : M unit :=
  let line_no := idx + 1 in
  match truthy_id selected with
  | None =>
      bump inc_errors ;;;
      log (LogLine line_no ERR) ;;;
      continue_or_abort cfg
  | Some tmdb =>
      in_index <- gets (fun st => bool_decide (tmdb ∈ existing_tmdb st)) ;;
      if (in_index : bool) then
        bump inc_duplicates ;;;
        log (LogLine line_no (DUP tmdb))
      else if DRY_RUN cfg then
        bump inc_would_add ;;;
        modify (fun st =>
          set_hits (dryrun_hits st ++ [(title selected, year selected, tmdb)]) st) ;;;
        modify (fun st => set_existing ({[tmdb]} ∪ existing_tmdb st) st) ;;;
        log (LogLine line_no (DRY tmdb))
      else
        confirmed <- (if CONFIRM_EACH_ADD_DEFAULT cfg
                      then prompt_confirm_add cfg else ret true) ;;
        if (confirmed : bool) then
          code <- add_movie w idx selected ;;
          if (code =? 200) || (code =? 201) then
            bump inc_would_add ;;;
            bump inc_added ;;;
            modify (fun st => set_existing ({[tmdb]} ∪ existing_tmdb st) st) ;;;
            log (LogLine line_no (ADD tmdb))
          else
            bump inc_errors ;;;
            log (LogLine line_no ERR) ;;;
            continue_or_abort cfg
        else
          bump inc_skipped ;;;
          log (LogLine line_no SKIP)
  end.

(** The body of the [try] block for one line. *)
Definition try_line (w : world) (cfg : config) (idx : Z) (term : string)
    (desired_year : option Z) : M unit :=
  let line_no := idx + 1 in
  results <- lookup w idx term ;;
  match results with
  | [] =>
      bump inc_misses ;;;
      log (LogLine line_no MISS) ;;;
      continue_or_abort cfg
  | _ =>
      selected <- choose_from_results cfg term results desired_year ;;
      match selected with
      | ABORT => fatal
      | NoSelection =>
          bump inc_skipped ;;;
          log (LogLine line_no SKIP) ;;;
          continue_or_abort cfg
      | Selected m => handle_selected w cfg idx m
      end
  end.

(** [except Exception as e:] *)
Definition on_exception (cfg : config) (idx : Z) : M unit :=
  bump inc_errors ;;;
  log (LogLine (idx + 1) FAIL) ;;;
  continue_or_abort cfg.

Inductive flow := Next | Break.

(** [(not DRY_RUN) and (MAX_ADD is not None) and (stats["added"] >= MAX_ADD)] *)
Definition cap_reached (cfg : config) (st : run_state) : bool :=
  negb (DRY_RUN cfg) &&
  match MAX_ADD cfg with
  | Some cap => cap <=? added (stats st)
  | None => false
  end.

(** One iteration of [for idx in range(start_index, len(movies))]. *)
Definition loop_body (w : world) (cfg : config) (movies : list string)
    (idx : Z) : M flow :=
  match py_index movies idx with
  | None => raise
  | Some term =>
      save_state w (idx + 1) ;;;
      bump inc_processed ;;;
      let desired_year := snd (parse_title_year term) in
      stop <- gets (cap_reached cfg) ;;
      if (stop : bool) then log LogStop ;;; ret Break
      else
        try_except (try_line w cfg idx term desired_year)
                   (on_exception cfg idx) ;;;
        ret Next
  end.

Fixpoint for_each (idxs : list Z) (body : Z -> M flow) : M unit :=
  match idxs with
  | [] => ret tt
  | idx :: rest =>
      fun st =>
        match body idx st with
        | (Ret Next, st') => for_each rest body st'
        | (Ret Break, st') => (Ret tt, st')
        | (Raise, st') => (Raise, st')
        | (Exit, st') => (Exit, st')
        end
  end.

(** The loop and the final [save_state(len(movies))]. *)
Definition import_from (w : world) (cfg : config) (movies : list string)
    (start : Z) : M unit :=
  for_each (py_range start (Z.of_nat (length movies))) (loop_body w cfg movies) ;;;
  save_state w (Z.of_nat (length movies)).

(** [main] from "Reset tracking" on: reset, resume, seed the duplicate
    index, import. *)
Definition main (w : world) (cfg : config) (movies : list string) : M unit :=
  modify (set_hits []) ;;;
  modify (set_stats zero_stats) ;;;
  start <- start_index ;;
  match on_library w with
  | None => fatal
  | Some library =>
      modify (set_existing (get_existing_tmdb_ids library)) ;;;
      import_from w cfg movies start
  end.

(** ** Notions the statements use *)

(** ["(" a b c d ")" ws] *)
Definition year_suffix (a b c d : ascii) (ws : string) : string :=
  String "(" (String a (String b (String c (String d (String ")" ws))))).

Definition year_value (a b c d : ascii) : Z :=
  1000 * digit_val a + 100 * digit_val b + 10 * digit_val c + digit_val d.

(** The line ends with a parenthesized 4-digit number, optionally followed
    by white space. *)
Definition ends_with_year (term : string) : Prop :=
  exists prefix a b c d ws,
    isdecimal a = true /\ isdecimal b = true /\ isdecimal c = true /\
    isdecimal d = true /\ all_space ws = true /\
    term = prefix +:+ year_suffix a b c d ws.

Fixpoint no_lparen (s : string) : bool :=
  match s with
  | EmptyString => true
  | String c r => negb (Ascii.eqb c "(") && no_lparen r
  end.

(** The line an event belongs to (0-based), if any. *)
Definition event_line (e : event) : option Z :=
  match e with
  | HttpLookup i _ | HttpAdd i _ => Some i
  | LogLine line_no _ => Some (line_no - 1)
  | _ => None
  end.

(** Line [j] has been fully handled: its outcome is in the log. *)
Definition handled (j : Z) (tr : list event) : Prop :=
  exists t, In (LogLine (j + 1) t) tr.

(** Line [j] has been touched: a request or a log line for it exists. *)
Definition touched (j : Z) (tr : list event) : Prop :=
  exists e, In e tr /\ event_line e = Some j.

Definition on_line (j : Z) (e : event) : bool :=
  match event_line e with
  | Some i => i =? j
  | None => false
  end.

(** Every write of [next_index = n] not preceded by a cap stop comes
    after the outcome of each line of this run below [n - 1]. *)
Definition saves_follow_outcomes (start : Z) (tr : list event) : Prop :=
  forall later n ok earlier,
    tr = later ++ Saved n ok :: earlier ->
    ~ In LogStop earlier ->
    forall j, start <= j < n - 1 -> handled j earlier.

(** Every event of a line comes after the write of its [next_index]:
    line [i] is dispatched by [save_state(i + 1)]. *)
Definition dispatch_first (tr : list event) : Prop :=
  forall later e earlier i,
    tr = later ++ e :: earlier -> event_line e = Some i ->
    exists reply, In (Saved (i + 1) reply) earlier.

Definition attempt (e : event) : option Z :=
  match e with Saved n _ => Some n | _ => None end.

(** The values of [next_index] the run wrote or tried to write, in the
    order of the calls of [save_state]. *)
Definition attempts (tr : list event) : list Z := omap attempt (rev tr).

(** What the state file holds after the writes of a trace. *)
Fixpoint persisted (f : file_state) (tr : list event) : file_state :=
  match tr with
  | [] => f
  | Saved n reply :: earlier => after_write reply n (persisted f earlier)
  | _ :: earlier => persisted f earlier
  end.

(** An event of the [try] block of line [idx]. *)
Definition about (idx : Z) (e : event) : Prop :=
  match e with
  | Saved _ _ | LogStop => False
  | HttpLookup i _ | HttpAdd i _ => i = idx
  | LogLine line_no _ => line_no = idx + 1
  | LogYearMiss _ _ | LogAmbig _ _ | LogFatal => True
  end.

(** An event other than a write of the state file. *)
Definition no_save (e : event) : Prop :=
  match e with Saved _ _ => False | _ => True end.

Definition is_outcome (j : Z) (e : event) : bool :=
  match e with
  | LogLine line_no _ => line_no =? j + 1
  | _ => false
  end.

(** An event other than the log line of an add or of a would-add. *)
Definition plain (e : event) : Prop :=
  match e with
  | LogLine _ (ADD _) | LogLine _ (DRY _) => False
  | _ => True
  end.

(** Every id logged as added or as would-add is in the duplicate index. *)
Definition logged_ids_indexed (st : run_state) : Prop :=
  forall line_no id,
    In (LogLine line_no (ADD id)) (trace st) \/
    In (LogLine line_no (DRY id)) (trace st) ->
    id ∈ existing_tmdb st.




(** No ambiguity prompt can come up: issue prompts are off or locked to
    always-continue, or a single candidate is left. *)
Definition no_ambiguity_prompt (cfg : config) (st : run_state)
    (rest : list movie) : Prop :=
  INTERACTIVE_ON_ISSUES cfg = false \/ always_continue st = true \/ rest = [].


(** The counters [s'] are the counters [s] raised by the amounts [step]. *)
Definition counts_up (step s s' : stats_t) : Prop :=
  processed s' = processed s + processed step
  /\ would_add s' = would_add s + would_add step
  /\ duplicates s' = duplicates s + duplicates step
  /\ misses s' = misses s + misses step
  /\ errors s' = errors s + errors step
  /\ skipped s' = skipped s + skipped step
  /\ added s' = added s + added step.

Definition plus_stats (a b : stats_t) : stats_t :=
  Stats (processed a + processed b) (would_add a + would_add b)
    (duplicates a + duplicates b) (misses a + misses b) (errors a + errors b)
    (skipped a + skipped b) (added a + added b).

(** What an event of the log stands for in the counters: a line
    dispatched is either looked up or stopped by the cap; an outcome line
    counts under its tag, an add under would-add as well. *)
Definition event_count (e : event) : stats_t :=
  match e with
  | HttpLookup _ _ | LogStop => Stats 1 0 0 0 0 0 0
  | LogLine _ MISS => Stats 0 0 0 1 0 0 0
  | LogLine _ SKIP => Stats 0 0 0 0 0 1 0
  | LogLine _ ERR | LogLine _ FAIL => Stats 0 0 0 0 1 0 0
  | LogLine _ (DUP _) => Stats 0 0 1 0 0 0 0
  | LogLine _ (DRY _) => Stats 0 1 0 0 0 0 0
  | LogLine _ (ADD _) => Stats 0 1 0 0 0 0 1
  | _ => zero_stats
  end.

(** The counters a trace adds up to. *)
Fixpoint tally (tr : list event) : stats_t :=
  match tr with
  | [] => zero_stats
  | e :: earlier => plus_stats (event_count e) (tally earlier)
  end.

(** A step whose new events account for the change of the counters. *)
Definition tallied (st st' : run_state) : Prop :=
  exists newer,
    trace st' = newer ++ trace st
    /\ counts_up (tally newer) (stats st) (stats st').

(** The note of a year-miss or of an ambiguity prompt. *)
Definition is_note (e : event) : Prop :=
  match e with
  | LogYearMiss _ _ | LogAmbig _ _ => True
  | _ => False
  end.

(** What the resolution engine may do to the state: lock the issue
    prompts, read input, and note a year-miss or an ambiguity prompt.
    Counters, duplicate index, report list, state file and the lock of the
    add confirmation are as before. *)
Record resolving (st st' : run_state) : Prop := Resolving {
  res_stats : stats st' = stats st;
  res_index : existing_tmdb st' = existing_tmdb st;
  res_hits : dryrun_hits st' = dryrun_hits st;
  res_file : state_file st' = state_file st;
  res_writes : writes st' = writes st;
  res_yes : always_yes_add st' = always_yes_add st;
  res_trace : exists newer, trace st' = newer ++ trace st /\ Forall is_note newer
}.




(** What the [try] block of line [idx] may do to the state: it logs
    events of that line, leaves the state file alone, only adds to the
    duplicate index, never the id 0, and indexes every id it logs as added
    or would-add. *)
Record line_step (idx : Z) (st st' : run_state) : Prop := LineStep {
  step_trace : exists newer, trace st' = newer ++ trace st /\ Forall (about idx) newer;
  step_file : state_file st' = state_file st;
  step_writes : writes st' = writes st;
  step_index : existing_tmdb st ⊆ existing_tmdb st';
  step_zero : 0 ∉ existing_tmdb st -> 0 ∉ existing_tmdb st';
  step_logged : logged_ids_indexed st -> logged_ids_indexed st'
}.

Definition steps {A} (idx : Z) (c : M A) : Prop :=
  forall st, line_step idx st (snd (c st)).

(** When [c] returns, the outcome of line [idx] is in the log. *)
Definition marks {A} (idx : Z) (c : M A) : Prop :=
  forall st a, fst (c st) = Ret a -> handled idx (trace (snd (c st))).

(** The invariant of the loop of a run that started at line [start] on the
    state file [disk], about to dispatch line [i]. *)
Record run_inv (start : Z) (disk : file_state) (i : Z) (st : run_state) : Prop := RunInv {
  inv_saves : saves_follow_outcomes start (trace st);
  inv_dispatch : dispatch_first (trace st);
  inv_handled : ~ In LogStop (trace st) -> forall j, start <= j < i -> handled j (trace st);
  inv_file : state_file st = persisted disk (trace st);
  inv_lines : forall e j, In e (trace st) -> event_line e = Some j -> start <= j;
  inv_zero : 0 ∉ existing_tmdb st;
  inv_logged : logged_ids_indexed st
}.

(** ** Scenarios *)

Definition film (id : Z) (name : string) (y : Z) : movie :=
  Movie (Some id) (Some name) (Some y).

(** A service that knows every title under the id [100 + idx], accepts
    every add, and starts with an empty library. *)
Definition obliging_world : world :=
  World (fun idx term => LookupOk [film (100 + idx) term 1999])
        (fun _ _ => AddStatus 201) (Some []) (fun _ => Written).

(** Live mode, [--auto-add --max-add 2]. *)
Definition capped_config : config :=
  {| STRICT_YEAR_MATCH := true; INTERACTIVE_ON_ISSUES := true;
     CONFIRM_EACH_ADD_DEFAULT := true; DRY_RUN := false;
     AUTO_ADD := true; YES_ALL := false; MAX_ADD := Some 2 |}.

Definition four_lines : list string := ["A"; "B"; "C"; "D"]%string.

(** Live mode, [--auto-add], no cap. *)
Definition auto_config : config :=
  {| STRICT_YEAR_MATCH := true; INTERACTIVE_ON_ISSUES := true;
     CONFIRM_EACH_ADD_DEFAULT := true; DRY_RUN := false;
     AUTO_ADD := true; YES_ALL := false; MAX_ADD := None |}.

(** Issue prompts switched off in the configuration block, [--auto-add]. *)
Definition batch_config : config :=
  {| STRICT_YEAR_MATCH := true; INTERACTIVE_ON_ISSUES := false;
     CONFIRM_EACH_ADD_DEFAULT := true; DRY_RUN := false;
     AUTO_ADD := true; YES_ALL := false; MAX_ADD := None |}.

(** [--dry-run] *)
Definition dry_config : config :=
  {| STRICT_YEAR_MATCH := true; INTERACTIVE_ON_ISSUES := true;
     CONFIRM_EACH_ADD_DEFAULT := true; DRY_RUN := true;
     AUTO_ADD := false; YES_ALL := false; MAX_ADD := None |}.

(** A service that answers every lookup with the one film Alien, id 348. *)
Definition alien_world : world :=
  World (fun _ _ => LookupOk [film 348 "Alien" 1979])
        (fun _ _ => AddStatus 201) (Some []) (fun _ => Written).

Definition alien_file : list string :=
  ["Alien (1979)"; "#comment"; ""; "Alien (1979)"]%string.

(** A disk that fills up: the first write of the state file succeeds,
    every later one is cut short.  The service knows the first line and
    rejects the API key from the second on. *)
Definition filling_world : world :=
  World (fun idx term =>
           if idx =? 0 then LookupOk [film (100 + idx) term 1999]
           else LookupUnauthorized)
        (fun _ _ => AddStatus 201) (Some [])
        (fun k => match k with O => Written | _ => CutShort end).

(** A service that rejects the API key on the first lookup. *)
Definition rejecting_world : world :=
  World (fun _ _ => LookupUnauthorized) (fun _ _ => AddStatus 201)
        (Some []) (fun _ => Written).

(** ** The script outside the import loop *)

(** [k[-n:]] for [n > 0] *)
Definition py_last (n : nat) (s : string) : string :=
  substring (String.length s - n) n s.

Definition _mask_key (k : string) : string :=
  if String.eqb k "" then "(none)"%string
  else if (String.length k <=? 6)%nat then "***"%string
  else ("..." +:+ py_last 6 k)%string.

(** [s.rstrip("/")] *)
Fixpoint rstrip_slash (s : string) : string :=
  match s with
  | EmptyString => EmptyString
  | String c r =>
      match rstrip_slash r with
      | EmptyString => if Ascii.eqb c "/" then EmptyString else String c EmptyString
      | r' => String c r'
      end
  end.

Definition _normalize_url (url : string) : string := rstrip_slash (strip url).

(** The [while True] loop of [prompt_yes_no_default] over the pending
    input lines. *)
Fixpoint read_yes_no (default_yes : bool) (inp : list string) : option bool * list string :=
  match inp with
  | [] => (None, [])
  | l :: rest =>
      let ans := lower (strip l) in
      if String.eqb ans "" then (Some default_yes, rest)
      else if among ans ["y"; "yes"]%string then (Some true, rest)
      else if among ans ["n"; "no"]%string then (Some false, rest)
      else read_yes_no default_yes rest
  end.

(** [prompt_yes_no_default]: the answer and the input left; [Raise] is
    the [EOFError] of [input()]. *)
Definition prompt_yes_no_default (default_yes : bool) (console : list string)
    : outcome bool * list string :=
  match read_yes_no default_yes console with
  | (Some b, rest) => (Ret b, rest)
  | (None, rest) => (Raise, rest)
  end.

(** The [while True] loop of [choose_from_list], [n] items listed: the
    index picked; [Some None] is the [ValueError] of [int()] on a string
    that [isdigit()] accepts. *)
Fixpoint read_index (n : nat) (inp : list string) : option (option nat) * list string :=
  match inp with
  | [] => (None, [])
  | l :: rest =>
      let ans := strip l in
      if isdigit ans then
        match int_digits ans with
        | None => (Some None, rest)
        | Some i =>
            if i <? Z.of_nat n then (Some (Some (Z.to_nat i)), rest)
            else read_index n rest
        end
      else read_index n rest
  end.

(** [choose_from_list(title, items, render_fn)]: [Exit] is [fatal] on an
    empty list. *)
Definition choose_from_list {A} (items : list A) (console : list string)
    : outcome A * list string :=
  match items with
  | [] => (Exit, console)
  | _ =>
      match read_index (length items) console with
      | (Some (Some i), rest) =>
          match nth_error items i with
          | Some x => (Ret x, rest)
          | None => (Raise, rest)
          end
      | (_, rest) => (Raise, rest)
      end
  end.

(** *** Command line *)

(** The globals [handle_cli_flags] assigns. *)
Record flags := Flags {
  flag_DRY_RUN : bool;
  flag_INPUT_FILE : string;
  flag_RADARR_URL : string;
  flag_AUTO_ADD : bool;
  flag_YES_ALL : bool;
  flag_MAX_ADD : option Z;
  flag_CLEAN_RUN_FILES : bool;
  flag_WIPE_CONFIG : bool;
  flag_NUKE_ALL : bool;
  flag_FORCE : bool
}.






(** *** Cleanup *)

Definition LOG_FILE : string := "radarr_flat_import.log".
Definition STATE_FILE : string := "radarr_flat_import.state.json".
Definition LAST_SETTINGS_FILE : string := "radarr_flat_import.last_settings.json".
Definition DRYRUN_REPORT_FILE : string := "radarr_flat_import.dryrun.txt".

(** The directory: the files present, and those whose [unlink] raises. *)
Record folder := Folder {
  present : gset string;
  stuck : gset string
}.

(** [_safe_unlink(path)] *)
Definition _safe_unlink (path : string) (d : folder) : bool * folder :=
  if bool_decide (path ∈ present d) then
    if bool_decide (path ∈ stuck d) then (false, d)
    else (true, Folder (present d ∖ {[path]}) (stuck d))
  else (false, d).

(** The [for t in targets] loop: the folder left, the names deleted and
    the names skipped. *)
Fixpoint unlink_all (targets : list string) (d : folder)
    : folder * list string * list string :=
  match targets with
  | [] => (d, [], [])
  | t :: rest =>
      let '(ok, d1) := _safe_unlink t d in
      let '(d2, deleted, skipped) := unlink_all rest d1 in
      if ok then (d2, t :: deleted, skipped) else (d2, deleted, t :: skipped)
  end.

Definition cleanup_targets (f : flags) : list string :=
  (if flag_CLEAN_RUN_FILES f then [LOG_FILE; STATE_FILE; DRYRUN_REPORT_FILE] else [])
  ++ (if flag_WIPE_CONFIG f then [LAST_SETTINGS_FILE] else []).

(** [confirm_wipe_config()]: [Exit] is [sys.exit(0)] on any token but
    [WIPE]. *)
Definition confirm_wipe_config (console : list string) : outcome unit * list string :=
  match console with
  | [] => (Raise, [])
  | l :: rest => if String.eqb (strip l) "WIPE" then (Ret tt, rest) else (Exit, rest)
  end.

(** [cleanup_files()]: [Ret] when there is nothing to clean and [main]
    goes on, [Exit] after a cleanup or a cancellation. *)
Definition cleanup_files (f : flags) (console : list string) (d : folder)
    : outcome unit * list string * folder :=
  match cleanup_targets f with
  | [] => (Ret tt, console, d)
  | targets =>
      let '(confirmed, console1) :=
        if flag_WIPE_CONFIG f && negb (flag_FORCE f)
        then confirm_wipe_config console else (Ret tt, console) in
      match confirmed with
      | Ret _ =>
          let '(go, console2) :=
            if negb (flag_FORCE f) then prompt_yes_no_default false console1
            else (Ret true, console1) in
          match go with
          | Ret true => (Exit, console2, fst (fst (unlink_all targets d)))
          | Ret false => (Exit, console2, d)
          | Raise => (Raise, console2, d)
          | Exit => (Exit, console2, d)
          end
      | Raise => (Raise, console1, d)
      | Exit => (Exit, console1, d)
      end
  end.

(** ** Notions of the further properties *)

(** Every state [c] can leave is related to the state it started in. *)
Definition follows {A} (R : run_state -> run_state -> Prop) (c : M A) : Prop :=
  forall st, R st (snd (c st)).

(** An event that records no new entry of the duplicate index, and no add
    request in a dry run. *)
Definition benign (cfg : config) (e : event) : Prop :=
  match e with
  | LogLine _ (ADD _) | LogLine _ (DRY _) => False
  | HttpAdd _ _ => DRY_RUN cfg = false
  | _ => True
  end.

(** A step that adds nothing: index, report list and the two add counters
    are as before, the events are benign. *)
Record calm (cfg : config) (st st' : run_state) : Prop := Calm {
  calm_index : existing_tmdb st' = existing_tmdb st;
  calm_hits : dryrun_hits st' = dryrun_hits st;
  calm_added : added (stats st') = added (stats st);
  calm_would : would_add (stats st') = would_add (stats st);
  calm_trace : exists newer, trace st' = newer ++ trace st /\ Forall (benign cfg) newer
}.

(** The step that enters [id]: into the index, the counters, the log and,
    in a dry run, the report list. *)
Definition adds_entry (cfg : config) (id : Z) (mid st' : run_state) : Prop :=
  existing_tmdb st' = ({[id]} ∪ existing_tmdb mid)
  /\ would_add (stats st') = would_add (stats mid) + 1
  /\ exists line_no,
       if DRY_RUN cfg then
         trace st' = LogLine line_no (DRY id) :: trace mid
         /\ added (stats st') = added (stats mid)
         /\ exists t y, dryrun_hits st' = dryrun_hits mid ++ [(t, y, id)]
       else
         trace st' = LogLine line_no (ADD id) :: trace mid
         /\ added (stats st') = added (stats mid) + 1
         /\ dryrun_hits st' = dryrun_hits mid.

(** What one line does: nothing new, or benign steps and then one new
    entry, of an id that is not 0 and was not in the index. *)
Definition line_result (cfg : config) (st st' : run_state) : Prop :=
  calm cfg st st' \/
  exists mid id,
    calm cfg st mid /\ (id ∉ existing_tmdb mid) /\ id <> 0 /\ adds_entry cfg id mid st'.

Definition new_id (e : event) : option Z :=
  match e with
  | LogLine _ (ADD id) | LogLine _ (DRY id) => Some id
  | _ => None
  end.

(** The ids logged as added or would-add, newest first. *)
Fixpoint new_ids (tr : list event) : list Z :=
  match tr with
  | [] => []
  | e :: earlier =>
      match new_id e with
      | Some id => id :: new_ids earlier
      | None => new_ids earlier
      end
  end.

Definition is_add_request (e : event) : bool :=
  match e with HttpAdd _ _ => true | _ => false end.

(** The books of a run seeded with the index [seed]: the index is the
    seed and the ids entered since, each entered once and none of the
    seed; the counters and the report list agree with them. *)
Record accounts (cfg : config) (seed : gset Z) (st : run_state) : Prop := Accounts {
  acc_index : existing_tmdb st = (seed ∪ list_to_set (new_ids (trace st)));
  acc_once : NoDup (new_ids (trace st));
  acc_fresh : forall id, In id (new_ids (trace st)) -> (id ∉ seed) /\ id <> 0;
  acc_would : would_add (stats st) = Z.of_nat (length (new_ids (trace st)));
  acc_dry : DRY_RUN cfg = true ->
            added (stats st) = 0
            /\ existsb is_add_request (trace st) = false
            /\ map snd (dryrun_hits st) = rev (new_ids (trace st));
  acc_live : DRY_RUN cfg = false ->
             added (stats st) = would_add (stats st) /\ dryrun_hits st = []
}.

(** No prompt can be reached: issue prompts are off or locked to
    always-continue, add confirmations are off, automatic or locked to
    always-yes. *)
Definition unattended (cfg : config) (st : run_state) : Prop :=
  (INTERACTIVE_ON_ISSUES cfg = false \/ always_continue st = true)
  /\ (CONFIRM_EACH_ADD_DEFAULT cfg = false \/ AUTO_ADD cfg = true
      \/ always_yes_add st = true).

(** A step that, started unattended, stays so and reads no input. *)
Definition silent (cfg : config) (st st' : run_state) : Prop :=
  unattended cfg st -> unattended cfg st' /\ stdin st' = stdin st.

(** Started unattended, [c] does not end the process, and what it
    returns satisfies [P]. *)
Definition goes_on {A} (cfg : config) (c : M A) (P : A -> Prop) : Prop :=
  forall st, unattended cfg st ->
    match fst (c st) with
    | Ret a => P a
    | Raise => True
    | Exit => False
    end.

(** The service answers no request with 401. *)
Definition authorized (w : world) : Prop :=
  (forall idx term, on_lookup w idx term <> LookupUnauthorized)
  /\ (forall idx m, on_add w idx m <> AddStatus 401).

(** An event that is neither an add request nor the log line of a new
    entry. *)
Definition harmless (e : event) : Prop :=
  match e with
  | HttpAdd _ _ | LogLine _ (ADD _) | LogLine _ (DRY _) => False
  | _ => True
  end.

(** A change of the counters that leaves the two add counters alone. *)
Definition keeps_add_counters (f : stats_t -> stats_t) : Prop :=
  forall s, added (f s) = added s /\ would_add (f s) = would_add s.

(** The last character of [s] is [c]. *)
Fixpoint ends_with (c : ascii) (s : string) : bool :=
  match s with
  | EmptyString => false
  | String x EmptyString => Ascii.eqb x c
  | String _ r => ends_with c r
  end.

Fixpoint all_slashes (s : string) : bool :=
  match s with
  | EmptyString => true
  | String c r => Ascii.eqb c "/" && all_slashes r
  end.

(** [--clean], with and without [--force]. *)
Definition clean_flags (force : bool) : flags :=
  {| flag_DRY_RUN := false; flag_INPUT_FILE := "movies.txt";
     flag_RADARR_URL := "http://127.0.0.1:7878";
     flag_AUTO_ADD := false; flag_YES_ALL := false; flag_MAX_ADD := None;
     flag_CLEAN_RUN_FILES := true; flag_WIPE_CONFIG := false;
     flag_NUKE_ALL := false; flag_FORCE := force |}.

(** A folder holding the log and the saved settings. *)
Definition used_folder : folder :=
  Folder ({[LOG_FILE]} ∪ {[LAST_SETTINGS_FILE]}) ∅.

(** * Properties *)

(** ** The line parser *)

Lemma isspace_not_lparen c : isspace c = true -> Ascii.eqb c "(" = false.
Proof.
  destruct (Ascii.eqb_spec c "(") as [->|]; [vm_compute; discriminate | reflexivity].
Qed.

Lemma isdecimal_not_lparen c : isdecimal c = true -> Ascii.eqb c "(" = false.
Proof.
  destruct (Ascii.eqb_spec c "(") as [->|]; [vm_compute; discriminate | reflexivity].
Qed.

Lemma all_space_no_lparen ws : all_space ws = true -> no_lparen ws = true.
Proof.
  induction ws as [|c r IH]; simpl; [reflexivity|].
  intros [Hc Hr]%andb_prop. rewrite (isspace_not_lparen _ Hc). simpl. auto.
Qed.

Lemma match_year_here_inv s y :
  match_year_here s = Some y ->
  exists a b c d ws,
    isdecimal a = true /\ isdecimal b = true /\ isdecimal c = true /\
    isdecimal d = true /\ all_space ws = true /\
    s = year_suffix a b c d ws /\ y = year_value a b c d.
Proof.
  destruct s as [|p [|a [|b [|c [|d [|q ws]]]]]]; simpl; try discriminate.
  destruct (Ascii.eqb_spec p "(") as [->|]; simpl; [|discriminate].
  destruct (isdecimal a) eqn:Ha; simpl; [|discriminate].
  destruct (isdecimal b) eqn:Hb; simpl; [|discriminate].
  destruct (isdecimal c) eqn:Hc; simpl; [|discriminate].
  destruct (isdecimal d) eqn:Hd; simpl; [|discriminate].
  destruct (Ascii.eqb_spec q ")") as [->|]; simpl; [|discriminate].
  destruct (all_space ws) eqn:Hws; [|discriminate].
  intros [= <-]. exists a, b, c, d, ws. repeat split; assumption.
Qed.

Lemma match_year_here_suffix a b c d ws :
  isdecimal a = true -> isdecimal b = true -> isdecimal c = true ->
  isdecimal d = true -> all_space ws = true ->
  match_year_here (year_suffix a b c d ws) = Some (year_value a b c d).
Proof.
  intros Ha Hb Hc Hd Hws. unfold year_suffix, match_year_here.
  rewrite Ha, Hb, Hc, Hd, Hws. reflexivity.
Qed.

Lemma match_year_here_no_lparen x r y :
  match_year_here (String x r) = Some y -> no_lparen r = true.
Proof.
  intros H. apply match_year_here_inv in H
    as (a & b & c & d & ws & Ha & Hb & Hc & Hd & Hws & Heq & _).
  injection Heq as _ ->. simpl.
  rewrite (isdecimal_not_lparen _ Ha), (isdecimal_not_lparen _ Hb),
    (isdecimal_not_lparen _ Hc), (isdecimal_not_lparen _ Hd).
  simpl. apply all_space_no_lparen, Hws.
Qed.

Lemma no_lparen_app_lparen p s : no_lparen (p +:+ String "(" s) = false.
Proof.
  induction p as [|c r IH]; simpl; [reflexivity|].
  rewrite IH. apply andb_false_r.
Qed.

Lemma re_search_year_prefix prefix a b c d ws :
  isdecimal a = true -> isdecimal b = true -> isdecimal c = true ->
  isdecimal d = true -> all_space ws = true ->
  re_search_year (prefix +:+ year_suffix a b c d ws)
  = Some (String.length prefix, year_value a b c d).
Proof.
  intros Ha Hb Hc Hd Hws.
  induction prefix as [|x p IH].
  - change (EmptyString +:+ ?s) with s.
    destruct ws; simpl; rewrite ?Ha, ?Hb, ?Hc, ?Hd; simpl in Hws |- *;
      rewrite ?Hws; reflexivity.
  - change (String x p +:+ ?s) with (String x (p +:+ s)).
    cbn [re_search_year].
    destruct (match_year_here (String x (p +:+ year_suffix a b c d ws))) eqn:Hm.
    + apply match_year_here_no_lparen in Hm.
      unfold year_suffix in Hm. rewrite no_lparen_app_lparen in Hm. discriminate.
    + rewrite IH. reflexivity.
Qed.

Lemma re_search_year_inv s i y :
  re_search_year s = Some (i, y) ->
  exists a b c d ws,
    isdecimal a = true /\ isdecimal b = true /\ isdecimal c = true /\
    isdecimal d = true /\ all_space ws = true /\
    s = substring 0 i s +:+ year_suffix a b c d ws /\ y = year_value a b c d.
Proof.
  revert i. induction s as [|x r IH]; intros i.
  - simpl. discriminate.
  - cbn [re_search_year].
    destruct (match_year_here (String x r)) eqn:Hm.
    + intros [= <- <-]. apply match_year_here_inv in Hm
        as (a & b & c & d & ws & Ha & Hb & Hc & Hd & Hws & Heq & Hy).
      exists a, b, c, d, ws. repeat split; try assumption.
    + destruct (re_search_year r) as [[j y']|] eqn:Hr; [|discriminate].
      intros [= <- <-].
      destruct (IH j eq_refl) as (a & b & c & d & ws & Ha & Hb & Hc & Hd & Hws & Heq & Hy).
      exists a, b, c, d, ws. repeat split; try assumption.
      cbn [substring]. change (String x ?p +:+ ?s) with (String x (p +:+ s)).
      rewrite <- Heq. reflexivity.
Qed.

Lemma substring_prefix p s : substring 0 (String.length p) (p +:+ s) = p.
Proof.
  induction p as [|c r IH]; simpl.
  - destruct s; reflexivity.
  - rewrite IH. reflexivity.
Qed.

Lemma parse_title_year_with_year prefix a b c d ws :
  isdecimal a = true -> isdecimal b = true -> isdecimal c = true ->
  isdecimal d = true -> all_space ws = true ->
  parse_title_year (prefix +:+ year_suffix a b c d ws)
  = (strip prefix, Some (year_value a b c d)).
Proof.
  intros Ha Hb Hc Hd Hws. unfold parse_title_year.
  rewrite re_search_year_prefix by assumption.
  rewrite substring_prefix. reflexivity.
Qed.

Lemma parse_title_year_without_year term :
  ~ ends_with_year term -> parse_title_year term = (strip term, None).
Proof.
  intros Hno. unfold parse_title_year.
  destruct (re_search_year term) as [[i y]|] eqn:Hs; [|reflexivity].
  exfalso. apply Hno. apply re_search_year_inv in Hs
    as (a & b & c & d & ws & Ha & Hb & Hc & Hd & Hws & Heq & _).
  exists (substring 0 i term), a, b, c, d, ws. repeat split; assumption.
Qed.

Example parse_trailing_space :
  parse_title_year "  Heat  (1995) 	" = ("Heat"%string, Some 1995).
Proof. reflexivity. Qed.

Example parse_short_number :
  parse_title_year " 2001 (68) " = ("2001 (68)"%string, None).
Proof. reflexivity. Qed.

(** C9. A line that ends with a parenthesized 4-digit number, optionally
    followed by white space, parses to that number as the year and the
    trimmed text before it as the title; any other line parses to no year
    and the trimmed line.  ["Foo Bar (1999)"] gives [("Foo Bar", 1999)],
    ["Foo Bar"] gives no year, and every string has a result. *)
Theorem parse_title_year_contract :
  (forall prefix a b c d ws,
      isdecimal a = true -> isdecimal b = true -> isdecimal c = true ->
      isdecimal d = true -> all_space ws = true ->
      parse_title_year (prefix +:+ year_suffix a b c d ws)
      = (strip prefix, Some (year_value a b c d)))
  /\ (forall term, ~ ends_with_year term ->
        parse_title_year term = (strip term, None))
  /\ parse_title_year "Foo Bar (1999)" = ("Foo Bar"%string, Some 1999)
  /\ parse_title_year "Foo Bar" = ("Foo Bar"%string, None)
  /\ (forall term, exists t y, parse_title_year term = (t, y)).
Proof.
  split; [exact parse_title_year_with_year|].
  split; [exact parse_title_year_without_year|].
  split; [reflexivity|]. split; [reflexivity|].
  intros term. destruct (parse_title_year term) as [t y]. eauto.
Qed.

Lemma ends_with_year_found term :
  ends_with_year term -> exists i y, re_search_year term = Some (i, y).
Proof.
  intros (prefix & a & b & c & d & ws & Ha & Hb & Hc & Hd & Hws & ->).
  eexists _, _. apply re_search_year_prefix; assumption.
Qed.

Lemma parse_title_year_contract_witness :
  parse_title_year ("Alien " +:+ year_suffix "1" "9" "7" "9" " ")
  = (strip "Alien ", Some (year_value "1" "9" "7" "9"))
  /\ parse_title_year "Alien 3" = (strip "Alien 3", None).
Proof.
  split.
  - apply (proj1 parse_title_year_contract); reflexivity.
  - apply (proj1 (proj2 parse_title_year_contract)).
    intros H. destruct (ends_with_year_found _ H) as (i & y & Hs).
    assert (Hnone : re_search_year "Alien 3" = None) by reflexivity.
    rewrite Hnone in Hs. discriminate Hs.
Defined.

(** ** The resume state *)

Lemma start_index_no_file console :
  start_index (initial_state Missing console) = (Ret 0, initial_state Missing console).
Proof. reflexivity. Qed.

Lemma load_state_unusable f :
  f = Missing \/ f = Unreadable \/ f = NotJson ->
  load_state f = fresh_state.
Proof. intros [->|[->| ->]]; reflexivity. Qed.

Lemma load_state_not_a_dict v :
  (forall d, v <> JDict d) -> load_state (Json v) = fresh_state.
Proof. intros H. destruct v; try reflexivity. destruct (H items eq_refl). Qed.

Lemma load_state_bad_last_index v :
  py_int v = None ->
  load_state (Json (JDict [("last_index"%string, v)])) = fresh_state.
Proof. intros H. unfold load_state. simpl. unfold get_default. simpl. rewrite H. reflexivity. Qed.

Lemma start_index_saved n st :
  state_file st = saved_index n -> start_index st = (Ret n, st).
Proof. intros H. unfold start_index. rewrite H. reflexivity. Qed.

(** C5. A state file that is valid JSON but whose [next_index] is not a
    number (here a string, or [null]) is returned as it is by
    [load_state]; the conversion in [main] then raises outside any [try],
    and the run ends before a single line is read or the library fetched. *)
Theorem bad_next_index_ends_the_run :
  forall w cfg movies console v,
    v = JStr "abc" \/ v = JNull ->
    let disk := Json (JDict [("next_index"%string, v)]) in
    load_state disk = [("next_index"%string, v)]
    /\ fst (main w cfg movies (initial_state disk console)) = Raise
    /\ trace (snd (main w cfg movies (initial_state disk console))) = [].
Proof.
  intros w cfg movies console v [-> | ->]; repeat split; reflexivity.
Qed.

Lemma bad_next_index_ends_the_run_witness :
  fst (main obliging_world default_config four_lines
         (initial_state (Json (JDict [("next_index"%string, JNull)])) [])) = Raise.
Proof.
  apply (bad_next_index_ends_the_run obliging_world default_config four_lines [] JNull).
  right. reflexivity.
Defined.

(** ** The add cap *)

Lemma touched_on_line j tr : touched j tr <-> existsb (on_line j) tr = true.
Proof.
  rewrite existsb_exists. unfold touched, on_line. split.
  - intros (e & Hin & He). exists e. rewrite He. split; [exact Hin|apply Z.eqb_refl].
  - intros (e & Hin & He). exists e. split; [exact Hin|].
    destruct (event_line e) as [i|]; [|discriminate].
    apply Z.eqb_eq in He. congruence.
Qed.

Lemma untouched_on_line j tr : existsb (on_line j) tr = false -> ~ touched j tr.
Proof. intros H Ht. apply touched_on_line in Ht. congruence. Qed.

(** C1. Live mode, cap 2, four lines that each resolve and add: lines 1
    and 2 are added, line 3 is dispatched (its [next_index = 3] written)
    and the run stops there without a lookup; the final write then marks
    all four lines done, so a second run does nothing and lines 3 and 4
    are never looked up. *)
Theorem cap_stop_marks_everything_done :
  let first_run := main obliging_world capped_config four_lines (initial_state Missing []) in
  let disk := state_file (snd first_run) in
  let second_run := main obliging_world capped_config four_lines (initial_state disk []) in
  fst first_run = Ret tt
  /\ rev (trace (snd first_run))
     = [Saved 1 Written; HttpLookup 0 "A"; HttpAdd 0 (film 100 "A" 1999); LogLine 1 (ADD 100);
        Saved 2 Written; HttpLookup 1 "B"; HttpAdd 1 (film 101 "B" 1999); LogLine 2 (ADD 101);
        Saved 3 Written; LogStop; Saved 4 Written]
  /\ disk = saved_index 4
  /\ ~ touched 2 (trace (snd first_run))
  /\ rev (trace (snd second_run)) = [Saved 4 Written].
Proof.
  cbv zeta. split; [vm_compute; reflexivity|].
  split; [vm_compute; reflexivity|].
  split; [vm_compute; reflexivity|].
  split; [|vm_compute; reflexivity].
  apply untouched_on_line. vm_compute. reflexivity.
Qed.

(** ** The resolution engine *)

Section FilterFacts.
Context {A : Type} (f : A -> bool).




End FilterFacts.






Lemma shortcut_never_with_year term filtered y :
  shortcut_applies term filtered (Some y) = false.
Proof. unfold shortcut_applies. simpl. apply andb_false_r. Qed.



Lemma choose_from_no_shortcut cfg term first rest desired_year st :
  shortcut_applies term (first :: rest) desired_year = false ->
  choose_from cfg term (first :: rest) desired_year st
  = choose_otherwise cfg term first (first :: rest) st.
Proof. intros H. unfold choose_from. rewrite H. reflexivity. Qed.

Lemma choose_otherwise_quiet cfg term first rest st :
  no_ambiguity_prompt cfg st rest ->
  choose_otherwise cfg term first (first :: rest) st = (Ret (Selected first), st).
Proof.
  unfold choose_otherwise. intros [H|[H| ->]]; rewrite ?H; simpl;
    rewrite ?andb_false_r; reflexivity.
Qed.

Lemma choose_otherwise_asks cfg term first rest st :
  INTERACTIVE_ON_ISSUES cfg = true -> always_continue st = false -> rest <> [] ->
  choose_otherwise cfg term first (first :: rest) st
  = disambiguate term (first :: rest) st.
Proof.
  intros Hi Ha Hr. unfold choose_otherwise. rewrite Hi, Ha.
  destruct rest; [congruence|reflexivity].
Qed.

(** The ambiguity prompt notes the candidates it shows, and nothing else. *)
Lemma disambiguate_trace term filtered st :
  trace (snd (disambiguate term filtered st))
  = LogAmbig term (firstn MAX_CHOICES_TO_SHOW filtered) :: trace st.
Proof.
  unfold disambiguate, bind, log, modify. cbn [stdin emit].
  destruct (read_choice _ (stdin st)) as [[[]|] pending]; try reflexivity.
  - destruct (firstn MAX_CHOICES_TO_SHOW filtered); reflexivity.
  - destruct (nth_error _ i); reflexivity.
Qed.


(** The two candidates of the bypass example: only the second one has
    the title of the line. *)
Example shortcut_taken_without_year :
  forall st,
    choose_from_results default_config "Alien"
      [film 1 "Alien Nation" 1979; film 2 " ALIEN " 1979] None st
    = (Ret (Selected (film 2 " ALIEN " 1979)), st).
Proof. reflexivity. Qed.

Example shortcut_bypassed_with_year :
  forall st, always_continue st = true ->
    choose_from_results default_config "Alien (1979)"
      [film 1 "Alien Nation" 1979; film 2 " ALIEN " 1979] (Some 1979) st
    = (Ret (Selected (film 1 "Alien Nation" 1979)), st).
Proof.
  intros st H. unfold choose_from_results, choose_from, choose_otherwise.
  simpl. rewrite H. reflexivity.
Qed.



Lemma exact_title_within term filtered x :
  In x (exact_title term filtered) -> In x filtered.
Proof. unfold exact_title. intros H. apply List.filter_In in H. tauto. Qed.




(** ** Sequencing *)

Lemma bind_at {A B} (c : M A) (k : A -> M B) st :
  bind c k st = match c st with
                | (Ret a, st') => k a st'
                | (Raise, st') => (Raise, st')
                | (Exit, st') => (Exit, st')
                end.
Proof. reflexivity. Qed.

(** ** Steps related by a preorder *)

Section Follows.
Variable R : run_state -> run_state -> Prop.
Hypothesis R_refl : forall st, R st st.
Hypothesis R_trans : forall a b c, R a b -> R b c -> R a c.

Lemma follows_ret {A} (a : A) : follows R (ret a).
Proof using R_refl R_trans. intros st. apply R_refl. Qed.

Lemma follows_raise {A} : follows R (@raise A).
Proof using R_refl R_trans. intros st. apply R_refl. Qed.

Lemma follows_gets {A} (g : run_state -> A) : follows R (gets g).
Proof using R_refl R_trans. intros st. apply R_refl. Qed.

Lemma follows_bind {A B} (c : M A) (k : A -> M B) :
  follows R c -> (forall a, follows R (k a)) -> follows R (bind c k).
Proof using R_refl R_trans.
  intros Hc Hk st. unfold bind. specialize (Hc st).
  destruct (c st) as [[a| |] st1]; simpl in *; try exact Hc.
  eapply R_trans; [exact Hc|apply Hk].
Qed.


(** What the relation has to allow for the functions below to follow it. *)
Variable cfg : config.
Hypothesis R_emit : forall e st, harmless e -> R st (emit e st).
Hypothesis R_stats : forall f st, keeps_add_counters f ->
  R st (set_stats (f (stats st)) st).
Hypothesis R_prompt_continue : follows R (prompt_continue cfg).
Hypothesis R_choose_otherwise : forall term first filtered,
  follows R (choose_otherwise cfg term first filtered).

Lemma follows_log e : harmless e -> follows R (log e).
Proof using R_refl R_trans R_emit R_stats R_prompt_continue R_choose_otherwise. intros He st. apply R_emit, He. Qed.

Lemma follows_bump f : keeps_add_counters f -> follows R (bump f).
Proof using R_refl R_trans R_emit R_stats R_prompt_continue R_choose_otherwise. intros Hf st. apply R_stats, Hf. Qed.

Lemma follows_fatal {A} : follows R (@fatal A).
Proof using R_refl R_trans R_emit R_stats R_prompt_continue R_choose_otherwise. intros st. apply R_emit. exact I. Qed.

Lemma follows_continue_or_abort : follows R (continue_or_abort cfg).
Proof using R_refl R_trans R_emit R_stats R_prompt_continue R_choose_otherwise.
  apply follows_bind; [apply R_prompt_continue|].
  intros []; [apply follows_ret|apply follows_fatal].
Qed.

(** [bump f ;;; log e ;;; continue_or_abort]: the tail of every miss,
    skip and error. *)
Lemma follows_issue f e :
  keeps_add_counters f -> harmless e ->
  follows R (bump f ;;; log e ;;; continue_or_abort cfg).
Proof using R_refl R_trans R_emit R_stats R_prompt_continue R_choose_otherwise.
  intros Hf He. apply follows_bind; [apply follows_bump, Hf|]. intros _.
  apply follows_bind; [apply follows_log, He|]. intros _.
  apply follows_continue_or_abort.
Qed.

Lemma follows_choose_from term filtered desired_year :
  follows R (choose_from cfg term filtered desired_year).
Proof using R_refl R_trans R_emit R_stats R_prompt_continue R_choose_otherwise.
  unfold choose_from. destruct filtered as [|first rest]; [apply follows_ret|].
  destruct (shortcut_applies _ _ _); [|apply R_choose_otherwise].
  destruct (exact_title _ _); [apply follows_raise|apply follows_ret].
Qed.

Lemma follows_choose_from_results term results desired_year :
  follows R (choose_from_results cfg term results desired_year).
Proof using R_refl R_trans R_emit R_stats R_prompt_continue R_choose_otherwise.
  unfold choose_from_results.
  destruct desired_year as [y|]; [|apply follows_choose_from].
  destruct (STRICT_YEAR_MATCH cfg); [|apply follows_choose_from].
  destruct (year_matches y results); [|apply follows_choose_from].
  apply follows_bind; [apply follows_log; exact I|]. intros _.
  apply follows_bind; [apply R_prompt_continue|].
  intros []; [apply follows_choose_from|apply follows_ret].
Qed.

Lemma follows_lookup w idx term : follows R (lookup w idx term).
Proof using R_refl R_trans R_emit R_stats R_prompt_continue R_choose_otherwise.
  apply follows_bind; [apply follows_log; exact I|]. intros _.
  destruct (on_lookup w idx term);
    [apply follows_ret|apply follows_fatal|apply follows_raise].
Qed.

Lemma follows_on_exception idx : follows R (on_exception cfg idx).
Proof using R_refl R_trans R_emit R_stats R_prompt_continue R_choose_otherwise.
  unfold on_exception.
  apply follows_issue; [intros s; split; reflexivity|exact I].
Qed.

End Follows.

(** ** What one line does to the state *)

Section LineSteps.
Variable idx : Z.

Lemma line_step_refl st : line_step idx st st.
Proof.
  constructor; auto. exists []. split; [reflexivity|constructor].
Qed.

Lemma line_step_trans st1 st2 st3 :
  line_step idx st1 st2 -> line_step idx st2 st3 -> line_step idx st1 st3.
Proof.
  intros [(n1 & T1 & F1) ? ? ? ? ?] [(n2 & T2 & F2) ? ? ? ? ?].
  constructor; try congruence; auto.
  - exists (n2 ++ n1). split.
    + rewrite T2, T1. apply app_assoc.
    + apply Forall_app. split; assumption.
  - set_solver.
Qed.

(** A change of the flags, the counters, the pending input or the hits. *)
Lemma line_step_silent st st' :
  trace st' = trace st -> state_file st' = state_file st ->
  writes st' = writes st -> existing_tmdb st' = existing_tmdb st ->
  line_step idx st st'.
Proof.
  intros Ht Hf Hw He. constructor; auto.
  - exists []. split; [exact Ht|constructor].
  - rewrite He. reflexivity.
  - rewrite He. auto.
  - unfold logged_ids_indexed. rewrite Ht, He. auto.
Qed.

Lemma line_step_emit e st :
  about idx e -> plain e -> line_step idx st (emit e st).
Proof.
  intros Ha Hp. constructor; simpl; auto.
  - exists [e]. split; [reflexivity|]. constructor; [exact Ha|constructor].
  - intros Hl line_no id [[He|H]|[He|H]].
    + subst e. destruct Hp.
    + apply (Hl line_no id). left. exact H.
    + subst e. destruct Hp.
    + apply (Hl line_no id). right. exact H.
Qed.

Lemma steps_ret {A} (a : A) : steps idx (ret a).
Proof. intros st. apply line_step_refl. Qed.

Lemma steps_raise {A} : steps idx (@raise A).
Proof. intros st. apply line_step_refl. Qed.

Lemma steps_gets {A} (g : run_state -> A) : steps idx (gets g).
Proof. intros st. apply line_step_refl. Qed.

Lemma steps_fatal {A} : steps idx (@fatal A).
Proof. intros st. apply line_step_emit; exact I. Qed.

Lemma steps_log e : about idx e -> plain e -> steps idx (log e).
Proof. intros Ha Hp st. apply line_step_emit; assumption. Qed.

Lemma steps_bump f : steps idx (bump f).
Proof. intros st. apply line_step_silent; reflexivity. Qed.

Lemma steps_bind {A B} (c : M A) (k : A -> M B) :
  steps idx c -> (forall a, steps idx (k a)) -> steps idx (bind c k).
Proof.
  intros Hc Hk st. unfold bind. specialize (Hc st).
  destruct (c st) as [[a| |] st1]; simpl in *; try exact Hc.
  eapply line_step_trans; [exact Hc|apply Hk].
Qed.

Lemma steps_try_except {A} (c h : M A) :
  steps idx c -> steps idx h -> steps idx (try_except c h).
Proof.
  intros Hc Hh st. unfold try_except. specialize (Hc st).
  destruct (c st) as [[a| |] st1]; simpl in *; try exact Hc.
  eapply line_step_trans; [exact Hc|apply Hh].
Qed.

Lemma steps_prompt_continue cfg : steps idx (prompt_continue cfg).
Proof.
  intros st. unfold prompt_continue.
  destruct (negb (INTERACTIVE_ON_ISSUES cfg) || always_continue st);
    [apply line_step_refl|].
  destruct (read_continue (stdin st)) as [[[]|] rest];
    apply line_step_silent; reflexivity.
Qed.

Lemma steps_prompt_confirm_add cfg : steps idx (prompt_confirm_add cfg).
Proof.
  intros st. unfold prompt_confirm_add.
  destruct (AUTO_ADD cfg); [apply line_step_refl|].
  destruct (always_yes_add st); [apply line_step_refl|].
  destruct (read_confirm (stdin st)) as [[[]|] rest]; simpl;
    try destruct (YES_ALL cfg); apply line_step_silent; reflexivity.
Qed.

Lemma steps_continue_or_abort cfg : steps idx (continue_or_abort cfg).
Proof.
  apply steps_bind; [apply steps_prompt_continue|].
  intros []; [apply steps_ret|apply steps_fatal].
Qed.

Lemma steps_disambiguate term filtered : steps idx (disambiguate term filtered).
Proof.
  apply steps_bind; [apply steps_log; exact I|].
  intros _ st.
  destruct (read_choice _ (stdin st)) as [[[]|] rest] eqn:E; rewrite ?E; simpl;
    repeat match goal with
           | |- context [match ?x with _ => _ end] => destruct x
           end;
    apply line_step_silent; reflexivity.
Qed.

Lemma steps_choose_otherwise cfg term first filtered :
  steps idx (choose_otherwise cfg term first filtered).
Proof.
  intros st. unfold choose_otherwise.
  destruct (_ && _); [apply steps_disambiguate|apply line_step_refl].
Qed.

Lemma steps_choose_from cfg term filtered desired_year :
  steps idx (choose_from cfg term filtered desired_year).
Proof.
  unfold choose_from. destruct filtered as [|first rest]; [apply steps_ret|].
  destruct (shortcut_applies _ _ _); [|apply steps_choose_otherwise].
  destruct (exact_title _ _); [apply steps_raise|apply steps_ret].
Qed.

Lemma steps_choose_from_results cfg term results desired_year :
  steps idx (choose_from_results cfg term results desired_year).
Proof.
  unfold choose_from_results.
  destruct desired_year as [y|]; [|apply steps_choose_from].
  destruct (STRICT_YEAR_MATCH cfg); [|apply steps_choose_from].
  destruct (year_matches y results); [|apply steps_choose_from].
  apply steps_bind; [apply steps_log; exact I|]. intros _.
  apply steps_bind; [apply steps_prompt_continue|].
  intros []; [apply steps_choose_from|apply steps_ret].
Qed.

Lemma steps_lookup w term : steps idx (lookup w idx term).
Proof.
  apply steps_bind; [apply steps_log; [reflexivity|exact I]|]. intros _.
  destruct (on_lookup w idx term);
    [apply steps_ret|apply steps_fatal|apply steps_raise].
Qed.

Lemma steps_add_movie w m : steps idx (add_movie w idx m).
Proof.
  apply steps_bind; [apply steps_log; [reflexivity|exact I]|]. intros _.
  destruct (on_add w idx m) as [code|]; [|apply steps_raise].
  destruct (code =? 401); [apply steps_fatal|apply steps_ret].
Qed.

(** The insertion into the duplicate index and the log line that names
    the id go together. *)
Lemma steps_index_then_log tmdb t :
  tmdb <> 0 -> t = ADD tmdb \/ t = DRY tmdb ->
  steps idx (modify (fun st => set_existing ({[tmdb]} ∪ existing_tmdb st) st) ;;;
             log (LogLine (idx + 1) t)).
Proof.
  intros Hnz Ht st. constructor; simpl; auto.
  - exists [LogLine (idx + 1) t]. split; [reflexivity|].
    constructor; [reflexivity|constructor].
  - apply union_subseteq_r.
  - intros H0 [H|H]%elem_of_union; [|auto].
    apply elem_of_singleton in H. congruence.
  - intros Hl line_no id [[He|H]|[He|H]].
    + destruct Ht as [-> | ->]; [|discriminate]. injection He as _ ->. set_solver.
    + apply elem_of_union_r. apply (Hl line_no id). left. exact H.
    + destruct Ht as [-> | ->]; [discriminate|]. injection He as _ ->. set_solver.
    + apply elem_of_union_r. apply (Hl line_no id). right. exact H.
Qed.

Lemma truthy_id_nonzero m tmdb : truthy_id m = Some tmdb -> tmdb <> 0.
Proof.
  unfold truthy_id. destruct (tmdbId m) as [i|]; [|discriminate].
  destruct (Z.eqb_spec i 0); [discriminate|]. intros [= <-]. assumption.
Qed.

Lemma steps_set_hits h : steps idx (modify (fun st => set_hits (h st) st)).
Proof. intros st. apply line_step_silent; reflexivity. Qed.

Lemma steps_handle_selected w cfg selected :
  steps idx (handle_selected w cfg idx selected).
Proof.
  unfold handle_selected. destruct (truthy_id selected) as [tmdb|] eqn:Hid.
  - pose proof (truthy_id_nonzero _ _ Hid) as Hnz.
    apply steps_bind; [apply steps_gets|]. intros [].
    + apply steps_bind; [apply steps_bump|]. intros _.
      apply steps_log; [reflexivity|exact I].
    + destruct (DRY_RUN cfg).
      * apply steps_bind; [apply steps_bump|]. intros _.
        apply steps_bind; [apply steps_set_hits|]. intros _.
        apply steps_index_then_log; auto.
      * apply steps_bind.
        { destruct (CONFIRM_EACH_ADD_DEFAULT cfg);
            [apply steps_prompt_confirm_add|apply steps_ret]. }
        intros [].
        -- apply steps_bind; [apply steps_add_movie|]. intros code.
           destruct (_ || _).
           ++ apply steps_bind; [apply steps_bump|]. intros _.
              apply steps_bind; [apply steps_bump|]. intros _.
              apply steps_index_then_log; auto.
           ++ apply steps_bind; [apply steps_bump|]. intros _.
              apply steps_bind; [apply steps_log; [reflexivity|exact I]|]. intros _.
              apply steps_continue_or_abort.
        -- apply steps_bind; [apply steps_bump|]. intros _.
           apply steps_log; [reflexivity|exact I].
  - apply steps_bind; [apply steps_bump|]. intros _.
    apply steps_bind; [apply steps_log; [reflexivity|exact I]|]. intros _.
    apply steps_continue_or_abort.
Qed.

Lemma steps_try_line w cfg term desired_year :
  steps idx (try_line w cfg idx term desired_year).
Proof.
  unfold try_line. apply steps_bind; [apply steps_lookup|].
  intros [|first rest].
  - apply steps_bind; [apply steps_bump|]. intros _.
    apply steps_bind; [apply steps_log; [reflexivity|exact I]|]. intros _.
    apply steps_continue_or_abort.
  - apply steps_bind; [apply steps_choose_from_results|].
    intros [m| |].
    + apply steps_handle_selected.
    + apply steps_bind; [apply steps_bump|]. intros _.
      apply steps_bind; [apply steps_log; [reflexivity|exact I]|]. intros _.
      apply steps_continue_or_abort.
    + apply steps_fatal.
Qed.

Lemma steps_on_exception cfg : steps idx (on_exception cfg idx).
Proof.
  unfold on_exception. apply steps_bind; [apply steps_bump|]. intros _.
  apply steps_bind; [apply steps_log; [reflexivity|exact I]|]. intros _.
  apply steps_continue_or_abort.
Qed.

(** *** Every line that returns has logged its outcome *)

Lemma marks_log_line {A} t (k : unit -> M A) :
  (forall u, steps idx (k u)) -> marks idx (bind (log (LogLine (idx + 1) t)) k).
Proof.
  intros Hk st a _. unfold bind, log, modify.
  destruct (Hk tt (emit (LogLine (idx + 1) t) st)) as [(newer & Ht & _) _ _ _ _ _].
  rewrite Ht. exists t. apply in_or_app. right. left. reflexivity.
Qed.

Lemma marks_log_line_last t : marks idx (log (LogLine (idx + 1) t)).
Proof. intros st a _. exists t. left. reflexivity. Qed.

Lemma marks_bind {A B} (c : M A) (k : A -> M B) :
  (forall a, marks idx (k a)) -> marks idx (bind c k).
Proof.
  intros Hk st b. unfold bind.
  destruct (c st) as [[a| |] st1]; simpl; try discriminate.
  apply Hk.
Qed.

Lemma marks_fatal {A} : marks idx (@fatal A).
Proof. intros st a. discriminate. Qed.

Lemma marks_raise {A} : marks idx (@raise A).
Proof. intros st a. discriminate. Qed.

Lemma marks_on_exception cfg : marks idx (on_exception cfg idx).
Proof.
  unfold on_exception. apply marks_bind. intros _.
  apply marks_log_line. intros _. apply steps_continue_or_abort.
Qed.

Lemma marks_handle_selected w cfg selected :
  marks idx (handle_selected w cfg idx selected).
Proof.
  unfold handle_selected. destruct (truthy_id selected) as [tmdb|].
  - apply marks_bind. intros [].
    + apply marks_bind. intros _. apply marks_log_line_last.
    + destruct (DRY_RUN cfg).
      * do 3 (apply marks_bind; intros _). apply marks_log_line_last.
      * apply marks_bind. intros [].
        -- apply marks_bind. intros code. destruct (_ || _).
           ++ do 3 (apply marks_bind; intros _). apply marks_log_line_last.
           ++ apply marks_bind. intros _. apply marks_log_line.
              intros _. apply steps_continue_or_abort.
        -- apply marks_bind. intros _. apply marks_log_line_last.
  - apply marks_bind. intros _. apply marks_log_line.
    intros _. apply steps_continue_or_abort.
Qed.

Lemma marks_try_line w cfg term desired_year :
  marks idx (try_line w cfg idx term desired_year).
Proof.
  unfold try_line. apply marks_bind. intros [|first rest].
  - apply marks_bind. intros _. apply marks_log_line.
    intros _. apply steps_continue_or_abort.
  - apply marks_bind. intros [m| |].
    + apply marks_handle_selected.
    + apply marks_bind. intros _. apply marks_log_line.
      intros _. apply steps_continue_or_abort.
    + apply marks_fatal.
Qed.

Lemma marks_try_except {A} (c h : M A) :
  marks idx c -> marks idx h -> marks idx (try_except c h).
Proof.
  intros Hc Hh st a. unfold try_except.
  specialize (Hc st).
  destruct (c st) as [[a'| |] st1] eqn:E; simpl in *.
  - intros _. apply (Hc a'). reflexivity.
  - apply Hh.
  - discriminate.
Qed.

End LineSteps.

(** ** The loop *)

Lemma logged_ids_indexed_silent e st st' :
  trace st' = e :: trace st -> plain e ->
  existing_tmdb st' = existing_tmdb st ->
  logged_ids_indexed st -> logged_ids_indexed st'.
Proof.
  intros Ht Hp He Hl line_no id. rewrite Ht, He.
  intros [[H|H]|[H|H]].
  - subst e. destruct Hp.
  - apply (Hl line_no id). left. exact H.
  - subst e. destruct Hp.
  - apply (Hl line_no id). right. exact H.
Qed.

(** One iteration: either the index is out of range and nothing happens,
    or [next_index = idx + 1] is written first and then either the cap
    stops the loop or the line is processed. *)
Lemma loop_body_spec w cfg movies idx st :
  let res := loop_body w cfg movies idx st in
  let ok := on_write w (writes st) in
  (fst res = Raise /\ snd res = st) \/
  exists newer,
    trace (snd res) = newer ++ Saved (idx + 1) ok :: trace st
    /\ state_file (snd res) = (after_write ok (idx + 1) (state_file st))
    /\ existing_tmdb st ⊆ existing_tmdb (snd res)
    /\ (0 ∉ existing_tmdb st -> 0 ∉ existing_tmdb (snd res))
    /\ (logged_ids_indexed st -> logged_ids_indexed (snd res))
    /\ ((newer = [LogStop] /\ fst res = Ret Break) \/
        (Forall (about idx) newer /\ fst res <> Ret Break /\
         (fst res = Ret Next -> handled idx (trace (snd res))))).
Proof.
  intros res ok. subst res. unfold loop_body.
  destruct (py_index movies idx) as [term|]; [right|left; split; reflexivity].
  set (st1 := set_stats (inc_processed (stats st))
                (emit (Saved (idx + 1) ok)
                   (set_file (after_write ok (idx + 1) (state_file st))
                      (S (writes st)) st))).
  set (line := try_except (try_line w cfg idx term (snd (parse_title_year term)))
                          (on_exception cfg idx)).
  assert (Hl1 : logged_ids_indexed st -> logged_ids_indexed st1).
  { apply (logged_ids_indexed_silent (Saved (idx + 1) ok)); [reflexivity|exact I|reflexivity]. }
  change ((save_state w (idx + 1) ;;; bump inc_processed ;;;
           stop <- gets (cap_reached cfg) ;;
           if (stop : bool) then log LogStop ;;; ret Break else line ;;; ret Next) st)
    with ((if cap_reached cfg st1 then log LogStop ;;; ret Break
           else line ;;; ret Next) st1).
  destruct (cap_reached cfg st1).
  - change ((log LogStop ;;; ret Break) st1) with (Ret Break, emit LogStop st1).
    exists [LogStop]. simpl. repeat split; auto.
    intros H. apply (logged_ids_indexed_silent LogStop st1); auto. exact I.
  - assert (Hs : steps idx line)
      by (apply steps_try_except; [apply steps_try_line|apply steps_on_exception]).
    assert (Hm : marks idx line)
      by (apply marks_try_except; [apply marks_try_line|apply marks_on_exception]).
    specialize (Hs st1). specialize (Hm st1).
    destruct Hs as [(newer & Ht & Hab) Hf Hw He Hz Hlg].
    exists newer. unfold bind, ret.
    destruct (line st1) as [[[]| |] st2]; simpl in *;
      (split; [rewrite Ht; reflexivity|]); (split; [rewrite Hf; reflexivity|]);
      (split; [exact He|]); (split; [exact Hz|]); (split; [auto|]);
      right; (split; [exact Hab|]); (split; [discriminate|]).
    + intros _. apply (Hm tt). reflexivity.
    + discriminate.
    + discriminate.
Qed.

Lemma about_no_save idx e : about idx e -> no_save e.
Proof. destruct e; simpl; auto. Qed.

Lemma about_line idx e j : about idx e -> event_line e = Some j -> j = idx.
Proof.
  destruct e; simpl; try discriminate; intros H [= <-]; lia.
Qed.

Lemma about_not_stop idx e : about idx e -> e <> LogStop.
Proof. intros H ->. exact H. Qed.

Lemma split_at_save newer : forall later n ok earlier m okm tr,
  Forall no_save newer ->
  later ++ Saved n ok :: earlier = newer ++ Saved m okm :: tr ->
  (later = newer /\ n = m /\ ok = okm /\ earlier = tr) \/
  (exists later', tr = later' ++ Saved n ok :: earlier).
Proof.
  induction newer as [|e newer IH]; intros later n ok earlier m okm tr Hns Heq.
  - destruct later as [|x later]; simpl in Heq.
    + injection Heq as -> -> ->. left. auto.
    + injection Heq as -> Heq. right. exists later. symmetry. exact Heq.
  - apply Forall_cons in Hns as [He Hns].
    destruct later as [|x later]; simpl in Heq.
    + injection Heq as <- _. destruct He.
    + injection Heq as -> Heq.
      destruct (IH _ _ _ _ _ _ _ Hns Heq) as [(-> & -> & -> & ->)|Hin]; auto.
Qed.

Lemma persisted_skip disk newer tr :
  Forall no_save newer -> persisted disk (newer ++ tr) = persisted disk tr.
Proof.
  induction 1 as [|e newer He _ IH]; simpl; [reflexivity|].
  destruct e; try exact IH. destruct He.
Qed.

Lemma handled_later j newer tr : handled j tr -> handled j (newer ++ tr).
Proof. intros (t & H). exists t. apply in_or_app. right. exact H. Qed.

Lemma run_inv_weaken start disk i b st :
  run_inv start disk i st -> b <= i -> run_inv start disk b st.
Proof.
  intros [? ? Hh ? ? ? ?] Hle. constructor; auto.
  intros Hns j Hj. apply Hh; [exact Hns|lia].
Qed.

Lemma split_event (newer : list event) : forall later e earlier x tr,
  later ++ e :: earlier = newer ++ x :: tr ->
  (exists mid, newer = later ++ e :: mid /\ earlier = mid ++ x :: tr)
  \/ (later = newer /\ e = x /\ earlier = tr)
  \/ (exists later', tr = later' ++ e :: earlier).
Proof.
  induction newer as [|y newer IH]; intros later e earlier x tr Heq.
  - destruct later as [|z later]; simpl in Heq.
    + injection Heq as -> ->. right. left. auto.
    + injection Heq as -> Heq. right. right. exists later. symmetry. exact Heq.
  - destruct later as [|z later]; simpl in Heq.
    + injection Heq as -> ->. left. exists newer. auto.
    + injection Heq as -> Heq.
      destruct (IH _ _ _ _ _ Heq) as [(mid & -> & ->)|[(-> & -> & ->)|Hold]]; auto.
      left. exists mid. auto.
Qed.

(** The invariant across a write of [next_index = n] followed by events
    of line [n - 1] that are no writes. *)
Lemma run_inv_after_save start disk i b n ok newer st st' :
  run_inv start disk i st ->
  trace st' = newer ++ Saved n ok :: trace st ->
  Forall no_save newer ->
  (forall e j, In e newer -> event_line e = Some j -> j = n - 1 /\ start <= j) ->
  n - 1 <= i ->
  state_file st' = after_write ok n (state_file st) ->
  0 ∉ existing_tmdb st' ->
  logged_ids_indexed st' ->
  (~ In LogStop (trace st') -> forall j, start <= j < b -> handled j (trace st')) ->
  run_inv start disk b st'.
Proof.
  intros [Hsv Hd Hh Hf Hl _ _] Ht Hns Hnl Hn Hf' Hz' Hlg' Hh'.
  constructor; auto.
  - intros later n' ok' earlier Hsplit Hstop j Hj. rewrite Ht in Hsplit.
    symmetry in Hsplit.
    destruct (split_at_save _ _ _ _ _ _ _ _ Hns Hsplit)
      as [(_ & -> & -> & ->)|(later' & Hold)].
    + apply Hh; [exact Hstop|lia].
    + apply (Hsv _ _ _ _ Hold Hstop). exact Hj.
  - intros later e earlier j Hsplit He. rewrite Ht in Hsplit.
    symmetry in Hsplit.
    destruct (split_event _ _ _ _ _ _ Hsplit)
      as [(mid & Hnew & Hmid)|[(_ & Hsave & _)|(later' & Hold)]].
    + exists ok. rewrite Hmid. apply in_or_app. right. left. f_equal.
      destruct (Hnl e j); [|exact He|lia].
      rewrite Hnew. apply in_or_app. right. left. reflexivity.
    + rewrite Hsave in He. discriminate.
    + apply (Hd _ _ _ _ Hold He).
  - rewrite Ht, persisted_skip by exact Hns. rewrite Hf', Hf. reflexivity.
  - intros e j Hin He. rewrite Ht in Hin.
    apply in_app_or in Hin as [Hin|[<-|Hin]]; eauto; [|discriminate].
    apply (Hnl e j Hin He).
Qed.

Section Loop.
Variables (w : world) (cfg : config) (movies : list string).
Variables (start : Z) (disk : file_state).

Lemma run_inv_step i st :
  run_inv start disk i st -> start <= i ->
  let res := loop_body w cfg movies i st in
  match fst res with
  | Ret Next => run_inv start disk (i + 1) (snd res)
  | Ret Break => forall b, run_inv start disk b (snd res)
  | _ => run_inv start disk start (snd res)
  end.
Proof.
  intros Hinv Hi. cbv zeta.
  pose proof (loop_body_spec w cfg movies i st) as Hspec. cbv zeta in Hspec.
  destruct (loop_body w cfg movies i st) as [r st1]. cbn [fst snd] in *.
  destruct Hspec as [[Hr Hst]|(newer & Ht & Hf & He & Hz & Hlg & Hcase)].
  - rewrite Hr, Hst. eapply run_inv_weaken; [exact Hinv|exact Hi].
  - pose proof (inv_zero _ _ _ _ Hinv) as Hz0.
    pose proof (inv_logged _ _ _ _ Hinv) as Hlg0.
    destruct Hcase as [[-> Hb]|(Hab & Hnb & Hm)].
    + rewrite Hb. intros b.
      eapply run_inv_after_save; eauto; try lia.
      * repeat constructor.
      * intros e j [<-|[]]. discriminate.
      * intros Hns. exfalso. apply Hns. rewrite Ht. left. reflexivity.
    + assert (Hns : Forall no_save newer)
        by (eapply Forall_impl; [exact Hab|apply about_no_save]).
      assert (Hnl : forall e j, In e newer -> event_line e = Some j ->
                               j = i + 1 - 1 /\ start <= j).
      { intros e j Hin Hline. rewrite Forall_forall in Hab.
        rewrite (about_line i e j); auto; [lia|]. apply Hab. apply list_elem_of_In, Hin. }
      destruct r as [[]| |].
      * eapply run_inv_after_save; eauto; try lia.
        intros Hstop j Hj. destruct (Z.eq_dec j i) as [->|Hne]; [auto|].
        rewrite Ht. apply handled_later. apply handled_later with (newer := [_]).
        apply (inv_handled _ _ _ _ Hinv); [|lia].
        intros Hin. apply Hstop. rewrite Ht. apply in_or_app. right. right. exact Hin.
      * congruence.
      * eapply run_inv_after_save; eauto; lia.
      * eapply run_inv_after_save; eauto; lia.
Qed.

Lemma py_range_step i n : i < n -> py_range i n = i :: py_range (i + 1) n.
Proof.
  intros Hlt. unfold py_range.
  replace (Z.to_nat (n - i)) with (S (Z.to_nat (n - (i + 1)))) by lia.
  simpl. f_equal; [lia|].
  rewrite <- seq_shift, map_map. apply map_ext. intros k. lia.
Qed.

Lemma py_range_empty i n : n <= i -> py_range i n = [].
Proof. intros Hle. unfold py_range. replace (Z.to_nat (n - i)) with O by lia. reflexivity. Qed.

Lemma for_each_inv n : forall k i st,
  Z.to_nat (n - i) = k ->
  run_inv start disk i st -> start <= i ->
  let res := for_each (py_range i n) (loop_body w cfg movies) st in
  match fst res with
  | Ret _ => run_inv start disk n (snd res)
  | _ => run_inv start disk start (snd res)
  end.
Proof.
  induction k as [|k IH]; intros i st Hk Hinv Hi res; subst res.
  - rewrite py_range_empty by lia. simpl.
    eapply run_inv_weaken; [exact Hinv|lia].
  - rewrite py_range_step by lia. cbn [for_each].
    pose proof (run_inv_step i st Hinv Hi) as Hstep. cbv zeta in Hstep.
    destruct (loop_body w cfg movies i st) as [[[]| |] st1]; simpl in Hstep |- *.
    + apply IH; [lia|exact Hstep|lia].
    + apply Hstep.
    + exact Hstep.
    + exact Hstep.
Qed.

Lemma import_from_inv st :
  run_inv start disk start st ->
  let res := import_from w cfg movies start st in
  exists b, run_inv start disk b (snd res)
            /\ (fst res = Ret tt -> b = Z.of_nat (length movies)).
Proof.
  intros Hinv res. subst res. unfold import_from, bind.
  pose proof (for_each_inv (Z.of_nat (length movies)) _ start st eq_refl Hinv
                (Z.le_refl _)) as Hloop. cbv zeta in Hloop.
  destruct (for_each _ _ st) as [[[]| |] st1]; simpl in Hloop |- *.
  - exists (Z.of_nat (length movies)). split; [|reflexivity].
    eapply run_inv_after_save with (newer := []) (i := Z.of_nat (length movies));
      try exact Hloop; try reflexivity; try lia.
    + constructor.
    + intros e j [].
    + apply (inv_zero _ _ _ _ Hloop).
    + apply (logged_ids_indexed_silent (Saved (Z.of_nat (length movies))
               (on_write w (writes st1))) st1); try reflexivity.
      apply (inv_logged _ _ _ _ Hloop).
    + intros Hstop j Hj. apply handled_later with (newer := [_]).
      apply (inv_handled _ _ _ _ Hloop); [|exact Hj].
      intros Hin. apply Hstop. right. exact Hin.
  - exists start. split; [exact Hloop|discriminate].
  - exists start. split; [exact Hloop|discriminate].
Qed.

(** *** The writes of the state file, in order *)

Lemma attempts_app newer tr : attempts (newer ++ tr) = attempts tr ++ attempts newer.
Proof. unfold attempts. rewrite rev_app_distr. apply omap_app. Qed.

Lemma attempts_no_save newer : Forall no_save newer -> attempts newer = [].
Proof.
  induction 1 as [|e newer He _ IH]; [reflexivity|].
  change (e :: newer) with ([e] ++ newer). rewrite attempts_app, IH.
  destruct e; try reflexivity. destruct He.
Qed.

Lemma attempts_after_save newer n reply tr :
  Forall no_save newer ->
  attempts (newer ++ Saved n reply :: tr) = attempts tr ++ [n].
Proof.
  intros Hns. rewrite attempts_app, (attempts_no_save _ Hns), app_nil_r.
  change (Saved n reply :: tr) with ([Saved n reply] ++ tr).
  rewrite attempts_app. reflexivity.
Qed.

Lemma loop_body_attempts i st :
  let res := loop_body w cfg movies i st in
  (fst res = Raise /\ snd res = st)
  \/ attempts (trace (snd res)) = attempts (trace st) ++ [i + 1].
Proof.
  cbv zeta.
  pose proof (loop_body_spec w cfg movies i st) as Hspec. cbv zeta in Hspec.
  destruct Hspec as [Hraise|(newer & Ht & _ & _ & _ & _ & Hcase)]; [left; exact Hraise|].
  right. rewrite Ht. apply attempts_after_save.
  destruct Hcase as [[-> _]|(Hab & _)]; [repeat constructor|].
  eapply Forall_impl; [exact Hab|apply about_no_save].
Qed.

Lemma for_each_attempts n : forall k i st,
  Z.to_nat (n - i) = k ->
  let res := for_each (py_range i n) (loop_body w cfg movies) st in
  exists j, i <= j
    /\ attempts (trace (snd res)) = attempts (trace st) ++ py_range (i + 1) (j + 1).
Proof.
  induction k as [|k IH]; intros i st Hk res; subst res.
  - rewrite py_range_empty by lia. exists i. split; [lia|].
    rewrite py_range_empty by lia. rewrite app_nil_r. reflexivity.
  - rewrite py_range_step by lia. cbn [for_each].
    pose proof (loop_body_attempts i st) as Hstep. cbv zeta in Hstep.
    destruct (loop_body w cfg movies i st) as [r st1]. cbn [fst snd] in Hstep.
    destruct Hstep as [[-> ->]|Hstep].
    + exists i. split; [lia|]. cbn [snd].
      rewrite py_range_empty by lia. rewrite app_nil_r. reflexivity.
    + assert (Hone : attempts (trace st1)
                     = attempts (trace st) ++ py_range (i + 1) (i + 1 + 1)).
      { rewrite Hstep, py_range_step by lia. rewrite py_range_empty by lia. reflexivity. }
      destruct r as [[]| |]; cbn [snd];
        try (exists (i + 1); split; [lia|exact Hone]).
      destruct (IH (i + 1) st1 ltac:(lia)) as (j & Hj & Hrest).
      exists j. split; [lia|]. rewrite Hrest, Hstep, <- app_assoc. f_equal.
      symmetry. apply py_range_step. lia.
Qed.

End Loop.

(** ** Resume *)

Lemma handled_is_outcome j tr : handled j tr <-> existsb (is_outcome j) tr = true.
Proof.
  rewrite existsb_exists. unfold handled. split.
  - intros (t & Hin). exists (LogLine (j + 1) t). split; [exact Hin|apply Z.eqb_refl].
  - intros (e & Hin & He). destruct e; try discriminate.
    apply Z.eqb_eq in He. subst. eauto.
Qed.

Lemma unhandled_is_outcome j tr : existsb (is_outcome j) tr = false -> ~ handled j tr.
Proof. intros H Hh. apply handled_is_outcome in Hh. congruence. Qed.

Lemma seeded_ids library id :
  id ∈ get_existing_tmdb_ids library <->
  id <> 0 /\ exists m, In m library /\ tmdbId m = Some id.
Proof.
  unfold get_existing_tmdb_ids. rewrite elem_of_list_to_set, list_elem_of_omap.
  split.
  - intros (m & Hin & Hid). split; [eapply truthy_id_nonzero; eauto|].
    exists m. split; [apply list_elem_of_In, Hin|].
    unfold truthy_id in Hid. destruct (tmdbId m) as [i|]; [|discriminate].
    destruct (i =? 0); [discriminate|]. exact Hid.
  - intros (Hnz & m & Hin & Hid). exists m. split; [apply list_elem_of_In, Hin|].
    unfold truthy_id. rewrite Hid. destruct (Z.eqb_spec id 0); congruence.
Qed.

Lemma seed_without_zero library : 0 ∉ get_existing_tmdb_ids library.
Proof. intros H. apply seeded_ids in H as [H _]. congruence. Qed.

Lemma run_inv_initial start disk st :
  Forall (fun e => e = LogFatal) (trace st) ->
  state_file st = disk -> 0 ∉ existing_tmdb st ->
  run_inv start disk start st.
Proof.
  intros Ht Hf Hz. rewrite Forall_forall in Ht.
  assert (Hall : forall e, In e (trace st) -> e = LogFatal)
    by (intros e He; apply Ht, list_elem_of_In, He).
  constructor; auto.
  - intros later n ok earlier Hsplit.
    assert (Hs : Saved n ok = LogFatal); [|discriminate].
    apply Hall. rewrite Hsplit. apply in_or_app. right. left. reflexivity.
  - intros later e earlier j Hsplit He.
    rewrite (Hall e) in He; [discriminate|].
    rewrite Hsplit. apply in_or_app. right. left. reflexivity.
  - intros _ j Hj. lia.
  - rewrite Hf. induction (trace st) as [|e tr IH]; [reflexivity|].
    rewrite (Hall e) by (left; reflexivity). simpl. apply IH.
    + intros x Hx. apply Ht. apply list_elem_of_In. right. apply list_elem_of_In, Hx.
    + intros x Hx. apply Hall. right. exact Hx.
  - intros e j Hin He. rewrite (Hall e Hin) in He. discriminate.
  - intros line_no id [H|H]; apply Hall in H; discriminate.
Qed.

Lemma main_unfold w cfg movies disk console start :
  fst (start_index (initial_state disk console)) = Ret start ->
  main w cfg movies (initial_state disk console)
  = match on_library w with
    | None => (Exit, emit LogFatal (initial_state disk console))
    | Some library =>
        import_from w cfg movies start
          (set_existing (get_existing_tmdb_ids library) (initial_state disk console))
    end.
Proof.
  unfold main, start_index, bind, modify. simpl.
  destruct (py_int _) as [n|]; simpl; [|discriminate].
  intros [= ->]. destruct (on_library w); reflexivity.
Qed.

Lemma main_inv w cfg movies disk console start :
  fst (start_index (initial_state disk console)) = Ret start ->
  let res := main w cfg movies (initial_state disk console) in
  exists b, run_inv start disk b (snd res)
            /\ (fst res = Ret tt -> b = Z.of_nat (length movies)).
Proof.
  intros Hs. cbv zeta. rewrite (main_unfold _ _ _ _ _ _ Hs).
  destruct (on_library w) as [library|].
  - apply import_from_inv. apply run_inv_initial; try reflexivity.
    + constructor.
    + apply seed_without_zero.
  - exists start. split; [|discriminate]. apply run_inv_initial; try reflexivity.
    + repeat constructor.
    + simpl. apply not_elem_of_empty.
Qed.

Lemma main_attempts w cfg movies disk console start :
  fst (start_index (initial_state disk console)) = Ret start ->
  let res := main w cfg movies (initial_state disk console) in
  exists k, start <= k
    /\ attempts (trace (snd res))
       = py_range (start + 1) (k + 1)
         ++ match fst res with
            | Ret _ => [Z.of_nat (length movies)]
            | _ => []
            end.
Proof.
  intros Hs. cbv zeta. rewrite (main_unfold _ _ _ _ _ _ Hs).
  destruct (on_library w) as [library|].
  - unfold import_from, bind.
    destruct (for_each_attempts w cfg movies (Z.of_nat (length movies)) _ start
                (set_existing (get_existing_tmdb_ids library)
                   (initial_state disk console)) eq_refl) as (k & Hk & Hloop).
    exists k. split; [exact Hk|].
    destruct (for_each _ _ _) as [[[]| |] st1]; cbn [fst snd] in *.
    + change (trace (snd (save_state w (Z.of_nat (length movies)) st1)))
        with ([] ++ Saved (Z.of_nat (length movies)) (on_write w (writes st1))
                    :: trace st1).
      rewrite attempts_after_save by constructor. rewrite Hloop. reflexivity.
    + rewrite Hloop, app_nil_r. reflexivity.
    + rewrite Hloop, app_nil_r. reflexivity.
  - exists start. split; [lia|]. rewrite py_range_empty by lia. reflexivity.
Qed.

Lemma main_without_start w cfg movies disk console :
  fst (start_index (initial_state disk console)) = Raise ->
  main w cfg movies (initial_state disk console)
  = (Raise, set_stats zero_stats (set_hits [] (initial_state disk console))).
Proof.
  unfold main, start_index, bind, modify. simpl.
  destruct (py_int _) as [n|]; simpl; [discriminate|reflexivity].
Qed.

(** C2, as stated. The service rejects the key at the first lookup: the
    run is cut short in the middle of line 0, whose outcome is never
    logged, yet the state file already says [next_index = 1]; the next run
    starts at line 1 and line 0 is never touched again. *)
Lemma dispatched_line_left_unhandled :
  let two_lines := ["A"; "B"]%string in
  let cut := main rejecting_world default_config two_lines (initial_state Missing []) in
  let again := main obliging_world auto_config two_lines
                 (initial_state (state_file (snd cut)) []) in
  fst cut = Exit
  /\ rev (trace (snd cut)) = [Saved 1 Written; HttpLookup 0 "A"; LogFatal]
  /\ state_file (snd cut) = saved_index 1
  /\ ~ handled 0 (trace (snd cut))
  /\ fst again = Ret tt
  /\ ~ touched 0 (trace (snd again)).
Proof.
  cbv zeta. repeat split; try (vm_compute; reflexivity).
  - apply unhandled_is_outcome. vm_compute. reflexivity.
  - apply untouched_on_line. vm_compute. reflexivity.
Qed.

(** A write cut short loses the progress made: the write of
    [next_index = 1] succeeds and line 0 is added, the write of
    [next_index = 2] fails once the file is open and leaves no JSON text,
    and the run is then ended by a 401.  The next run starts at line 0
    again, below the value of the last write that succeeded. *)
Example cut_write_forgets_progress :
  let two_lines := ["A"; "B"]%string in
  let cut := main filling_world auto_config two_lines (initial_state Missing []) in
  let again := main obliging_world auto_config two_lines
                 (initial_state (state_file (snd cut)) []) in
  fst cut = Exit
  /\ rev (trace (snd cut))
     = [Saved 1 Written; HttpLookup 0 "A"; HttpAdd 0 (film 100 "A" 1999);
        LogLine 1 (ADD 100); Saved 2 CutShort; HttpLookup 1 "B"; LogFatal]
  /\ state_file (snd cut) = NotJson
  /\ fst (start_index (initial_state (state_file (snd cut)) [])) = Ret 0
  /\ touched 0 (trace (snd again)).
Proof.
  cbv zeta. repeat split; try (vm_compute; reflexivity).
  apply touched_on_line. vm_compute. reflexivity.
Qed.

(** C2, amended. In every run that starts at line [start]:
    - each write of [next_index = n] that no cap stop precedes comes after
      the logged outcome of every line from [start] up to, but not
      including, [n - 1];
    - line [i] is dispatched by the write of [next_index = i + 1]: every
      request and log line of line [i] comes after it, and the writes
      attempted are those of [start + 1], [start + 2], ... in this order,
      followed by that of the number of lines when the run returns;
    - a run that returns without a cap stop has logged the outcome of
      every line from [start] on;
    - the state file holds what the writes left one after the other: the
      value written, the file as it was when the file could not be opened,
      no JSON text when the write was cut short;
    - no line below [start] is touched, a run on a file left by a
      successful [save_state(n)] starts at [n], and a run on a file without
      JSON text starts at 0. *)
Theorem next_index_follows_outcomes :
  forall w cfg movies disk console start,
    fst (start_index (initial_state disk console)) = Ret start ->
    let res := main w cfg movies (initial_state disk console) in
    let final := snd res in
    let total := Z.of_nat (length movies) in
    saves_follow_outcomes start (trace final)
    /\ dispatch_first (trace final)
    /\ (exists k, start <= k
          /\ attempts (trace final)
             = py_range (start + 1) (k + 1)
               ++ match fst res with Ret _ => [total] | _ => [] end)
    /\ (fst res = Ret tt -> ~ In LogStop (trace final) ->
          forall j, start <= j < total -> handled j (trace final))
    /\ state_file final = persisted disk (trace final)
    /\ (forall j, touched j (trace final) -> start <= j)
    /\ (forall n, disk = saved_index n -> start = n)
    /\ (disk = NotJson -> start = 0).
Proof.
  intros w cfg movies disk console start Hs res final total.
  destruct (main_inv w cfg movies disk console start Hs) as (b & Hinv & Hb).
  fold res in Hinv, Hb. fold final in Hinv.
  destruct Hinv as [Hsv Hd Hh Hf Hl _ _].
  split; [exact Hsv|]. split; [exact Hd|].
  split; [apply main_attempts, Hs|].
  split; [intros Hret; rewrite (Hb Hret) in Hh; exact Hh|].
  split; [exact Hf|].
  split; [intros j (e & Hin & He); eauto|].
  split; [intros n ->; simpl in Hs; congruence|].
  intros ->. simpl in Hs. congruence.
Qed.

Lemma next_index_follows_outcomes_witness :
  let res := main obliging_world capped_config four_lines (initial_state Missing []) in
  let final := snd res in
  let total := Z.of_nat (length four_lines) in
  saves_follow_outcomes 0 (trace final)
  /\ dispatch_first (trace final)
  /\ (exists k, 0 <= k
        /\ attempts (trace final)
           = py_range (0 + 1) (k + 1)
             ++ match fst res with Ret _ => [total] | _ => [] end)
  /\ (fst res = Ret tt -> ~ In LogStop (trace final) ->
        forall j, 0 <= j < total -> handled j (trace final))
  /\ state_file final = persisted Missing (trace final)
  /\ (forall j, touched j (trace final) -> 0 <= j)
  /\ (forall n, Missing = saved_index n -> 0 = n)
  /\ (Missing = NotJson -> 0 = 0).
Proof.
  apply (next_index_follows_outcomes obliging_world capped_config four_lines
           Missing [] 0).
  reflexivity.
Defined.

(** ** The duplicate index *)




Lemma main_logged_ids_indexed w cfg movies disk console :
  logged_ids_indexed (snd (main w cfg movies (initial_state disk console))).
Proof.
  destruct (fst (start_index (initial_state disk console))) as [start| |] eqn:Hs.
  - destruct (main_inv w cfg movies disk console start Hs) as (b & Hinv & _).
    apply (inv_logged _ _ _ _ Hinv).
  - rewrite main_without_start by exact Hs. intros line_no id [[]|[]].
  - unfold start_index in Hs. destruct (py_int _); discriminate.
Qed.

(** The input file with the same title twice: the comment and the blank
    line are dropped, the first line is added, the second one is found in
    the duplicate index and not added again. *)
Example same_title_twice :
  let run := main alien_world auto_config (read_movies alien_file)
               (initial_state Missing []) in
  read_movies alien_file = ["Alien (1979)"; "Alien (1979)"]%string
  /\ rev (trace (snd run))
     = [Saved 1 Written; HttpLookup 0 "Alien (1979)";
        HttpAdd 0 (film 348 "Alien" 1979); LogLine 1 (ADD 348);
        Saved 2 Written; HttpLookup 1 "Alien (1979)"; LogLine 2 (DUP 348);
        Saved 2 Written]
  /\ stats (snd run) = Stats 2 1 1 0 0 0 1.
Proof. cbv zeta. repeat split; vm_compute; reflexivity. Qed.

(** *** The engine leaves the books alone *)

Lemma resolving_refl st : resolving st st.
Proof. constructor; try reflexivity. exists []. split; [reflexivity|constructor]. Qed.

Lemma resolving_trans a b c : resolving a b -> resolving b c -> resolving a c.
Proof.
  intros [? ? ? ? ? ? (n1 & T1 & F1)] [? ? ? ? ? ? (n2 & T2 & F2)].
  constructor; try congruence.
  exists (n2 ++ n1). split.
  - rewrite T2, T1. apply app_assoc.
  - apply Forall_app. split; assumption.
Qed.

Lemma resolving_note e st : is_note e -> resolving st (emit e st).
Proof.
  intros He. constructor; try reflexivity. exists [e]. split; [reflexivity|].
  constructor; [exact He|constructor].
Qed.

Lemma resolving_bind {A B} (c : M A) (k : A -> M B) :
  follows resolving c -> (forall a, follows resolving (k a)) ->
  follows resolving (bind c k).
Proof. apply follows_bind; [apply resolving_refl|apply resolving_trans]. Qed.

Ltac same_books :=
  constructor; try reflexivity; exists []; split; [reflexivity|constructor].

Lemma resolving_prompt_continue cfg : follows resolving (prompt_continue cfg).
Proof.
  intros st. unfold prompt_continue.
  destruct (negb (INTERACTIVE_ON_ISSUES cfg) || always_continue st);
    [apply resolving_refl|].
  destruct (read_continue (stdin st)) as [[[]|] rest]; same_books.
Qed.

Lemma resolving_disambiguate term filtered :
  follows resolving (disambiguate term filtered).
Proof.
  apply resolving_bind; [intros st; apply resolving_note; exact I|].
  intros _ st.
  destruct (read_choice _ (stdin st)) as [[[]|] rest] eqn:E; rewrite ?E; simpl;
    repeat match goal with
           | |- context [match ?x with _ => _ end] => destruct x
           end;
    same_books.
Qed.

Lemma resolving_choose_from cfg term filtered desired_year :
  follows resolving (choose_from cfg term filtered desired_year).
Proof.
  intros st. unfold choose_from.
  destruct filtered as [|first rest]; [apply resolving_refl|].
  destruct (shortcut_applies _ _ _).
  - destruct (exact_title _ _); apply resolving_refl.
  - unfold choose_otherwise.
    destruct (_ && _); [apply resolving_disambiguate|apply resolving_refl].
Qed.

Lemma resolving_choose_from_results cfg term results desired_year :
  follows resolving (choose_from_results cfg term results desired_year).
Proof.
  unfold choose_from_results.
  destruct desired_year as [y|]; [|apply resolving_choose_from].
  destruct (STRICT_YEAR_MATCH cfg); [|apply resolving_choose_from].
  destruct (year_matches y results); [|apply resolving_choose_from].
  apply resolving_bind; [intros st; apply resolving_note; exact I|]. intros _.
  apply resolving_bind; [apply resolving_prompt_continue|].
  intros []; [apply resolving_choose_from|intros st; apply resolving_refl].
Qed.


(** *** A line that resolves to an id of the index *)


(** *** The index along the loop *)








(** ** Candidates without an id *)

Lemma continue_or_abort_effect cfg st :
  let res := continue_or_abort cfg st in
  stats (snd res) = stats st
  /\ existing_tmdb (snd res) = existing_tmdb st
  /\ dryrun_hits (snd res) = dryrun_hits st
  /\ (trace (snd res) = trace st \/ trace (snd res) = LogFatal :: trace st).
Proof.
  unfold continue_or_abort, bind, prompt_continue.
  destruct (negb (INTERACTIVE_ON_ISSUES cfg) || always_continue st); simpl; [auto|].
  destruct (read_continue (stdin st)) as [[[]|] rest]; simpl; auto.
Qed.

(** C10. A resolved candidate whose id is missing or 0 is counted as an
    error (the error counter goes up by one, no other counter moves) and
    logged as such, after which only the issue prompt runs: no add request
    is sent, nothing is recorded as would-add and the duplicate index is
    unchanged.  Library entries enter the duplicate index exactly when
    their id is present and not 0. *)
Theorem falsy_id_is_an_error :
  (forall w cfg idx m st,
      tmdbId m = None \/ tmdbId m = Some 0 ->
      let res := handle_selected w cfg idx m st in
      res = continue_or_abort cfg
              (emit (LogLine (idx + 1) ERR) (set_stats (inc_errors (stats st)) st))
      /\ counts_up (Stats 0 0 0 0 1 0 0) (stats st) (stats (snd res))
      /\ (trace (snd res) = LogLine (idx + 1) ERR :: trace st
          \/ trace (snd res) = LogFatal :: LogLine (idx + 1) ERR :: trace st)
      /\ existing_tmdb (snd res) = existing_tmdb st
      /\ dryrun_hits (snd res) = dryrun_hits st
      /\ (forall i x, In (HttpAdd i x) (trace (snd res)) -> In (HttpAdd i x) (trace st)))
  /\ (forall library id,
        id ∈ get_existing_tmdb_ids library <->
        id <> 0 /\ exists m, In m library /\ tmdbId m = Some id).
Proof.
  split; [|exact seeded_ids].
  intros w cfg idx m st Hid res.
  assert (Hres : res = continue_or_abort cfg
                   (emit (LogLine (idx + 1) ERR) (set_stats (inc_errors (stats st)) st))).
  { subst res. unfold handle_selected, truthy_id.
    destruct Hid as [-> | ->]; reflexivity. }
  split; [exact Hres|]. rewrite Hres.
  destruct (continue_or_abort_effect cfg
              (emit (LogLine (idx + 1) ERR) (set_stats (inc_errors (stats st)) st)))
    as (Hs & He & Hh & Ht).
  split; [|split; [exact Ht|split; [exact He|split; [exact Hh|]]]].
  - rewrite Hs. unfold counts_up. cbn. repeat split; lia.
  - intros i x Hin. destruct Ht as [Ht|Ht]; rewrite Ht in Hin; simpl in Hin.
    + destruct Hin as [H|H]; [discriminate|exact H].
    + destruct Hin as [H|[H|H]]; [discriminate|discriminate|exact H].
Qed.

Lemma falsy_id_is_an_error_witness :
  let st := initial_state Missing ["y"%string] in
  let res := handle_selected obliging_world default_config 0
               (Movie (Some 0) (Some "Alien"%string) (Some 1979)) st in
  res = continue_or_abort default_config
          (emit (LogLine (0 + 1) ERR) (set_stats (inc_errors (stats st)) st))
  /\ counts_up (Stats 0 0 0 0 1 0 0) (stats st) (stats (snd res))
  /\ (trace (snd res) = LogLine (0 + 1) ERR :: trace st
      \/ trace (snd res) = LogFatal :: LogLine (0 + 1) ERR :: trace st)
  /\ existing_tmdb (snd res) = existing_tmdb st
  /\ dryrun_hits (snd res) = dryrun_hits st
  /\ (forall i x, In (HttpAdd i x) (trace (snd res)) -> In (HttpAdd i x) (trace st)).
Proof.
  apply (proj1 falsy_id_is_an_error). right. reflexivity.
Defined.

(** ** The year-miss and the ambiguity prompt *)

Lemma prompt_continue_trace cfg st :
  trace (snd (prompt_continue cfg st)) = trace st.
Proof.
  unfold prompt_continue.
  destruct (negb (INTERACTIVE_ON_ISSUES cfg) || always_continue st); [reflexivity|].
  destruct (read_continue (stdin st)) as [[[]|] rest]; reflexivity.
Qed.

Lemma choose_from_trace cfg term filtered desired_year st :
  exists newer,
    trace (snd (choose_from cfg term filtered desired_year st)) = newer ++ trace st.
Proof.
  destruct (steps_choose_from 0 cfg term filtered desired_year st)
    as [(newer & Ht & _) _ _ _ _ _].
  exists newer. exact Ht.
Qed.

Lemma among_cases ans l : among ans l = true -> In ans l.
Proof.
  unfold among. rewrite existsb_exists. intros (x & Hin & Hx).
  apply String.eqb_eq in Hx. subst x. exact Hin.
Qed.

(** What the issue prompt makes of the next input line. *)
Lemma prompt_continue_answer cfg st raw pending :
  INTERACTIVE_ON_ISSUES cfg = true -> always_continue st = false ->
  stdin st = raw :: pending ->
  let ans := lower (strip raw) in
  (among ans [""; "y"; "yes"]%string = true ->
     prompt_continue cfg st = (Ret true, set_stdin pending st))
  /\ (among ans ["n"; "no"; "q"; "quit"]%string = true ->
        prompt_continue cfg st = (Ret false, set_stdin pending st))
  /\ (among ans ["a"; "always"]%string = true ->
        prompt_continue cfg st
        = (Ret true, set_always_continue true (set_stdin pending st))).
Proof.
  intros Hi Ha Hin ans. unfold prompt_continue. rewrite Hi, Ha, Hin.
  cbn [negb orb read_continue]. fold ans.
  split; [|split]; intros H.
  - rewrite H. reflexivity.
  - apply among_cases in H. destruct H as [<-|[<-|[<-|[<-|[]]]]]; reflexivity.
  - apply among_cases in H. destruct H as [<-|[<-|[]]]; reflexivity.
Qed.

Lemma prompt_continue_off cfg st :
  INTERACTIVE_ON_ISSUES cfg = false \/ always_continue st = true ->
  prompt_continue cfg st = (Ret true, st).
Proof.
  intros [H|H]; unfold prompt_continue; rewrite H; simpl;
    rewrite ?orb_true_r; reflexivity.
Qed.

(** C8. With a desired year, strict year matching and no candidate of
    that year, the year-miss is logged and put to the issue prompt.  On
    "abort" the resolution returns ABORT.  On "continue" it goes on with
    the full candidate list: no candidate gives no selection, the first
    candidate of the full list is returned when no ambiguity prompt can
    come up, and otherwise the first candidates of the full list are put
    to the operator.  The prompt takes [n], [no], [q], [quit] for abort,
    an empty line, [y], [yes] for continue and [a], [always] for
    always-continue, which returns the first candidate of the full list;
    with the prompts off or locked nothing is asked. *)
Theorem year_miss_policy :
  forall cfg term results y st,
    STRICT_YEAR_MATCH cfg = true ->
    year_matches y results = [] ->
    let noted := emit (LogYearMiss term y) st in
    let asked := prompt_continue cfg noted in
    let result := choose_from_results cfg term results (Some y) st in
    (exists newer, trace (snd result) = newer ++ LogYearMiss term y :: trace st)
    /\ (fst asked = Ret false -> result = (Ret ABORT, snd asked))
    /\ (fst asked = Ret true ->
          (results = [] -> result = (Ret NoSelection, snd asked))
          /\ (forall first rest, results = first :: rest ->
                (no_ambiguity_prompt cfg (snd asked) rest ->
                   result = (Ret (Selected first), snd asked))
                /\ (INTERACTIVE_ON_ISSUES cfg = true ->
                    always_continue (snd asked) = false -> rest <> [] ->
                    result = disambiguate term results (snd asked)
                    /\ trace (snd result)
                       = LogAmbig term (firstn MAX_CHOICES_TO_SHOW results)
                         :: LogYearMiss term y :: trace st)))
    /\ (forall raw pending,
          INTERACTIVE_ON_ISSUES cfg = true -> always_continue st = false ->
          stdin st = raw :: pending ->
          let ans := lower (strip raw) in
          (among ans ["n"; "no"; "q"; "quit"]%string = true ->
             result = (Ret ABORT, set_stdin pending noted))
          /\ (among ans [""; "y"; "yes"]%string = true ->
                asked = (Ret true, set_stdin pending noted))
          /\ (among ans ["a"; "always"]%string = true ->
                forall first rest, results = first :: rest ->
                  result = (Ret (Selected first),
                            set_always_continue true (set_stdin pending noted))))
    /\ (INTERACTIVE_ON_ISSUES cfg = false \/ always_continue st = true ->
          asked = (Ret true, noted)).
Proof.
  intros cfg term results y st Hstrict Hnone noted asked result.
  assert (Hrun : result
                 = match asked with
                   | (Ret true, st') => choose_from cfg term results (Some y) st'
                   | (Ret false, st') => (Ret ABORT, st')
                   | (Raise, st') => (Raise, st')
                   | (Exit, st') => (Exit, st')
                   end).
  { subst result. unfold choose_from_results. rewrite Hstrict, Hnone.
    unfold bind, log, modify, ret. fold noted. fold asked.
    destruct asked as [[[]| |] st']; reflexivity. }
  assert (Hasked : trace (snd asked) = LogYearMiss term y :: trace st)
    by apply prompt_continue_trace.
  assert (Hgo : fst asked = Ret true ->
                result = choose_from cfg term results (Some y) (snd asked)).
  { rewrite Hrun. destruct asked as [r st']. cbn [fst snd]. intros ->. reflexivity. }
  assert (Hno : fst asked = Ret false -> result = (Ret ABORT, snd asked)).
  { rewrite Hrun. destruct asked as [r st']. cbn [fst snd]. intros ->. reflexivity. }
  split; [|split; [exact Hno|split; [|split]]].
  - rewrite Hrun. destruct asked as [[[]| |] st']; cbn [fst snd] in *;
      try (exists []; exact Hasked).
    destruct (choose_from_trace cfg term results (Some y) st') as (newer & Ht).
    exists newer. rewrite Ht, Hasked. reflexivity.
  - intros Htrue. rewrite (Hgo Htrue). split; [intros ->; reflexivity|].
    intros first rest ->.
    rewrite (choose_from_no_shortcut _ _ _ _ _ _ (shortcut_never_with_year _ _ _)).
    split; [apply choose_otherwise_quiet|].
    intros Hi Ha Hr. rewrite (choose_otherwise_asks _ _ _ _ _ Hi Ha Hr).
    split; [reflexivity|]. rewrite disambiguate_trace, Hasked. reflexivity.
  - intros raw pending Hi Ha Hin ans.
    destruct (prompt_continue_answer cfg noted raw pending Hi Ha Hin)
      as (Hyes & Hquit & Hall). fold ans in Hyes, Hquit, Hall. fold asked in Hyes, Hquit, Hall.
    split; [|split].
    + intros H. rewrite Hno; rewrite (Hquit H); reflexivity.
    + exact Hyes.
    + intros H first rest ->. rewrite Hgo; rewrite (Hall H); [|reflexivity].
      cbn [snd].
      rewrite (choose_from_no_shortcut _ _ _ _ _ _ (shortcut_never_with_year _ _ _)).
      apply choose_otherwise_quiet. right. left. reflexivity.
  - intros H. apply (prompt_continue_off cfg noted). exact H.
Qed.

Lemma year_miss_policy_witness :
  choose_from_results default_config "Alien (1979)" [film 1 "Alien" 1980] (Some 1979)
    (initial_state Missing ["n"%string])
  = (Ret ABORT,
     set_stdin [] (emit (LogYearMiss "Alien (1979)" 1979)
                     (initial_state Missing ["n"%string])))
  /\ choose_from_results default_config "Alien (1979)"
       [film 1 "Aliens" 1986; film 2 "Alien" 1980] (Some 1979)
       (initial_state Missing ["always"%string])
     = (Ret (Selected (film 1 "Aliens" 1986)),
        set_always_continue true
          (set_stdin [] (emit (LogYearMiss "Alien (1979)" 1979)
                           (initial_state Missing ["always"%string])))).
Proof.
  split.
  - apply (proj1 (proj1 (proj2 (proj2 (proj2
             (year_miss_policy default_config "Alien (1979)" [film 1 "Alien" 1980] 1979
                (initial_state Missing ["n"%string]) eq_refl eq_refl))))
             "n"%string [] eq_refl eq_refl eq_refl)).
    reflexivity.
  - apply (proj2 (proj2 (proj1 (proj2 (proj2 (proj2
             (year_miss_policy default_config "Alien (1979)"
                [film 1 "Aliens" 1986; film 2 "Alien" 1980] 1979
                (initial_state Missing ["always"%string]) eq_refl eq_refl))))
             "always"%string [] eq_refl eq_refl eq_refl))
             eq_refl (film 1 "Aliens" 1986) [film 2 "Alien" 1980] eq_refl).
Defined.

(** *** Answers to the ambiguity prompt *)









(** *** The lock of the issue prompts *)





























(** * Further properties of the script *)

(** ** Trimming, input lines and parsed years *)

Lemma lstrip_head s :
  match lstrip s with
  | String c _ => isspace c = false
  | EmptyString => True
  end.
Proof.
  induction s as [|c r IH]; simpl; [exact I|].
  destruct (isspace c) eqn:Hc; [exact IH|exact Hc].
Qed.

Lemma rstrip_idempotent s : rstrip (rstrip s) = rstrip s.
Proof.
  induction s as [|c r IH]; simpl; [reflexivity|].
  destruct (rstrip r) as [|c' r'] eqn:Hr.
  - destruct (isspace c) eqn:Hc; simpl; [reflexivity|]. rewrite Hc. reflexivity.
  - simpl in IH |- *. rewrite IH. reflexivity.
Qed.

Lemma rstrip_keeps_head c r :
  isspace c = false -> exists r', rstrip (String c r) = String c r'.
Proof.
  intros Hc. simpl. destruct (rstrip r); [rewrite Hc|]; eauto.
Qed.

Lemma lstrip_of_strip s : lstrip (strip s) = strip s.
Proof.
  unfold strip. pose proof (lstrip_head s) as Hh.
  destruct (lstrip s) as [|c r]; [reflexivity|].
  destruct (rstrip_keeps_head c r Hh) as (r' & ->). simpl. rewrite Hh. reflexivity.
Qed.

Lemma strip_idempotent s : strip (strip s) = strip s.
Proof.
  unfold strip at 1. rewrite lstrip_of_strip. unfold strip. apply rstrip_idempotent.
Qed.

Lemma isdecimal_digit_val c : isdecimal c = true -> 0 <= digit_val c <= 9.
Proof.
  unfold isdecimal, between, digit_val. intros H.
  apply andb_prop in H as [H1 H2]. apply Nat.leb_le in H1, H2. lia.
Qed.

(** X1. Whatever the line, the title [parse_title_year] returns is
    trimmed (trimming it again changes nothing) and a year it returns
    lies between 0 and 9999. *)
Theorem parse_title_year_range :
  forall term,
    strip (fst (parse_title_year term)) = fst (parse_title_year term)
    /\ (forall y, snd (parse_title_year term) = Some y -> 0 <= y <= 9999).
Proof.
  intros term. unfold parse_title_year.
  destruct (re_search_year term) as [[i y]|] eqn:Hs; simpl.
  - split; [apply strip_idempotent|]. intros y' [= <-].
    apply re_search_year_inv in Hs
      as (a & b & c & d & ws & Ha & Hb & Hc & Hd & _ & _ & ->).
    apply isdecimal_digit_val in Ha, Hb, Hc, Hd. unfold year_value. lia.
  - split; [apply strip_idempotent|]. discriminate.
Qed.

Lemma parse_title_year_range_witness :
  snd (parse_title_year "Alien (1979)") = Some 1979 /\ 0 <= 1979 <= 9999.
Proof.
  split; [reflexivity|].
  apply (proj2 (parse_title_year_range "Alien (1979)") 1979). reflexivity.
Defined.

(** X2. Every line [main] keeps from the input file is the trimmed text
    of a line of the file, is not empty, does not start with [#], and the
    lines come in the order of the file. *)
Theorem read_movies_keeps_titles :
  forall lines,
    (forall l, In l (read_movies lines) ->
       (exists raw, In raw lines /\ l = strip raw)
       /\ l <> EmptyString /\ starts_with_hash l = false /\ strip l = l)
    /\ sublist (read_movies lines) (map strip lines).
Proof.
  intros lines. split.
  - intros l Hin. unfold read_movies in Hin.
    apply List.filter_In in Hin as [Hin Hf].
    apply in_map_iff in Hin as (raw & <- & Hraw).
    apply andb_prop in Hf as [H1 H2].
    split; [eauto|]. split.
    + intros He. rewrite He in H1. discriminate.
    + split; [destruct (starts_with_hash _); [discriminate|reflexivity]|].
      apply strip_idempotent.
  - unfold read_movies. induction (map strip lines) as [|x xs IH]; simpl.
    + constructor.
    + destruct (negb _ && negb _); [apply sublist_skip|apply sublist_cons]; exact IH.
Qed.

Lemma read_movies_keeps_titles_witness :
  (exists raw, In raw alien_file /\ "Alien (1979)"%string = strip raw)
  /\ "Alien (1979)"%string <> EmptyString
  /\ starts_with_hash "Alien (1979)" = false
  /\ strip "Alien (1979)" = "Alien (1979)"%string.
Proof.
  apply (proj1 (read_movies_keeps_titles alien_file)). left. reflexivity.
Defined.

(** ** Steps that add nothing *)

Lemma calm_refl cfg st : calm cfg st st.
Proof. constructor; auto. exists []. split; [reflexivity|constructor]. Qed.

Lemma calm_trans cfg a b c : calm cfg a b -> calm cfg b c -> calm cfg a c.
Proof.
  intros [? ? ? ? (n1 & T1 & F1)] [? ? ? ? (n2 & T2 & F2)].
  constructor; try congruence.
  exists (n2 ++ n1). split.
  - rewrite T2, T1. apply app_assoc.
  - apply Forall_app. split; assumption.
Qed.

Lemma harmless_benign cfg e : harmless e -> benign cfg e.
Proof. destruct e as [| | |? []| | | |]; simpl; tauto. Qed.

Lemma calm_emit cfg e st : benign cfg e -> calm cfg st (emit e st).
Proof.
  intros He. constructor; auto. exists [e]. split; [reflexivity|].
  constructor; [exact He|constructor].
Qed.

Lemma calm_harmless cfg e st : harmless e -> calm cfg st (emit e st).
Proof. intros He. apply calm_emit, harmless_benign, He. Qed.

Lemma calm_stats cfg f st :
  keeps_add_counters f -> calm cfg st (set_stats (f (stats st)) st).
Proof.
  intros Hf. destruct (Hf (stats st)) as [Ha Hw].
  constructor; auto. exists []. split; [reflexivity|constructor].
Qed.

(** A change of the flags or of the pending input. *)
Lemma calm_same cfg st st' :
  trace st' = trace st -> existing_tmdb st' = existing_tmdb st ->
  dryrun_hits st' = dryrun_hits st -> stats st' = stats st ->
  calm cfg st st'.
Proof.
  intros Ht He Hh Hs. constructor; auto; try (rewrite Hs; reflexivity).
  exists []. split; [exact Ht|constructor].
Qed.

Lemma calm_bind cfg {A B} (c : M A) (k : A -> M B) :
  follows (calm cfg) c -> (forall a, follows (calm cfg) (k a)) ->
  follows (calm cfg) (bind c k).
Proof. apply follows_bind; [apply calm_refl|apply calm_trans]. Qed.

Lemma calm_ret cfg {A} (a : A) : follows (calm cfg) (ret a).
Proof. intros st. apply calm_refl. Qed.

Lemma calm_raise cfg {A} : follows (calm cfg) (@raise A).
Proof. intros st. apply calm_refl. Qed.

Lemma calm_prompt_continue cfg : follows (calm cfg) (prompt_continue cfg).
Proof.
  intros st. unfold prompt_continue.
  destruct (negb (INTERACTIVE_ON_ISSUES cfg) || always_continue st);
    [apply calm_refl|].
  destruct (read_continue (stdin st)) as [[[]|] rest]; apply calm_same; reflexivity.
Qed.

Lemma calm_prompt_confirm_add cfg : follows (calm cfg) (prompt_confirm_add cfg).
Proof.
  intros st. unfold prompt_confirm_add.
  destruct (AUTO_ADD cfg); [apply calm_refl|].
  destruct (always_yes_add st); [apply calm_refl|].
  destruct (read_confirm (stdin st)) as [[[]|] rest]; simpl;
    try destruct (YES_ALL cfg); apply calm_same; reflexivity.
Qed.

Lemma calm_disambiguate cfg term filtered :
  follows (calm cfg) (disambiguate term filtered).
Proof.
  apply calm_bind; [intros st; apply calm_harmless; exact I|].
  intros _ st.
  destruct (read_choice _ (stdin st)) as [[[]|] rest] eqn:E; rewrite ?E; simpl;
    repeat match goal with
           | |- context [match ?x with _ => _ end] => destruct x
           end;
    apply calm_same; reflexivity.
Qed.

Lemma calm_choose_otherwise cfg term first filtered :
  follows (calm cfg) (choose_otherwise cfg term first filtered).
Proof.
  intros st. unfold choose_otherwise.
  destruct (_ && _); [apply calm_disambiguate|apply calm_refl].
Qed.

Ltac by_calm :=
  first [ exact (calm_refl _) | exact (calm_trans _) | exact (calm_harmless _)
        | exact (calm_stats _) | exact (calm_prompt_continue _)
        | exact (calm_choose_otherwise _) ].

Lemma calm_issue cfg f e :
  keeps_add_counters f -> harmless e ->
  follows (calm cfg) (bump f ;;; log e ;;; continue_or_abort cfg).
Proof. intros Hf He. apply follows_issue; try by_calm; assumption. Qed.

Lemma calm_on_exception cfg idx : follows (calm cfg) (on_exception cfg idx).
Proof. apply follows_on_exception; by_calm. Qed.

Lemma calm_lookup cfg w idx term : follows (calm cfg) (lookup w idx term).
Proof. apply follows_lookup with (cfg := cfg); by_calm. Qed.

Lemma calm_choose_from_results cfg term results desired_year :
  follows (calm cfg) (choose_from_results cfg term results desired_year).
Proof. apply follows_choose_from_results; by_calm. Qed.

Lemma calm_add_movie cfg w idx m :
  DRY_RUN cfg = false -> follows (calm cfg) (add_movie w idx m).
Proof.
  intros Hdry. apply calm_bind.
  - intros st. apply calm_emit. exact Hdry.
  - intros _. destruct (on_add w idx m) as [code|]; [|apply calm_raise].
    destruct (code =? 401); [|apply calm_ret].
    intros st. apply calm_harmless. exact I.
Qed.

Lemma keeps_inc_errors : keeps_add_counters inc_errors.
Proof. intros s. split; reflexivity. Qed.

Lemma keeps_inc_misses : keeps_add_counters inc_misses.
Proof. intros s. split; reflexivity. Qed.

Lemma keeps_inc_skipped : keeps_add_counters inc_skipped.
Proof. intros s. split; reflexivity. Qed.

Lemma keeps_inc_duplicates : keeps_add_counters inc_duplicates.
Proof. intros s. split; reflexivity. Qed.

Lemma keeps_inc_processed : keeps_add_counters inc_processed.
Proof. intros s. split; reflexivity. Qed.

Lemma line_result_after_calm cfg a b c :
  calm cfg a b -> line_result cfg b c -> line_result cfg a c.
Proof.
  intros Hab [Hbc|(mid & id & Hm & Hin & Hnz & He)].
  - left. eapply calm_trans; eassumption.
  - right. exists mid, id. split; [eapply calm_trans; eassumption|auto].
Qed.

(** What [handle_selected] does: nothing new, or one new entry; and an
    exception leaves nothing new behind. *)
Lemma handle_selected_result w cfg idx m st :
  let res := handle_selected w cfg idx m st in
  line_result cfg st (snd res) /\ (fst res = Raise -> calm cfg st (snd res)).
Proof.
  cbv zeta. unfold handle_selected.
  destruct (truthy_id m) as [tmdb|] eqn:Hid.
  2:{ split; [left|intros _]; apply calm_issue; try exact I; apply keeps_inc_errors. }
  pose proof (truthy_id_nonzero _ _ Hid) as Hnz.
  rewrite bind_at. unfold gets. cbn beta iota.
  destruct (bool_decide (tmdb ∈ existing_tmdb st)) eqn:Hin.
  { assert (Hc : follows (calm cfg)
                   (bump inc_duplicates ;;; log (LogLine (idx + 1) (DUP tmdb)))).
    { apply calm_bind.
      - intros s. apply calm_stats, keeps_inc_duplicates.
      - intros _ s. apply calm_harmless. exact I. }
    split; [left|intros _]; apply Hc. }
  apply bool_decide_eq_false in Hin.
  destruct (DRY_RUN cfg) eqn:Hdry.
  { split; [|discriminate]. right. exists st, tmdb.
    split; [apply calm_refl|]. split; [exact Hin|]. split; [exact Hnz|].
    unfold adds_entry. rewrite Hdry. simpl.
    split; [reflexivity|]. split; [reflexivity|].
    exists (idx + 1). split; [reflexivity|]. split; [reflexivity|].
    eexists _, _. reflexivity. }
  set (confirm := if CONFIRM_EACH_ADD_DEFAULT cfg
                  then prompt_confirm_add cfg else ret true).
  assert (Hconfirm : follows (calm cfg) confirm).
  { subst confirm. destruct (CONFIRM_EACH_ADD_DEFAULT cfg);
      [apply calm_prompt_confirm_add|apply calm_ret]. }
  rewrite bind_at. specialize (Hconfirm st).
  destruct (confirm st) as [[[]| |] st1]; cbn [fst snd] in *;
    try (split; [left|intros _]; exact Hconfirm).
  - rewrite bind_at.
    pose proof (calm_add_movie cfg w idx m Hdry st1) as Hadd.
    destruct (add_movie w idx m st1) as [[code| |] st2]; cbn [fst snd] in *;
      try (split; [left|intros _]; eapply calm_trans; eassumption).
    assert (H2 : calm cfg st st2) by (eapply calm_trans; eassumption).
    destruct ((code =? 200) || (code =? 201)).
    + split; [|discriminate]. right. exists st2, tmdb.
      split; [exact H2|]. split; [rewrite (calm_index _ _ _ H2); exact Hin|].
      split; [exact Hnz|].
      unfold adds_entry. rewrite Hdry. simpl.
      split; [reflexivity|]. split; [reflexivity|].
      exists (idx + 1). repeat split; reflexivity.
    + pose proof (calm_issue cfg inc_errors (LogLine (idx + 1) ERR)
                    keeps_inc_errors I st2) as Herr.
      split; [left|intros _]; eapply calm_trans; eassumption.
  - assert (Hc : follows (calm cfg)
                   (bump inc_skipped ;;; log (LogLine (idx + 1) SKIP))).
    { apply calm_bind.
      - intros s. apply calm_stats, keeps_inc_skipped.
      - intros _ s. apply calm_harmless. exact I. }
    split; [left|intros _]; (eapply calm_trans; [exact Hconfirm|apply Hc]).
Qed.

Lemma try_line_result w cfg idx term desired_year st :
  let res := try_line w cfg idx term desired_year st in
  line_result cfg st (snd res) /\ (fst res = Raise -> calm cfg st (snd res)).
Proof.
  cbv zeta. unfold try_line. rewrite bind_at.
  pose proof (calm_lookup cfg w idx term st) as Hl.
  destruct (lookup w idx term st) as [[results| |] st1]; cbn [fst snd] in *;
    try (split; [left|intros _]; exact Hl).
  destruct results as [|first rest].
  - pose proof (calm_issue cfg inc_misses (LogLine (idx + 1) MISS)
                  keeps_inc_misses I st1) as Hm.
    split; [left|intros _]; eapply calm_trans; eassumption.
  - rewrite bind_at.
    pose proof (calm_choose_from_results cfg term (first :: rest) desired_year st1) as Hc.
    destruct (choose_from_results cfg term (first :: rest) desired_year st1)
      as [[[m| |]| |] st2]; cbn [fst snd] in *;
      try (split; [left|intros _]; eapply calm_trans; eassumption).
    + assert (H2 : calm cfg st st2) by (eapply calm_trans; eassumption).
      destruct (handle_selected_result w cfg idx m st2) as [Hr Hx].
      split; [eapply line_result_after_calm; eassumption|].
      intros Hraise. eapply calm_trans; [exact H2|auto].
    + pose proof (calm_issue cfg inc_skipped (LogLine (idx + 1) SKIP)
                    keeps_inc_skipped I st2) as Hs.
      split; [left|intros _]; (eapply calm_trans; [|exact Hs]);
        eapply calm_trans; eassumption.
    + split; [left|intros _]; (eapply calm_trans; [|apply calm_harmless; exact I]);
        eapply calm_trans; eassumption.
Qed.

Lemma protected_line_result w cfg idx term desired_year st :
  line_result cfg st
    (snd (try_except (try_line w cfg idx term desired_year)
                     (on_exception cfg idx) st)).
Proof.
  unfold try_except.
  destruct (try_line_result w cfg idx term desired_year st) as [Hr Hx].
  destruct (try_line w cfg idx term desired_year st) as [[[]| |] st1];
    cbn [fst snd] in *; try exact Hr.
  left. eapply calm_trans; [apply Hx; reflexivity|apply calm_on_exception].
Qed.

Lemma loop_body_result w cfg movies idx st :
  let res := loop_body w cfg movies idx st in
  line_result cfg st (snd res)
  /\ (cap_reached cfg st = true -> calm cfg st (snd res)).
Proof.
  cbv zeta. unfold loop_body.
  destruct (py_index movies idx) as [term|];
    [|split; [left|intros _]; apply calm_refl].
  set (ok := on_write w (writes st)).
  set (st1 := set_stats (inc_processed (stats st))
                (emit (Saved (idx + 1) ok)
                   (set_file (after_write ok (idx + 1) (state_file st))
                      (S (writes st)) st))).
  set (line := try_except (try_line w cfg idx term (snd (parse_title_year term)))
                          (on_exception cfg idx)).
  assert (H1 : calm cfg st st1).
  { constructor; try reflexivity. exists [Saved (idx + 1) ok].
    split; [reflexivity|]. repeat constructor. }
  change ((save_state w (idx + 1) ;;; bump inc_processed ;;;
           stop <- gets (cap_reached cfg) ;;
           if (stop : bool) then log LogStop ;;; ret Break else line ;;; ret Next) st)
    with ((if cap_reached cfg st then log LogStop ;;; ret Break
           else line ;;; ret Next) st1).
  destruct (cap_reached cfg st).
  - assert (H2 : calm cfg st (emit LogStop st1))
      by (eapply calm_trans; [exact H1|apply calm_harmless; exact I]).
    split; [left|intros _]; exact H2.
  - split; [|discriminate]. rewrite bind_at.
    pose proof (protected_line_result w cfg idx term (snd (parse_title_year term)) st1)
      as Hline. fold line in Hline.
    destruct (line st1) as [[[]| |] st2]; cbn [fst snd] in *;
      eapply line_result_after_calm; eassumption.
Qed.

(** ** The books of a run *)

Lemma benign_no_new_id cfg newer :
  Forall (benign cfg) newer -> new_ids newer = [].
Proof.
  induction 1 as [|e newer He _ IH]; [reflexivity|].
  cbn [new_ids]. rewrite IH.
  destruct e as [| | |? []| | | |]; simpl in *; try reflexivity; destruct He.
Qed.

Lemma new_ids_app newer tr : new_ids (newer ++ tr) = new_ids newer ++ new_ids tr.
Proof.
  induction newer as [|e newer IH]; [reflexivity|].
  simpl. rewrite IH. destruct (new_id e); reflexivity.
Qed.

Lemma benign_no_add_request cfg newer :
  DRY_RUN cfg = true -> Forall (benign cfg) newer ->
  existsb is_add_request newer = false.
Proof.
  intros Hdry. induction 1 as [|e newer He _ IH]; [reflexivity|].
  simpl. rewrite IH. destruct e; simpl in *; try reflexivity. congruence.
Qed.

Lemma accounts_calm cfg seed st st' :
  accounts cfg seed st -> calm cfg st st' -> accounts cfg seed st'.
Proof.
  intros [Hi Ho Hf Hw Hd Hl] [Ce Ch Ca Cw (newer & Ct & Cb)].
  assert (Hids : new_ids (trace st') = new_ids (trace st)).
  { rewrite Ct, new_ids_app, (benign_no_new_id cfg newer Cb). reflexivity. }
  constructor; rewrite ?Hids, ?Ce, ?Ch, ?Ca, ?Cw; auto.
  intros Hdry. destruct (Hd Hdry) as (Ha & Hr & Hh). split; [exact Ha|].
  split; [|exact Hh]. rewrite Ct, existsb_app, Hr.
  rewrite (benign_no_add_request cfg newer Hdry Cb). reflexivity.
Qed.

Lemma accounts_entry cfg seed id mid st' :
  accounts cfg seed mid -> id ∉ existing_tmdb mid -> id <> 0 ->
  adds_entry cfg id mid st' -> accounts cfg seed st'.
Proof.
  intros [Hi Ho Hf Hw Hd Hl] Hnew Hnz (Ee & Ew & line_no & Hcase).
  assert (Hids : new_ids (trace st') = id :: new_ids (trace mid)).
  { destruct (DRY_RUN cfg); destruct Hcase as (-> & _); reflexivity. }
  assert (Hnot : ~ In id (new_ids (trace mid))).
  { intros Hin. apply Hnew. rewrite Hi. apply elem_of_union_r.
    apply elem_of_list_to_set, list_elem_of_In, Hin. }
  assert (Hseed : id ∉ seed).
  { intros Hin. apply Hnew. rewrite Hi. apply elem_of_union_l, Hin. }
  constructor; rewrite ?Hids.
  - rewrite Ee, Hi. simpl. rewrite (assoc_L (∪)), (comm_L (∪) {[id]} seed).
    rewrite <- (assoc_L (∪)). reflexivity.
  - constructor; [rewrite list_elem_of_In; exact Hnot|exact Ho].
  - intros x [<-|Hx]; auto.
  - rewrite Ew, Hw. simpl. lia.
  - intros Hdry. rewrite Hdry in Hcase.
    destruct Hcase as (Ht & Ha & t & y & Hh). destruct (Hd Hdry) as (Ha0 & Hr & Hh0).
    split; [congruence|]. split; [rewrite Ht; simpl; exact Hr|].
    rewrite Hh, map_app, Hh0. reflexivity.
  - intros Hlive. rewrite Hlive in Hcase. destruct Hcase as (Ht & Ha & Hh).
    destruct (Hl Hlive) as (Ha0 & Hh0). split; [lia|congruence].
Qed.

Lemma accounts_line cfg seed st st' :
  accounts cfg seed st -> line_result cfg st st' -> accounts cfg seed st'.
Proof.
  intros Hacc [Hc|(mid & id & Hc & Hnew & Hnz & He)].
  - eapply accounts_calm; eassumption.
  - eapply accounts_entry; [eapply accounts_calm; eassumption| | |]; eassumption.
Qed.

Lemma for_each_accounts w cfg movies seed idxs : forall st,
  accounts cfg seed st ->
  accounts cfg seed (snd (for_each idxs (loop_body w cfg movies) st)).
Proof.
  induction idxs as [|idx rest IH]; intros st Hacc; [exact Hacc|].
  cbn [for_each].
  destruct (loop_body_result w cfg movies idx st) as [Hline _].
  apply (accounts_line _ _ _ _ Hacc) in Hline.
  destruct (loop_body w cfg movies idx st) as [[[]| |] st1]; cbn [fst snd] in *; auto.
Qed.

Lemma accounts_seeded cfg seed st :
  trace st = [] -> existing_tmdb st = seed -> stats st = zero_stats ->
  dryrun_hits st = [] -> accounts cfg seed st.
Proof.
  intros Ht He Hs Hh. constructor; rewrite ?Ht, ?He, ?Hs, ?Hh; simpl.
  - rewrite (right_id_L ∅ (∪)). reflexivity.
  - constructor.
  - intros id [].
  - reflexivity.
  - auto.
  - auto.
Qed.

Lemma save_state_calm cfg w n st : calm cfg st (snd (save_state w n st)).
Proof.
  constructor; try reflexivity.
  exists [Saved n (on_write w (writes st))].
  split; [reflexivity|]. repeat constructor.
Qed.

Lemma import_from_accounts w cfg movies seed start st :
  accounts cfg seed st ->
  accounts cfg seed (snd (import_from w cfg movies start st)).
Proof.
  intros Hacc. unfold import_from. rewrite bind_at.
  pose proof (for_each_accounts w cfg movies seed
                (py_range start (Z.of_nat (length movies))) st Hacc) as Hloop.
  destruct (for_each _ _ st) as [[[]| |] st1]; cbn [fst snd] in *; auto.
  eapply accounts_calm; [exact Hloop|apply save_state_calm].
Qed.

Lemma main_accounts w cfg movies disk console start library :
  fst (start_index (initial_state disk console)) = Ret start ->
  on_library w = Some library ->
  accounts cfg (get_existing_tmdb_ids library)
    (snd (main w cfg movies (initial_state disk console))).
Proof.
  intros Hs Hlib. rewrite (main_unfold _ _ _ _ _ _ Hs), Hlib.
  apply import_from_accounts. apply accounts_seeded; reflexivity.
Qed.

Lemma main_accounts_any w cfg movies disk console :
  exists seed,
    accounts cfg seed (snd (main w cfg movies (initial_state disk console))).
Proof.
  destruct (fst (start_index (initial_state disk console))) as [start| |] eqn:Hs.
  - destruct (on_library w) as [library|] eqn:Hlib.
    + exists (get_existing_tmdb_ids library). eapply main_accounts; eassumption.
    + exists ∅. rewrite (main_unfold _ _ _ _ _ _ Hs), Hlib.
      eapply accounts_calm; [|apply calm_harmless; exact I].
      apply accounts_seeded; reflexivity.
  - exists ∅. rewrite main_without_start by exact Hs.
    apply accounts_seeded; reflexivity.
  - unfold start_index in Hs. destruct (py_int _); discriminate.
Qed.

(** X3. In a dry run no add request is ever sent and the count of real
    adds stays 0; the report list names, in order, exactly the ids logged
    as would-add, and the would-add counter is their number. *)
Theorem dry_run_sends_no_add :
  forall w cfg movies disk console,
    DRY_RUN cfg = true ->
    let final := snd (main w cfg movies (initial_state disk console)) in
    existsb is_add_request (trace final) = false
    /\ added (stats final) = 0
    /\ map snd (dryrun_hits final) = rev (new_ids (trace final))
    /\ would_add (stats final) = Z.of_nat (length (dryrun_hits final)).
Proof.
  intros w cfg movies disk console Hdry final.
  destruct (main_accounts_any w cfg movies disk console) as (seed & Hacc).
  fold final in Hacc. destruct Hacc as [_ _ _ Hw Hd _].
  destruct (Hd Hdry) as (Ha & Hr & Hh). repeat split; auto.
  rewrite Hw. f_equal.
  rewrite <- (length_map snd (dryrun_hits final)), Hh, length_rev. reflexivity.
Qed.

Lemma dry_run_sends_no_add_witness :
  let final := snd (main alien_world dry_config (read_movies alien_file)
                      (initial_state Missing [])) in
  existsb is_add_request (trace final) = false
  /\ added (stats final) = 0
  /\ map snd (dryrun_hits final) = rev (new_ids (trace final))
  /\ would_add (stats final) = Z.of_nat (length (dryrun_hits final)).
Proof.
  apply (dry_run_sends_no_add alien_world dry_config (read_movies alien_file)
           Missing []).
  reflexivity.
Defined.

(** X4. In a live run the would-add counter and the count of real adds
    are both the number of lines logged as added, and the dry-run report
    list stays empty. *)
Theorem live_run_counts_adds :
  forall w cfg movies disk console,
    DRY_RUN cfg = false ->
    let final := snd (main w cfg movies (initial_state disk console)) in
    added (stats final) = Z.of_nat (length (new_ids (trace final)))
    /\ would_add (stats final) = added (stats final)
    /\ dryrun_hits final = [].
Proof.
  intros w cfg movies disk console Hlive final.
  destruct (main_accounts_any w cfg movies disk console) as (seed & Hacc).
  fold final in Hacc. destruct Hacc as [_ _ _ Hw _ Hl].
  destruct (Hl Hlive) as (Ha & Hh). repeat split; congruence.
Qed.

Lemma live_run_counts_adds_witness :
  let final := snd (main obliging_world auto_config four_lines
                      (initial_state Missing [])) in
  added (stats final) = Z.of_nat (length (new_ids (trace final)))
  /\ would_add (stats final) = added (stats final)
  /\ dryrun_hits final = [].
Proof.
  apply (live_run_counts_adds obliging_world auto_config four_lines Missing []).
  reflexivity.
Defined.

(** X5. When the library listing succeeds, the duplicate index at the
    end of the run is the set of library ids together with the ids logged
    as added or would-add; each such id is logged once only, is not 0 and
    was not in the library. *)
Theorem index_is_library_and_new_ids :
  forall w cfg movies disk console start library,
    fst (start_index (initial_state disk console)) = Ret start ->
    on_library w = Some library ->
    let final := snd (main w cfg movies (initial_state disk console)) in
    existing_tmdb final
    = get_existing_tmdb_ids library ∪ list_to_set (new_ids (trace final))
    /\ NoDup (new_ids (trace final))
    /\ (forall id, In id (new_ids (trace final)) ->
          id <> 0 /\ id ∉ get_existing_tmdb_ids library).
Proof.
  intros w cfg movies disk console start library Hs Hlib final.
  destruct (main_accounts w cfg movies disk console start library Hs Hlib)
    as [Hi Ho Hf _ _ _].
  fold final in Hi, Ho, Hf. repeat split; auto; apply Hf; assumption.
Qed.

Lemma index_is_library_and_new_ids_witness :
  let final := snd (main alien_world auto_config (read_movies alien_file)
                      (initial_state Missing [])) in
  existing_tmdb final
  = get_existing_tmdb_ids [] ∪ list_to_set (new_ids (trace final))
  /\ NoDup (new_ids (trace final))
  /\ (forall id, In id (new_ids (trace final)) ->
        id <> 0 /\ id ∉ get_existing_tmdb_ids []).
Proof.
  apply (index_is_library_and_new_ids alien_world auto_config
           (read_movies alien_file) Missing [] 0 []); reflexivity.
Defined.

(** ** The counters and the log *)

Lemma stats_eq (a b : stats_t) :
  processed a = processed b -> would_add a = would_add b ->
  duplicates a = duplicates b -> misses a = misses b -> errors a = errors b ->
  skipped a = skipped b -> added a = added b -> a = b.
Proof. destruct a, b. simpl. intros. subst. reflexivity. Qed.

Lemma tally_app a b : tally (a ++ b) = plus_stats (tally a) (tally b).
Proof.
  induction a as [|e a IH]; simpl.
  - apply stats_eq; simpl; lia.
  - rewrite IH. apply stats_eq; simpl; lia.
Qed.

Lemma tally_notes newer : Forall is_note newer -> tally newer = zero_stats.
Proof.
  induction 1 as [|e newer He _ IH]; [reflexivity|]. simpl. rewrite IH.
  destruct e; try destruct He; reflexivity.
Qed.

Lemma tallied_refl st : tallied st st.
Proof. exists []. split; [reflexivity|]. unfold counts_up. simpl. repeat split; lia. Qed.

Lemma tallied_trans a b c : tallied a b -> tallied b c -> tallied a c.
Proof.
  intros (n1 & T1 & C1) (n2 & T2 & C2). exists (n2 ++ n1). split.
  - rewrite T2, T1. apply app_assoc.
  - rewrite tally_app. unfold counts_up in *. simpl. repeat split; lia.
Qed.

(** A step that leaves the counters alone and logs nothing that counts. *)
Lemma tallied_uncounted st st' newer :
  trace st' = newer ++ trace st -> tally newer = zero_stats ->
  stats st' = stats st -> tallied st st'.
Proof.
  intros Ht Hn Hs. exists newer. split; [exact Ht|]. rewrite Hn, Hs.
  unfold counts_up. simpl. repeat split; lia.
Qed.

(** A counter raised and the event it stands for logged. *)
Lemma tallied_counted f e st :
  counts_up (event_count e) (stats st) (f (stats st)) ->
  tallied st (emit e (set_stats (f (stats st)) st)).
Proof.
  intros Hc. exists [e]. split; [reflexivity|].
  unfold counts_up in *. simpl. repeat split; lia.
Qed.

Lemma tallied_bind {A B} (c : M A) (k : A -> M B) :
  follows tallied c -> (forall a, follows tallied (k a)) -> follows tallied (bind c k).
Proof. apply follows_bind; [apply tallied_refl|apply tallied_trans]. Qed.

Lemma tallied_continue_or_abort cfg : follows tallied (continue_or_abort cfg).
Proof.
  intros st. destruct (continue_or_abort_effect cfg st) as (Hs & _ & _ & [Ht|Ht]).
  - apply (tallied_uncounted _ _ []); [exact Ht|reflexivity|exact Hs].
  - apply (tallied_uncounted _ _ [LogFatal]); [exact Ht|reflexivity|exact Hs].
Qed.

(** [bump f ;;; log e ;;; continue_or_abort]: the tail of every miss,
    skip and error, [e] standing for what [f] counts. *)
Lemma tallied_issue cfg f e :
  (forall s, counts_up (event_count e) s (f s)) ->
  follows tallied (bump f ;;; log e ;;; continue_or_abort cfg).
Proof.
  intros Hf st.
  change ((bump f ;;; log e ;;; continue_or_abort cfg) st)
    with (continue_or_abort cfg (emit e (set_stats (f (stats st)) st))).
  eapply tallied_trans; [apply tallied_counted, Hf|apply tallied_continue_or_abort].
Qed.

Lemma tallied_outcome f e :
  (forall s, counts_up (event_count e) s (f s)) ->
  follows tallied (bump f ;;; log e).
Proof. intros Hf st. apply (tallied_counted f e st), Hf. Qed.

Ltac one_more := intros s; unfold counts_up; simpl; repeat split; lia.

Lemma tallied_engine cfg term results desired_year :
  follows tallied (choose_from_results cfg term results desired_year).
Proof.
  intros st.
  destruct (resolving_choose_from_results cfg term results desired_year st)
    as [Hs _ _ _ _ _ (newer & Ht & Hn)].
  apply (tallied_uncounted _ _ newer); [exact Ht|apply tally_notes, Hn|exact Hs].
Qed.

Lemma tallied_confirm cfg :
  follows tallied
    (if CONFIRM_EACH_ADD_DEFAULT cfg then prompt_confirm_add cfg else ret true).
Proof.
  intros st. destruct (CONFIRM_EACH_ADD_DEFAULT cfg); [|apply tallied_refl].
  unfold prompt_confirm_add.
  destruct (AUTO_ADD cfg); [apply tallied_refl|].
  destruct (always_yes_add st); [apply tallied_refl|].
  destruct (read_confirm (stdin st)) as [[[]|] rest]; simpl;
    try destruct (YES_ALL cfg);
    apply (tallied_uncounted _ _ []); reflexivity.
Qed.

Lemma tallied_add_movie w idx m : follows tallied (add_movie w idx m).
Proof.
  intros st. unfold add_movie, bind, log, modify. cbn beta iota.
  destruct (on_add w idx m) as [code|].
  - destruct (code =? 401).
    + apply (tallied_uncounted _ _ [LogFatal; HttpAdd idx m]); reflexivity.
    + apply (tallied_uncounted _ _ [HttpAdd idx m]); reflexivity.
  - apply (tallied_uncounted _ _ [HttpAdd idx m]); reflexivity.
Qed.

Lemma tallied_handle_selected w cfg idx m :
  follows tallied (handle_selected w cfg idx m).
Proof.
  unfold handle_selected. destruct (truthy_id m) as [tmdb|].
  2:{ apply tallied_issue. one_more. }
  apply tallied_bind; [intros st; apply tallied_refl|]. intros [].
  { apply tallied_outcome. one_more. }
  destruct (DRY_RUN cfg).
  { intros st. exists [LogLine (idx + 1) (DRY tmdb)]. split; [reflexivity|].
    unfold counts_up. simpl. repeat split; lia. }
  apply tallied_bind; [apply tallied_confirm|]. intros [].
  2:{ apply tallied_outcome. one_more. }
  apply tallied_bind; [apply tallied_add_movie|]. intros code.
  destruct (_ || _).
  - intros st. exists [LogLine (idx + 1) (ADD tmdb)]. split; [reflexivity|].
    unfold counts_up. simpl. repeat split; lia.
  - apply tallied_issue. one_more.
Qed.

(** The [try] block once the lookup has been sent. *)
Lemma tallied_after_lookup w cfg idx term desired_year st :
  tallied (emit (HttpLookup idx term) st)
    (snd (try_line w cfg idx term desired_year st)).
Proof.
  unfold try_line, lookup. rewrite !bind_at. unfold log, modify. cbn beta iota.
  set (sent := emit (HttpLookup idx term) st).
  destruct (on_lookup w idx term) as [results| |].
  - unfold ret at 1. cbn beta iota. destruct results as [|first rest].
    + apply (tallied_issue cfg inc_misses (LogLine (idx + 1) MISS)). one_more.
    + apply (tallied_bind (choose_from_results cfg term (first :: rest) desired_year));
        [apply tallied_engine|].
      intros [m| |].
      * apply tallied_handle_selected.
      * apply tallied_issue. one_more.
      * intros s. apply (tallied_uncounted _ _ [LogFatal]); reflexivity.
  - apply (tallied_uncounted _ _ [LogFatal]); reflexivity.
  - apply tallied_refl.
Qed.

Lemma tallied_loop_body w cfg movies idx :
  follows tallied (loop_body w cfg movies idx).
Proof.
  intros st. unfold loop_body.
  destruct (py_index movies idx) as [term|]; [|apply tallied_refl].
  set (st1 := set_stats (inc_processed (stats st)) (snd (save_state w (idx + 1) st))).
  set (line := try_except (try_line w cfg idx term (snd (parse_title_year term)))
                          (on_exception cfg idx)).
  change ((save_state w (idx + 1) ;;; bump inc_processed ;;;
           stop <- gets (cap_reached cfg) ;;
           if (stop : bool) then log LogStop ;;; ret Break else line ;;; ret Next) st)
    with ((if cap_reached cfg st then log LogStop ;;; ret Break
           else line ;;; ret Next) st1).
  destruct (cap_reached cfg st).
  - exists [LogStop; Saved (idx + 1) (on_write w (writes st))].
    split; [reflexivity|]. unfold counts_up. simpl. repeat split; lia.
  - assert (Hsent : tallied st (emit (HttpLookup idx term) st1)).
    { exists [HttpLookup idx term; Saved (idx + 1) (on_write w (writes st))].
      split; [reflexivity|]. unfold counts_up. simpl. repeat split; lia. }
    pose proof (tallied_after_lookup w cfg idx term (snd (parse_title_year term)) st1)
      as Hline.
    assert (Hdone : tallied st (snd (line st1))).
    { subst line. unfold try_except.
      destruct (try_line w cfg idx term (snd (parse_title_year term)) st1)
        as [[[]| |] st2]; cbn [snd] in *;
        try (eapply tallied_trans; [exact Hsent|exact Hline]).
      eapply tallied_trans; [eapply tallied_trans; [exact Hsent|exact Hline]|].
      apply (tallied_issue cfg inc_errors (LogLine (idx + 1) FAIL)). one_more. }
    rewrite bind_at. destruct (line st1) as [[[]| |] st2]; exact Hdone.
Qed.

Lemma tallied_for_each w cfg movies idxs :
  follows tallied (for_each idxs (loop_body w cfg movies)).
Proof.
  induction idxs as [|idx rest IH]; intros st; [apply tallied_refl|].
  cbn [for_each]. pose proof (tallied_loop_body w cfg movies idx st) as Hstep.
  destruct (loop_body w cfg movies idx st) as [[[]| |] st1]; cbn [snd] in *;
    try exact Hstep.
  eapply tallied_trans; [exact Hstep|apply IH].
Qed.

Lemma tallied_import_from w cfg movies start :
  follows tallied (import_from w cfg movies start).
Proof.
  unfold import_from. apply tallied_bind; [apply tallied_for_each|].
  intros _ st.
  apply (tallied_uncounted _ _ [Saved (Z.of_nat (length movies)) (on_write w (writes st))]);
    reflexivity.
Qed.

(** X23. The counters of the summary agree with the log.  Whatever the
    state [main] is entered in, the counters at the end are those its own
    events add up to: [processed] is the number of lines looked up or
    stopped by the cap, [misses], [skipped] and [duplicates] the numbers of
    lines logged as such, [errors] the number of lines logged [ERR] or
    [FAIL], [added] the number of lines logged as added and [would_add]
    that number plus the lines logged as would-add. *)
Theorem counters_agree_with_the_log :
  forall w cfg movies st,
    let final := snd (main w cfg movies st) in
    exists newer,
      trace final = newer ++ trace st /\ stats final = tally newer.
Proof.
  intros w cfg movies st final.
  assert (Hzero : forall a b, stats a = zero_stats -> tallied a b ->
            exists newer, trace b = newer ++ trace a /\ stats b = tally newer).
  { intros a b Ha (newer & Ht & Hc). exists newer. split; [exact Ht|].
    rewrite Ha in Hc. unfold counts_up in Hc. simpl in Hc.
    apply stats_eq; lia. }
  set (st0 := set_stats zero_stats (set_hits [] st)).
  apply (Hzero st0 final); [reflexivity|].
  subst final.
  change (main w cfg movies st)
    with ((start <- start_index ;;
           match on_library w with
           | None => fatal
           | Some library =>
               modify (set_existing (get_existing_tmdb_ids library)) ;;;
               import_from w cfg movies start
           end) st0).
  rewrite bind_at. unfold start_index.
  destruct (py_int _) as [start|]; [|apply tallied_refl].
  destruct (on_library w) as [library|].
  - apply (tallied_import_from w cfg movies start
             (set_existing (get_existing_tmdb_ids library) st0)).
  - apply (tallied_uncounted _ _ [LogFatal]); reflexivity.
Qed.

(** The counters of the run of the same title twice, read off its log. *)
Example counters_of_same_title_twice :
  let run := main alien_world auto_config (read_movies alien_file)
               (initial_state Missing []) in
  tally (trace (snd run)) = Stats 2 1 1 0 0 0 1.
Proof. vm_compute. reflexivity. Qed.

(** X24. The resolution engine keeps no books: whatever the candidates
    and the operator's answers, [choose_from_results] leaves the counters,
    the duplicate index, the report list, the state file and the lock of
    the add confirmation as they were, and logs nothing but the note of a
    year-miss or of an ambiguity prompt. *)
Theorem resolution_keeps_no_books :
  forall cfg term results desired_year st,
    resolving st (snd (choose_from_results cfg term results desired_year st)).
Proof.
  intros cfg term results desired_year st.
  apply resolving_choose_from_results.
Qed.

(** ** The add cap *)







(** ** Unattended runs *)

Lemma silent_refl cfg st : silent cfg st st.
Proof. intros H. auto. Qed.

Lemma silent_trans cfg a b c : silent cfg a b -> silent cfg b c -> silent cfg a c.
Proof.
  intros Hab Hbc Ha. destruct (Hab Ha) as [Hb Eb]. destruct (Hbc Hb) as [Hc Ec].
  split; [exact Hc|congruence].
Qed.

(** A change that touches neither the flags nor the pending input. *)
Lemma silent_same cfg st st' :
  always_continue st' = always_continue st ->
  always_yes_add st' = always_yes_add st ->
  stdin st' = stdin st -> silent cfg st st'.
Proof.
  intros H1 H2 H3 [Ha Hb]. unfold unattended. rewrite H1, H2. auto.
Qed.

Lemma silent_emit cfg e st : harmless e -> silent cfg st (emit e st).
Proof. intros _. apply silent_same; reflexivity. Qed.

Lemma silent_stats cfg f st :
  keeps_add_counters f -> silent cfg st (set_stats (f (stats st)) st).
Proof. intros _. apply silent_same; reflexivity. Qed.

Lemma prompt_continue_unattended cfg st :
  unattended cfg st -> prompt_continue cfg st = (Ret true, st).
Proof.
  intros [[H|H] _]; unfold prompt_continue; rewrite H; simpl;
    rewrite ?orb_true_r; reflexivity.
Qed.

Lemma silent_prompt_continue cfg : follows (silent cfg) (prompt_continue cfg).
Proof.
  intros st H. rewrite (prompt_continue_unattended cfg st H). auto.
Qed.

Lemma silent_choose_otherwise cfg term first filtered :
  follows (silent cfg) (choose_otherwise cfg term first filtered).
Proof.
  intros st H. unfold choose_otherwise.
  assert (Hc : INTERACTIVE_ON_ISSUES cfg && negb (always_continue st) = false).
  { destruct H as [[H|H] _]; rewrite H; simpl; rewrite ?andb_false_r; reflexivity. }
  rewrite Hc. simpl. auto.
Qed.

Ltac by_silent :=
  first [ exact (silent_refl _) | exact (silent_trans _) | exact (silent_emit _)
        | exact (silent_stats _) | exact (silent_prompt_continue _)
        | exact (silent_choose_otherwise _) ].

Lemma silent_bind cfg {A B} (c : M A) (k : A -> M B) :
  follows (silent cfg) c -> (forall a, follows (silent cfg) (k a)) ->
  follows (silent cfg) (bind c k).
Proof. apply follows_bind; [apply silent_refl|apply silent_trans]. Qed.

Lemma silent_modify cfg f :
  (forall st, always_continue (f st) = always_continue st
              /\ always_yes_add (f st) = always_yes_add st
              /\ stdin (f st) = stdin st) ->
  follows (silent cfg) (modify f).
Proof. intros Hf st. destruct (Hf st) as (H1 & H2 & H3). apply silent_same; assumption. Qed.

Lemma silent_log cfg e : follows (silent cfg) (log e).
Proof. apply silent_modify. intros st. repeat split. Qed.

Lemma silent_bump cfg f : follows (silent cfg) (bump f).
Proof. apply silent_modify. intros st. repeat split. Qed.

Lemma silent_fatal cfg {A} : follows (silent cfg) (@fatal A).
Proof. intros st. apply silent_same; reflexivity. Qed.

Lemma silent_confirm cfg :
  follows (silent cfg)
    (if CONFIRM_EACH_ADD_DEFAULT cfg then prompt_confirm_add cfg else ret true).
Proof.
  intros st H. destruct (CONFIRM_EACH_ADD_DEFAULT cfg) eqn:Hc; [|simpl; auto].
  unfold prompt_confirm_add.
  destruct (AUTO_ADD cfg) eqn:Ha; [simpl; auto|].
  destruct (always_yes_add st) eqn:Hy; [simpl; auto|].
  destruct H as [_ [H|[H|H]]]; congruence.
Qed.

Lemma silent_add_movie cfg w idx m : follows (silent cfg) (add_movie w idx m).
Proof.
  apply silent_bind; [apply silent_log|]. intros _.
  destruct (on_add w idx m) as [code|]; [|intros st; apply silent_refl].
  destruct (code =? 401); [apply silent_fatal|intros st; apply silent_refl].
Qed.

Lemma silent_continue_or_abort cfg : follows (silent cfg) (continue_or_abort cfg).
Proof. apply follows_continue_or_abort; by_silent. Qed.

Lemma silent_handle_selected w cfg idx m :
  follows (silent cfg) (handle_selected w cfg idx m).
Proof.
  unfold handle_selected. destruct (truthy_id m) as [tmdb|].
  - apply silent_bind; [intros st; apply silent_refl|]. intros [].
    + apply silent_bind; [apply silent_bump|]. intros _. apply silent_log.
    + destruct (DRY_RUN cfg).
      * apply silent_bind; [apply silent_bump|]. intros _.
        apply silent_bind; [apply silent_modify; intros st; repeat split|]. intros _.
        apply silent_bind; [apply silent_modify; intros st; repeat split|]. intros _.
        apply silent_log.
      * apply silent_bind; [apply silent_confirm|]. intros [].
        -- apply silent_bind; [apply silent_add_movie|]. intros code.
           destruct (_ || _).
           ++ apply silent_bind; [apply silent_bump|]. intros _.
              apply silent_bind; [apply silent_bump|]. intros _.
              apply silent_bind; [apply silent_modify; intros st; repeat split|].
              intros _. apply silent_log.
           ++ apply silent_bind; [apply silent_bump|]. intros _.
              apply silent_bind; [apply silent_log|]. intros _.
              apply silent_continue_or_abort.
        -- apply silent_bind; [apply silent_bump|]. intros _. apply silent_log.
  - apply silent_bind; [apply silent_bump|]. intros _.
    apply silent_bind; [apply silent_log|]. intros _.
    apply silent_continue_or_abort.
Qed.

Lemma silent_try_line w cfg idx term desired_year :
  follows (silent cfg) (try_line w cfg idx term desired_year).
Proof.
  unfold try_line.
  apply silent_bind; [apply follows_lookup with (cfg := cfg); by_silent|].
  intros [|first rest].
  - apply silent_bind; [apply silent_bump|]. intros _.
    apply silent_bind; [apply silent_log|]. intros _.
    apply silent_continue_or_abort.
  - apply silent_bind; [apply follows_choose_from_results; by_silent|].
    intros [m| |].
    + apply silent_handle_selected.
    + apply silent_bind; [apply silent_bump|]. intros _.
      apply silent_bind; [apply silent_log|]. intros _.
      apply silent_continue_or_abort.
    + apply silent_fatal.
Qed.

Lemma on_exception_unattended cfg idx st :
  unattended cfg st ->
  on_exception cfg idx st
  = (Ret tt, emit (LogLine (idx + 1) FAIL) (set_stats (inc_errors (stats st)) st)).
Proof.
  intros H. unfold on_exception, continue_or_abort, bind, bump, log, modify.
  cbn beta iota.
  rewrite prompt_continue_unattended; [reflexivity|exact H].
Qed.

Lemma loop_body_unattended w cfg movies idx st :
  unattended cfg st -> py_index movies idx <> None ->
  let res := loop_body w cfg movies idx st in
  fst res <> Raise /\ unattended cfg (snd res) /\ stdin (snd res) = stdin st.
Proof.
  intros Hu Hidx. cbv zeta. unfold loop_body.
  destruct (py_index movies idx) as [term|]; [|congruence].
  set (ok := on_write w (writes st)).
  set (st1 := set_stats (inc_processed (stats st))
                (emit (Saved (idx + 1) ok)
                   (set_file (after_write ok (idx + 1) (state_file st))
                      (S (writes st)) st))).
  set (line := try_except (try_line w cfg idx term (snd (parse_title_year term)))
                          (on_exception cfg idx)).
  assert (H1 : unattended cfg st1) by exact Hu.
  change ((save_state w (idx + 1) ;;; bump inc_processed ;;;
           stop <- gets (cap_reached cfg) ;;
           if (stop : bool) then log LogStop ;;; ret Break else line ;;; ret Next) st)
    with ((if cap_reached cfg st then log LogStop ;;; ret Break
           else line ;;; ret Next) st1).
  destruct (cap_reached cfg st).
  - split; [discriminate|]. split; [exact Hu|reflexivity].
  - rewrite bind_at. subst line. unfold try_except.
    pose proof (silent_try_line w cfg idx term (snd (parse_title_year term)) st1 H1)
      as [Hu2 Hin2].
    destruct (try_line w cfg idx term (snd (parse_title_year term)) st1)
      as [[[]| |] st2]; cbn [fst snd] in *.
    + split; [discriminate|]. split; [exact Hu2|exact Hin2].
    + rewrite (on_exception_unattended cfg idx st2 Hu2). cbn [fst snd].
      split; [discriminate|]. split; [exact Hu2|exact Hin2].
    + split; [discriminate|]. split; [exact Hu2|exact Hin2].
Qed.

Lemma for_each_unattended w cfg movies idxs : forall st,
  unattended cfg st ->
  (forall idx, In idx idxs -> py_index movies idx <> None) ->
  let res := for_each idxs (loop_body w cfg movies) st in
  fst res <> Raise /\ unattended cfg (snd res) /\ stdin (snd res) = stdin st.
Proof.
  induction idxs as [|idx rest IH]; intros st Hu Hall; cbv zeta.
  - simpl. split; [discriminate|]. split; [exact Hu|reflexivity].
  - cbn [for_each].
    destruct (loop_body_unattended w cfg movies idx st Hu
                (Hall idx (or_introl eq_refl))) as (Hr & Hu1 & Hin1).
    destruct (loop_body w cfg movies idx st) as [[[]| |] st1]; cbn [fst snd] in *;
      try (split; [discriminate|]; split; assumption); [|congruence].
    destruct (IH st1 Hu1 (fun i Hi => Hall i (or_intror Hi))) as (Hr' & Hu' & Hin').
    split; [exact Hr'|]. split; [exact Hu'|congruence].
Qed.

Lemma py_index_in_range movies idx :
  - Z.of_nat (length movies) <= idx < Z.of_nat (length movies) ->
  py_index movies idx <> None.
Proof.
  intros Hr. unfold py_index.
  destruct (Z.leb_spec 0 idx).
  - replace (idx <? Z.of_nat (length movies)) with true by (symmetry; apply Z.ltb_lt; lia).
    simpl. apply nth_error_Some. lia.
  - simpl.
    replace (- Z.of_nat (length movies) <=? idx) with true
      by (symmetry; apply Z.leb_le; lia).
    replace (idx <? 0) with true by (symmetry; apply Z.ltb_lt; lia).
    simpl. apply nth_error_Some. lia.
Qed.

Lemma py_range_bounds a b idx : In idx (py_range a b) -> a <= idx < b.
Proof.
  unfold py_range. intros H. apply in_map_iff in H as (k & <- & Hk).
  apply in_seq in Hk. lia.
Qed.

(** *** An unattended run goes through *)

Lemma goes_on_bind cfg {A B} (c : M A) (k : A -> M B) (P : A -> Prop) (Q : B -> Prop) :
  follows (silent cfg) c -> goes_on cfg c P ->
  (forall a, P a -> goes_on cfg (k a) Q) ->
  goes_on cfg (bind c k) Q.
Proof.
  intros Hs Hc Hk st Hu. unfold bind. specialize (Hs st Hu). specialize (Hc st Hu).
  destruct (c st) as [[a| |] st1]; cbn [fst snd] in *; auto.
  apply (Hk a Hc st1). tauto.
Qed.

Lemma goes_on_any cfg {A} (c : M A) :
  (forall st, fst (c st) <> Exit) -> goes_on cfg c (fun _ => True).
Proof.
  intros Hc st _. specialize (Hc st). destruct (fst (c st)); [exact I|exact I|congruence].
Qed.

Lemma goes_on_continue_or_abort cfg :
  goes_on cfg (continue_or_abort cfg) (fun _ => True).
Proof.
  intros st Hu. unfold continue_or_abort, bind.
  rewrite (prompt_continue_unattended cfg st Hu). exact I.
Qed.

Lemma goes_on_issue cfg f e :
  goes_on cfg (bump f ;;; log e ;;; continue_or_abort cfg) (fun _ => True).
Proof.
  apply (goes_on_bind cfg _ _ (fun _ => True)); [apply silent_bump| |].
  - apply goes_on_any. discriminate.
  - intros _ _. apply (goes_on_bind cfg _ _ (fun _ => True)); [apply silent_log| |].
    + apply goes_on_any. discriminate.
    + intros _ _. apply goes_on_continue_or_abort.
Qed.

Lemma goes_on_lookup cfg w idx term :
  authorized w -> goes_on cfg (lookup w idx term) (fun _ => True).
Proof.
  intros [Hl _] st _. unfold lookup, bind, log, modify. cbn beta iota.
  specialize (Hl idx term). destruct (on_lookup w idx term); [exact I|congruence|exact I].
Qed.

Lemma goes_on_add_movie cfg w idx m :
  authorized w -> goes_on cfg (add_movie w idx m) (fun _ => True).
Proof.
  intros [_ Ha] st _. unfold add_movie, bind, log, modify. cbn beta iota.
  specialize (Ha idx m). destruct (on_add w idx m) as [code|]; [|exact I].
  destruct (Z.eqb_spec code 401) as [->|_]; [congruence|exact I].
Qed.

Lemma goes_on_engine cfg term results desired_year :
  goes_on cfg (choose_from_results cfg term results desired_year)
    (fun selected => selected <> ABORT).
Proof.
  assert (Hfrom : forall filtered,
            goes_on cfg (choose_from cfg term filtered desired_year)
              (fun selected => selected <> ABORT)).
  { intros filtered st Hu. unfold choose_from.
    destruct filtered as [|first rest]; [discriminate|].
    destruct (shortcut_applies _ _ _).
    - destruct (exact_title _ _); [exact I|discriminate].
    - unfold choose_otherwise.
      assert (Hc : INTERACTIVE_ON_ISSUES cfg && negb (always_continue st) = false).
      { destruct Hu as [[H|H] _]; rewrite H; simpl; rewrite ?andb_false_r; reflexivity. }
      rewrite Hc. discriminate. }
  unfold choose_from_results.
  destruct desired_year as [y|]; [|apply Hfrom].
  destruct (STRICT_YEAR_MATCH cfg); [|apply Hfrom].
  destruct (year_matches y results); [|apply Hfrom].
  intros st Hu. unfold bind, log, modify. cbn beta iota.
  rewrite (prompt_continue_unattended cfg (emit (LogYearMiss term y) st) Hu).
  apply Hfrom. exact Hu.
Qed.

Lemma goes_on_handle_selected w cfg idx m :
  authorized w -> goes_on cfg (handle_selected w cfg idx m) (fun _ => True).
Proof.
  intros Hw. unfold handle_selected. destruct (truthy_id m) as [tmdb|].
  2:{ apply goes_on_issue. }
  apply (goes_on_bind cfg _ _ (fun _ => True)); [intros st; apply silent_refl| |].
  { apply goes_on_any. discriminate. }
  intros [] _.
  { apply goes_on_any. discriminate. }
  destruct (DRY_RUN cfg).
  { apply goes_on_any. discriminate. }
  apply (goes_on_bind cfg _ _ (fun _ => True)); [apply silent_confirm| |].
  { apply goes_on_any. intros st.
    destruct (CONFIRM_EACH_ADD_DEFAULT cfg); [|discriminate].
    unfold prompt_confirm_add. destruct (AUTO_ADD cfg); [discriminate|].
    destruct (always_yes_add st); [discriminate|].
    destruct (read_confirm (stdin st)) as [[[]|] rest]; discriminate. }
  intros [] _.
  2:{ apply goes_on_any. discriminate. }
  apply (goes_on_bind cfg _ _ (fun _ => True));
    [apply silent_add_movie|apply goes_on_add_movie, Hw|].
  intros code _. destruct (_ || _).
  - apply goes_on_any. discriminate.
  - apply goes_on_issue.
Qed.

Lemma goes_on_try_line w cfg idx term desired_year :
  authorized w -> goes_on cfg (try_line w cfg idx term desired_year) (fun _ => True).
Proof.
  intros Hw. unfold try_line.
  apply (goes_on_bind cfg _ _ (fun _ => True));
    [apply follows_lookup with (cfg := cfg); by_silent|apply goes_on_lookup, Hw|].
  intros [|first rest] _; [apply goes_on_issue|].
  apply (goes_on_bind cfg _ _ (fun selected => selected <> ABORT));
    [apply follows_choose_from_results; by_silent|apply goes_on_engine|].
  intros [m| |] Hsel; [apply goes_on_handle_selected, Hw|apply goes_on_issue|congruence].
Qed.

Lemma loop_body_goes_on w cfg movies idx st :
  authorized w -> unattended cfg st -> py_index movies idx <> None ->
  exists next, fst (loop_body w cfg movies idx st) = Ret next.
Proof.
  intros Hw Hu Hidx. unfold loop_body.
  destruct (py_index movies idx) as [term|]; [|congruence].
  set (st1 := set_stats (inc_processed (stats st)) (snd (save_state w (idx + 1) st))).
  set (line := try_except (try_line w cfg idx term (snd (parse_title_year term)))
                          (on_exception cfg idx)).
  assert (H1 : unattended cfg st1) by exact Hu.
  change ((save_state w (idx + 1) ;;; bump inc_processed ;;;
           stop <- gets (cap_reached cfg) ;;
           if (stop : bool) then log LogStop ;;; ret Break else line ;;; ret Next) st)
    with ((if cap_reached cfg st then log LogStop ;;; ret Break
           else line ;;; ret Next) st1).
  destruct (cap_reached cfg st); [exists Break; reflexivity|].
  rewrite bind_at. subst line. unfold try_except.
  pose proof (goes_on_try_line w cfg idx term (snd (parse_title_year term)) Hw st1 H1)
    as Hgo.
  pose proof (silent_try_line w cfg idx term (snd (parse_title_year term)) st1 H1)
    as [Hu2 _].
  destruct (try_line w cfg idx term (snd (parse_title_year term)) st1)
    as [[[]| |] st2]; cbn [fst snd] in *.
  - exists Next. reflexivity.
  - rewrite (on_exception_unattended cfg idx st2 Hu2). exists Next. reflexivity.
  - destruct Hgo.
Qed.

Lemma for_each_goes_on w cfg movies idxs : forall st,
  authorized w -> unattended cfg st ->
  (forall idx, In idx idxs -> py_index movies idx <> None) ->
  fst (for_each idxs (loop_body w cfg movies) st) = Ret tt.
Proof.
  induction idxs as [|idx rest IH]; intros st Hw Hu Hall; [reflexivity|].
  cbn [for_each].
  destruct (loop_body_goes_on w cfg movies idx st Hw Hu (Hall idx (or_introl eq_refl)))
    as (next & Hnext).
  destruct (loop_body_unattended w cfg movies idx st Hu (Hall idx (or_introl eq_refl)))
    as (_ & Hu1 & _).
  destruct (loop_body w cfg movies idx st) as [r st1]. cbn [fst snd] in *. subst r.
  destruct next; [|reflexivity].
  apply IH; [exact Hw|exact Hu1|]. intros i Hi. apply Hall. right. exact Hi.
Qed.

(** X7. With issue prompts switched off and add confirmations off or
    automatic, a run that starts at a valid line reads nothing from the
    console and never ends in an uncaught exception.  When in addition the
    library listing succeeds and no request is answered with 401, the run
    returns, and unless the cap has stopped it the outcome of every line
    from the start index on is in the log: a failing lookup or add does not
    end the loop. *)
Theorem unattended_run_reads_nothing :
  forall w cfg movies disk console start,
    INTERACTIVE_ON_ISSUES cfg = false ->
    CONFIRM_EACH_ADD_DEFAULT cfg = false \/ AUTO_ADD cfg = true ->
    fst (start_index (initial_state disk console)) = Ret start ->
    - Z.of_nat (length movies) <= start ->
    let res := main w cfg movies (initial_state disk console) in
    fst res <> Raise /\ stdin (snd res) = console
    /\ (authorized w -> on_library w <> None ->
          fst res = Ret tt
          /\ (~ In LogStop (trace (snd res)) ->
                forall j, start <= j < Z.of_nat (length movies) ->
                  handled j (trace (snd res)))).
Proof.
  intros w cfg movies disk console start Hint Hconf Hs Hstart res.
  assert (Hfirst : fst res <> Raise /\ stdin (snd res) = console).
  { subst res. rewrite (main_unfold _ _ _ _ _ _ Hs).
    destruct (on_library w) as [library|]; [|split; [discriminate|reflexivity]].
    unfold import_from. rewrite bind_at.
    set (st0 := set_existing (get_existing_tmdb_ids library) (initial_state disk console)).
    assert (Hu : unattended cfg st0).
    { split; [left; exact Hint|]. destruct Hconf; auto. }
    destruct (for_each_unattended w cfg movies
                (py_range start (Z.of_nat (length movies))) st0 Hu)
      as (Hr & _ & Hin).
    { intros idx Hidx. apply py_range_bounds in Hidx.
      apply py_index_in_range. lia. }
    destruct (for_each _ _ st0) as [[[]| |] st1]; cbn [fst snd] in *;
      split; try discriminate; try exact Hin. congruence. }
  split; [apply Hfirst|]. split; [apply Hfirst|].
  intros Hw Hlib.
  assert (Hret : fst res = Ret tt).
  { subst res. rewrite (main_unfold _ _ _ _ _ _ Hs).
    destruct (on_library w) as [library|]; [|congruence].
    unfold import_from. rewrite bind_at.
    set (st0 := set_existing (get_existing_tmdb_ids library) (initial_state disk console)).
    assert (Hu : unattended cfg st0).
    { split; [left; exact Hint|]. destruct Hconf; auto. }
    pose proof (for_each_goes_on w cfg movies
                  (py_range start (Z.of_nat (length movies))) st0 Hw Hu) as Hloop.
    destruct (for_each _ _ st0) as [r st1]. cbn [fst] in Hloop.
    rewrite Hloop; [reflexivity|].
    intros idx Hidx. apply py_range_bounds in Hidx.
    apply py_index_in_range. lia. }
  split; [exact Hret|].
  destruct (main_inv w cfg movies disk console start Hs) as (b & Hinv & Hb).
  fold res in Hinv, Hb. rewrite (Hb Hret) in Hinv.
  apply (inv_handled _ _ _ _ Hinv).
Qed.

Lemma unattended_run_reads_nothing_witness :
  let res := main obliging_world batch_config four_lines
               (initial_state Missing ["typed"%string]) in
  fst res <> Raise /\ stdin (snd res) = ["typed"%string]
  /\ (authorized obliging_world -> on_library obliging_world <> None ->
        fst res = Ret tt
        /\ (~ In LogStop (trace (snd res)) ->
              forall j, 0 <= j < Z.of_nat (length four_lines) ->
                handled j (trace (snd res)))).
Proof.
  apply (unattended_run_reads_nothing obliging_world batch_config four_lines
           Missing ["typed"%string] 0); try reflexivity.
  - right. reflexivity.
  - simpl. lia.
Defined.

(** X8. Once issue prompts are locked to always-continue (or off) and
    add confirmations to always-yes (or off, or automatic), the lines that
    follow are processed without reading the console, the locks stay, and
    no line with a valid index ends the loop with an exception. *)
Theorem locked_prompts_stay_locked :
  forall w cfg movies idxs st,
    unattended cfg st ->
    (forall idx, In idx idxs -> py_index movies idx <> None) ->
    let res := for_each idxs (loop_body w cfg movies) st in
    fst res <> Raise /\ unattended cfg (snd res) /\ stdin (snd res) = stdin st.
Proof. intros w cfg movies idxs st. apply for_each_unattended. Qed.

Lemma locked_prompts_stay_locked_witness :
  let st := set_always_yes_add true
              (set_always_continue true (initial_state Missing ["typed"%string])) in
  let res := for_each [0; 1] (loop_body obliging_world default_config four_lines) st in
  fst res <> Raise /\ unattended default_config (snd res)
  /\ stdin (snd res) = stdin st.
Proof.
  apply (locked_prompts_stay_locked obliging_world default_config four_lines [0; 1]
           (set_always_yes_add true
              (set_always_continue true (initial_state Missing ["typed"%string])))).
  - split; [right; reflexivity|right; right; reflexivity].
  - intros idx [<-|[<-|[]]]; discriminate.
Defined.

(** ** What the resolution returns *)

Lemma firstn_within {A} n (l : list A) x : In x (firstn n l) -> In x l.
Proof.
  intros H. rewrite <- (firstn_skipn n l). apply in_or_app. left. exact H.
Qed.

Lemma disambiguate_member term filtered st m st' :
  disambiguate term filtered st = (Ret (Selected m), st') -> In m filtered.
Proof.
  unfold disambiguate. rewrite bind_at. unfold log, modify. cbn beta iota.
  destruct (read_choice _ _) as [[[]|] rest]; try discriminate.
  - destruct (firstn MAX_CHOICES_TO_SHOW filtered) as [|x xs] eqn:Hs; [discriminate|].
    intros [= <- _]. apply (firstn_within MAX_CHOICES_TO_SHOW). rewrite Hs. left. reflexivity.
  - destruct (nth_error _ i) as [x|] eqn:Hn; [|discriminate].
    intros [= <- _]. apply (firstn_within MAX_CHOICES_TO_SHOW).
    eapply nth_error_In. exact Hn.
Qed.

Lemma choose_from_member cfg term filtered desired_year st m st' :
  choose_from cfg term filtered desired_year st = (Ret (Selected m), st') ->
  In m filtered.
Proof.
  unfold choose_from. destruct filtered as [|first rest]; [discriminate|].
  destruct (shortcut_applies _ _ _).
  - destruct (exact_title term (first :: rest)) as [|x xs] eqn:He; [discriminate|].
    intros [= <- _]. apply (exact_title_within term). rewrite He. left. reflexivity.
  - unfold choose_otherwise. destruct (_ && _).
    + apply disambiguate_member.
    + intros [= <- _]. left. reflexivity.
Qed.

Lemma year_matches_within y results m :
  In m (year_matches y results) -> In m results /\ year m = Some y.
Proof.
  unfold year_matches. intros H. apply List.filter_In in H as [Hin Hy].
  split; [exact Hin|]. unfold year_is in Hy.
  destruct (year m) as [y'|]; [|discriminate]. apply Z.eqb_eq in Hy. congruence.
Qed.

Lemma choose_from_results_cases cfg term results desired_year st m st' :
  choose_from_results cfg term results desired_year st = (Ret (Selected m), st') ->
  exists filtered st0,
    choose_from cfg term filtered desired_year st0 = (Ret (Selected m), st')
    /\ (filtered = results
        \/ exists y, desired_year = Some y /\ STRICT_YEAR_MATCH cfg = true
                     /\ filtered = year_matches y results /\ filtered <> []).
Proof.
  unfold choose_from_results.
  destruct desired_year as [y|]; [|intros H; exists results, st; auto].
  destruct (STRICT_YEAR_MATCH cfg) eqn:Hstrict; [|intros H; exists results, st; auto].
  destruct (year_matches y results) as [|x xs] eqn:Hm.
  - rewrite bind_at. unfold log, modify. cbn beta iota. rewrite bind_at.
    destruct (prompt_continue cfg _) as [[[]| |] st1]; try discriminate.
    intros H. exists results, st1. auto.
  - intros H. exists (x :: xs), st. split; [exact H|]. right. exists y.
    repeat split; auto; discriminate.
Qed.

(** X9. A candidate [choose_from_results] returns is one of the lookup
    results it was given, whatever the operator answers. *)
Theorem selection_is_a_lookup_result :
  forall cfg term results desired_year st m st',
    choose_from_results cfg term results desired_year st = (Ret (Selected m), st') ->
    In m results.
Proof.
  intros cfg term results dy st m st' H.
  apply choose_from_results_cases in H
    as (filtered & st0 & Hc & [->|(y & _ & _ & -> & _)]).
  - eapply choose_from_member. exact Hc.
  - apply choose_from_member in Hc. apply year_matches_within in Hc. tauto.
Qed.

Lemma selection_is_a_lookup_result_witness :
  In (film 2 "Aliens" 1986) [film 1 "Alien" 1979; film 2 "Aliens" 1986].
Proof.
  apply (selection_is_a_lookup_result default_config "Ali"
           [film 1 "Alien" 1979; film 2 "Aliens" 1986] None
           (initial_state Missing ["1"%string]) (film 2 "Aliens" 1986)
           (set_stdin [] (emit (LogAmbig "Ali" [film 1 "Alien" 1979; film 2 "Aliens" 1986])
                            (initial_state Missing ["1"%string])))).
  reflexivity.
Defined.

(** X10. With strict year matching, a desired year and at least one
    candidate of that year, a candidate that is returned has that year,
    whatever its title and whatever the operator picks. *)
Theorem strict_year_is_respected :
  forall cfg term results y st m st',
    STRICT_YEAR_MATCH cfg = true ->
    year_matches y results <> [] ->
    choose_from_results cfg term results (Some y) st = (Ret (Selected m), st') ->
    year m = Some y.
Proof.
  intros cfg term results y st m st' Hstrict Hsome H.
  unfold choose_from_results in H. rewrite Hstrict in H.
  destruct (year_matches y results) as [|x xs] eqn:Hm; [congruence|].
  apply choose_from_member in H. rewrite <- Hm in H.
  apply year_matches_within in H. tauto.
Qed.

Lemma strict_year_is_respected_witness :
  year (film 2 "Alien" 1999) = Some 1999.
Proof.
  apply (strict_year_is_respected default_config "Alien (1999)"
           [film 1 "Alien" 2001; film 2 "Alien" 1999] 1999
           (initial_state Missing []) (film 2 "Alien" 1999) (initial_state Missing []));
    [reflexivity|discriminate|reflexivity].
Defined.

(** X11. With strict year matching and a desired year, when no prompt
    can come up (prompts off, or locked to always-continue, or a single
    candidate of that year), the first candidate of that year in lookup
    order is returned at once, whatever the titles. *)
Theorem first_year_match_wins :
  forall cfg term results y first rest st,
    STRICT_YEAR_MATCH cfg = true ->
    year_matches y results = first :: rest ->
    INTERACTIVE_ON_ISSUES cfg = false \/ always_continue st = true \/ rest = [] ->
    choose_from_results cfg term results (Some y) st = (Ret (Selected first), st).
Proof.
  intros cfg term results y first rest st Hstrict Hm Hquiet.
  unfold choose_from_results. rewrite Hstrict, Hm.
  unfold choose_from. rewrite shortcut_never_with_year.
  unfold choose_otherwise.
  destruct Hquiet as [H|[H| ->]]; rewrite ?H; simpl;
    rewrite ?andb_false_r; reflexivity.
Qed.

Lemma first_year_match_wins_witness :
  choose_from_results batch_config "Alien (1979)"
    [film 1 "Alien" 1980; film 2 "Alien Nation" 1979; film 3 "Alien" 1979]
    (Some 1979) (initial_state Missing [])
  = (Ret (Selected (film 2 "Alien Nation" 1979)), initial_state Missing []).
Proof.
  apply (first_year_match_wins batch_config "Alien (1979)"
           [film 1 "Alien" 1980; film 2 "Alien Nation" 1979; film 3 "Alien" 1979]
           1979 (film 2 "Alien Nation" 1979) [film 3 "Alien" 1979]
           (initial_state Missing [])); try reflexivity.
  left. reflexivity.
Defined.

(** ** Saving and loading the resume state *)

(** X12. What [save_state(n)] writes is read back as [n] by the next
    start.  A write that fails before the file is opened leaves the file
    and the next start as they were; a write that fails once the file is
    opened leaves no JSON text behind, and the next start is line 0
    whatever the file held before. *)
Theorem save_state_round_trip :
  forall w n st,
    let st' := snd (save_state w n st) in
    (on_write w (writes st) = Written ->
       state_file st' = saved_index n /\ fst (start_index st') = Ret n)
    /\ (on_write w (writes st) = NotOpened ->
          state_file st' = state_file st
          /\ fst (start_index st') = fst (start_index st))
    /\ (on_write w (writes st) = CutShort ->
          state_file st' = NotJson /\ fst (start_index st') = Ret 0).
Proof.
  intros w n st st'. subst st'. unfold save_state, start_index. cbn [snd].
  split; [|split]; intros Hw; rewrite Hw; cbn [state_file emit set_file after_write].
  - split; reflexivity.
  - split; [reflexivity|]. destruct (py_int _); reflexivity.
  - split; reflexivity.
Qed.

Lemma save_state_round_trip_witness :
  fst (start_index (snd (save_state obliging_world 7 (initial_state Missing []))))
  = Ret 7
  /\ fst (start_index (snd (save_state filling_world 7
                              (snd (save_state filling_world 6
                                      (initial_state Missing []))))))
     = Ret 0.
Proof.
  split.
  - apply (proj1 (save_state_round_trip obliging_world 7 (initial_state Missing []))).
    reflexivity.
  - apply (proj2 (proj2 (save_state_round_trip filling_world 7
                           (snd (save_state filling_world 6
                                   (initial_state Missing [])))))).
    reflexivity.
Defined.

Lemma int_rstrip_keeps_head c r :
  int_space c = false -> exists r', int_rstrip (String c r) = String c r'.
Proof.
  intros Hc. simpl. destruct (int_rstrip r); [rewrite Hc|]; eauto.
Qed.

(** A separator U+001C..U+001F in front of the digits: [str.strip] would
    remove it, [int()] does not and raises. *)
Lemma int_of_str_separator c r :
  (28 <= ord c <= 31)%nat -> int_of_str (String c r) = None.
Proof.
  intros Hc.
  assert (Hcases : c = ascii_of_nat 28 \/ c = ascii_of_nat 29
                   \/ c = ascii_of_nat 30 \/ c = ascii_of_nat 31).
  { rewrite <- (ascii_nat_embedding c). fold (ord c).
    assert (H : (ord c = 28 \/ ord c = 29 \/ ord c = 30 \/ ord c = 31)%nat) by lia.
    destruct H as [-> |[-> |[-> | ->]]]; tauto. }
  assert (Hfacts : int_space c = false /\ Ascii.eqb c "+" = false
                   /\ Ascii.eqb c "-" = false /\ isdecimal c = false
                   /\ Ascii.eqb c "_" = false).
  { destruct Hcases as [-> |[-> |[-> | ->]]]; repeat split; reflexivity. }
  destruct Hfacts as (Hs & Hp & Hm & Hd & Hu).
  unfold int_of_str. cbn [int_lstrip]. rewrite Hs.
  destruct (int_rstrip_keeps_head c r Hs) as (r' & ->).
  rewrite Hp, Hm. unfold int_number.
  destruct (MAX_STR_DIGITS <? _); [reflexivity|].
  cbn [int_body]. rewrite Hd, Hu. reflexivity.
Qed.

(** X13. A state file of an older version, a JSON object without
    [next_index] but with [last_index], resumes at the number [last_index]
    converts to, and at line 0 when the conversion fails, as it does for a
    string that starts with one of the separators U+001C..U+001F; a JSON
    object with neither key resumes at line 0. *)
Theorem legacy_state_is_honoured :
  forall items st,
    state_file st = Json (JDict items) ->
    has_key "next_index" items = false ->
    (forall v, dict_get "last_index" items = Some v ->
       fst (start_index st) = Ret (default 0 (py_int v)))
    /\ (forall c r, dict_get "last_index" items = Some (JStr (String c r)) ->
          (28 <= ord c <= 31)%nat -> fst (start_index st) = Ret 0)
    /\ (dict_get "last_index" items = None -> fst (start_index st) = Ret 0).
Proof.
  intros items st Hf Hn.
  assert (Hlast : forall v, dict_get "last_index" items = Some v ->
                    fst (start_index st) = Ret (default 0 (py_int v))).
  { intros v Hv. unfold start_index, load_state. rewrite Hf, Hn.
    unfold has_key, get_default. rewrite Hv. destruct (py_int v) as [k|]; reflexivity. }
  split; [exact Hlast|]. split.
  - intros c r Hv Hc. rewrite (Hlast _ Hv). cbn [py_int].
    rewrite (int_of_str_separator c r Hc). reflexivity.
  - intros Hv. unfold start_index, load_state. rewrite Hf, Hn.
    unfold has_key in *. unfold get_default. rewrite Hv.
    destruct (dict_get "next_index" items); [discriminate|reflexivity].
Qed.

Lemma legacy_state_is_honoured_witness :
  fst (start_index (initial_state (Json (JDict [("last_index"%string, JStr " 12 ")])) []))
  = Ret (default 0 (py_int (JStr " 12 ")))
  /\ fst (start_index
            (initial_state
               (Json (JDict [("last_index"%string,
                              JStr (String (ascii_of_nat 28) "8"))])) []))
     = Ret 0.
Proof.
  split.
  - apply (proj1 (legacy_state_is_honoured [("last_index"%string, JStr " 12 ")]
                    (initial_state (Json (JDict [("last_index"%string, JStr " 12 ")])) [])
                    eq_refl eq_refl)).
    reflexivity.
  - apply (proj1 (proj2 (legacy_state_is_honoured
                           [("last_index"%string, JStr (String (ascii_of_nat 28) "8"))]
                           (initial_state
                              (Json (JDict [("last_index"%string,
                                             JStr (String (ascii_of_nat 28) "8"))])) [])
                           eq_refl eq_refl)) (ascii_of_nat 28) "8"%string eq_refl).
    change (28 <= 28 <= 31)%nat. lia.
Defined.

Lemma import_from_done w cfg movies start st :
  fst (import_from w cfg movies start st) = Ret tt ->
  exists st1,
    import_from w cfg movies start st
    = save_state w (Z.of_nat (length movies)) st1.
Proof.
  unfold import_from. rewrite bind_at.
  destruct (for_each _ _ st) as [[[]| |] st1]; try discriminate.
  intros _. exists st1. reflexivity.
Qed.

Lemma main_on_finished_file w cfg movies console library :
  on_library w = Some library ->
  let again := main w cfg movies
                 (initial_state (saved_index (Z.of_nat (length movies))) console) in
  fst again = Ret tt
  /\ trace (snd again) = [Saved (Z.of_nat (length movies)) (on_write w 0)]
  /\ stats (snd again) = zero_stats
  /\ existing_tmdb (snd again) = get_existing_tmdb_ids library.
Proof.
  intros Hlib again. subst again.
  rewrite (main_unfold w cfg movies (saved_index (Z.of_nat (length movies))) console
             (Z.of_nat (length movies)) eq_refl), Hlib.
  unfold import_from. rewrite py_range_empty by lia.
  repeat split; reflexivity.
Qed.

(** X14. When a run completes and its last write of the state file
    succeeds, the file holds the number of lines; a further run on the
    same list then looks up nothing, adds nothing and only rewrites that
    number. *)
Theorem completed_run_leaves_nothing_to_do :
  forall w cfg movies disk console w' cfg' console' library,
    fst (main w cfg movies (initial_state disk console)) = Ret tt ->
    (forall k, on_write w k = Written) ->
    on_library w' = Some library ->
    let final := snd (main w cfg movies (initial_state disk console)) in
    let again := main w' cfg' movies (initial_state (state_file final) console') in
    state_file final = saved_index (Z.of_nat (length movies))
    /\ fst again = Ret tt
    /\ trace (snd again) = [Saved (Z.of_nat (length movies)) (on_write w' 0)]
    /\ stats (snd again) = zero_stats.
Proof.
  intros w cfg movies disk console w' cfg' console' library Hret Hw Hlib final again.
  assert (Hfile : state_file final = saved_index (Z.of_nat (length movies))).
  { subst final.
    destruct (fst (start_index (initial_state disk console))) as [start| |] eqn:Hs.
    - rewrite (main_unfold _ _ _ _ _ _ Hs) in Hret |- *.
      destruct (on_library w) as [lib|]; [|discriminate].
      destruct (import_from_done _ _ _ _ _ Hret) as (st1 & ->).
      unfold save_state. cbn [snd state_file emit set_file]. rewrite Hw. reflexivity.
    - rewrite main_without_start in Hret by exact Hs. discriminate.
    - unfold start_index in Hs. destruct (py_int _); discriminate. }
  split; [exact Hfile|]. subst again. rewrite Hfile.
  destruct (main_on_finished_file w' cfg' movies console' library Hlib)
    as (H1 & H2 & H3 & _).
  auto.
Qed.

Lemma completed_run_leaves_nothing_to_do_witness :
  let final := snd (main obliging_world auto_config four_lines (initial_state Missing [])) in
  let again := main obliging_world auto_config four_lines
                 (initial_state (state_file final) []) in
  state_file final = saved_index (Z.of_nat (length four_lines))
  /\ fst again = Ret tt
  /\ trace (snd again)
     = [Saved (Z.of_nat (length four_lines)) (on_write obliging_world 0)]
  /\ stats (snd again) = zero_stats.
Proof.
  apply (completed_run_leaves_nothing_to_do obliging_world auto_config four_lines
           Missing [] obliging_world auto_config [] []).
  - vm_compute. reflexivity.
  - intros k. reflexivity.
  - reflexivity.
Defined.

(** ** Failures of the lookup *)

Lemma continue_or_abort_raises cfg st :
  fst (continue_or_abort cfg st) = Raise -> fst (prompt_continue cfg st) = Raise.
Proof.
  unfold continue_or_abort, bind.
  destruct (prompt_continue cfg st) as [[[]| |] st1]; simpl; congruence.
Qed.

Lemma on_exception_stats cfg idx st :
  stats (snd (on_exception cfg idx st)) = inc_errors (stats st).
Proof.
  change (on_exception cfg idx st)
    with (continue_or_abort cfg
            (emit (LogLine (idx + 1) FAIL) (set_stats (inc_errors (stats st)) st))).
  destruct (continue_or_abort_effect cfg
              (emit (LogLine (idx + 1) FAIL) (set_stats (inc_errors (stats st)) st)))
    as (-> & _).
  reflexivity.
Qed.

Lemma prompt_continue_same_input cfg a b :
  always_continue a = always_continue b -> stdin a = stdin b ->
  fst (prompt_continue cfg a) = fst (prompt_continue cfg b).
Proof.
  intros Hl Hi. unfold prompt_continue. rewrite Hl, Hi.
  destruct (negb (INTERACTIVE_ON_ISSUES cfg) || always_continue b); [reflexivity|].
  destruct (read_continue (stdin b)) as [[[]|] rest]; reflexivity.
Qed.

(** X15. A lookup that fails without a 401 is handled by the exception
    branch: [FAIL] is logged and the error counter goes up by one, no
    other counter moves.  An empty result is a miss: [MISS] is logged and
    the miss counter goes up by one; no other counter moves unless the
    issue prompt itself finds the console closed.  A 401 ends the process
    at once: no counter moves and the exception branch does not run. *)
Theorem lookup_failures_are_told_apart :
  forall w cfg idx term desired_year st,
    let line := try_except (try_line w cfg idx term desired_year)
                           (on_exception cfg idx) in
    let sent := emit (HttpLookup idx term) st in
    (on_lookup w idx term = LookupFailed ->
       line st = continue_or_abort cfg
                   (emit (LogLine (idx + 1) FAIL)
                      (set_stats (inc_errors (stats sent)) sent))
       /\ counts_up (Stats 0 0 0 0 1 0 0) (stats st) (stats (snd (line st))))
    /\ (on_lookup w idx term = LookupOk [] ->
          line st = try_except
                      (continue_or_abort cfg)
                      (on_exception cfg idx)
                      (emit (LogLine (idx + 1) MISS)
                         (set_stats (inc_misses (stats sent)) sent))
          /\ misses (stats (snd (line st))) = misses (stats st) + 1
          /\ (fst (prompt_continue cfg st) <> Raise ->
                counts_up (Stats 0 0 0 1 0 0 0) (stats st) (stats (snd (line st)))))
    /\ (on_lookup w idx term = LookupUnauthorized ->
          line st = (Exit, emit LogFatal sent)
          /\ stats (snd (line st)) = stats st).
Proof.
  intros w cfg idx term dy st line sent.
  split; [|split]; intros H.
  - assert (Hline : line st = continue_or_abort cfg
                                (emit (LogLine (idx + 1) FAIL)
                                   (set_stats (inc_errors (stats sent)) sent))).
    { subst line sent. unfold try_except, try_line, lookup.
      rewrite !bind_at. unfold log, modify. cbn beta iota. rewrite H. reflexivity. }
    split; [exact Hline|]. rewrite Hline.
    destruct (continue_or_abort_effect cfg
                (emit (LogLine (idx + 1) FAIL)
                   (set_stats (inc_errors (stats sent)) sent))) as (-> & _).
    unfold counts_up. cbn. repeat split; lia.
  - set (missed := emit (LogLine (idx + 1) MISS)
                     (set_stats (inc_misses (stats sent)) sent)).
    assert (Hline : line st = try_except (continue_or_abort cfg)
                                (on_exception cfg idx) missed).
    { subst line sent missed. unfold try_except, try_line, lookup.
      rewrite !bind_at. unfold log, modify. cbn beta iota. rewrite H. reflexivity. }
    split; [exact Hline|]. rewrite Hline. unfold try_except.
    destruct (continue_or_abort_effect cfg missed) as (Hs & _).
    pose proof (continue_or_abort_raises cfg missed) as Hraise.
    destruct (continue_or_abort cfg missed) as [[[]| |] st1]; cbn [fst snd] in *.
    + rewrite Hs. split; [cbn; lia|]. intros _. unfold counts_up. cbn. repeat split; lia.
    + rewrite on_exception_stats, Hs.
      split; [cbn; lia|]. intros Hno. exfalso. apply Hno.
      rewrite <- (Hraise eq_refl). apply prompt_continue_same_input; reflexivity.
    + rewrite Hs. split; [cbn; lia|]. intros _. unfold counts_up. cbn. repeat split; lia.
  - assert (Hline : line st = (Exit, emit LogFatal sent)).
    { subst line sent. unfold try_except, try_line, lookup.
      rewrite !bind_at. unfold log, modify. cbn beta iota. rewrite H. reflexivity. }
    split; [exact Hline|]. rewrite Hline. reflexivity.
Qed.

Lemma lookup_failures_are_told_apart_witness :
  try_except (try_line rejecting_world default_config 0 "A" None)
             (on_exception default_config 0) (initial_state Missing [])
  = (Exit, emit LogFatal (emit (HttpLookup 0 "A") (initial_state Missing [])))
  /\ stats (snd (try_except (try_line rejecting_world default_config 0 "A" None)
                   (on_exception default_config 0) (initial_state Missing [])))
     = stats (initial_state Missing []).
Proof.
  apply (lookup_failures_are_told_apart rejecting_world default_config 0 "A" None
           (initial_state Missing [])).
  reflexivity.
Defined.

(** ** Picking from a list *)

Lemma read_index_consumes n inp : forall r rest,
  read_index n inp = (r, rest) -> exists typed, inp = typed ++ rest.
Proof.
  induction inp as [|l inp IH]; intros r rest; simpl.
  - intros [= _ <-]. exists []. reflexivity.
  - destruct (isdigit (strip l)).
    + destruct (int_digits (strip l)) as [i|].
      * destruct (i <? Z.of_nat n).
        -- intros [= _ <-]. exists [l]. reflexivity.
        -- intros H. destruct (IH _ _ H) as (typed & ->). exists (l :: typed). reflexivity.
      * intros [= _ <-]. exists [l]. reflexivity.
    + intros H. destruct (IH _ _ H) as (typed & ->). exists (l :: typed). reflexivity.
Qed.

(** X16. [choose_from_list] ends the process on an empty list without
    reading anything; what it returns otherwise is an item of the list,
    and the input left is what follows the lines it read. *)
Theorem choose_from_list_returns_an_item :
  forall (A : Type) (items : list A) console,
    (items = [] -> choose_from_list items console = (Exit, console))
    /\ (forall x rest, choose_from_list items console = (Ret x, rest) ->
          In x items /\ exists typed, console = typed ++ rest).
Proof.
  intros A items console. split; [intros ->; reflexivity|].
  intros x rest. unfold choose_from_list.
  destruct items as [|a items']; [discriminate|].
  destruct (read_index _ console) as [[[i|]|] rest'] eqn:Hr; try discriminate.
  destruct (nth_error (a :: items') i) as [y|] eqn:Hn; [|discriminate].
  intros [= <- <-]. split; [eapply nth_error_In; exact Hn|].
  eapply read_index_consumes. exact Hr.
Qed.

Lemma choose_from_list_returns_an_item_witness :
  choose_from_list ([] : list string) ["0"%string] = (Exit, ["0"%string])
  /\ In "b"%string ["a"; "b"]%string.
Proof.
  split.
  - apply (proj1 (choose_from_list_returns_an_item string [] ["0"%string])).
    reflexivity.
  - apply (proj2 (choose_from_list_returns_an_item string ["a"; "b"]%string
                    ["x"; "7"; " 1 "; "0"]%string) "b"%string ["0"%string]).
    reflexivity.
Defined.

(** ** Masking the API key *)

Lemma length_append_string p k :
  String.length (p +:+ k) = (String.length p + String.length k)%nat.
Proof. induction p as [|c r IH]; simpl; [reflexivity|]. rewrite IH. reflexivity. Qed.

Lemma substring_after_prefix p n m k :
  substring (String.length p + n) m (p +:+ k) = substring n m k.
Proof. induction p as [|c r IH]; simpl; [reflexivity|exact IH]. Qed.

Lemma length_substring_le n m s : (String.length (substring n m s) <= m)%nat.
Proof.
  revert n m. induction s as [|c r IH]; intros n m.
  - destruct n, m; simpl; lia.
  - destruct n as [|n].
    + destruct m as [|m]; simpl; [lia|]. specialize (IH O m). lia.
    + simpl. apply IH.
Qed.

Lemma eqb_empty_length s : String.eqb s "" = false <-> (0 < String.length s)%nat.
Proof. destruct s; simpl; split; intros; try lia; try discriminate; reflexivity. Qed.

(** X17. The masked key is never longer than 9 characters; a key of 1
    to 6 characters is shown as three stars; and the mask of a key longer
    than 6 characters depends on its last six characters only: whatever is
    put in front of it, the mask is the same. *)
Theorem mask_key_shows_the_last_six_only :
  (forall k, (String.length (_mask_key k) <= 9)%nat)
  /\ (forall k, (0 < String.length k <= 6)%nat -> _mask_key k = "***"%string)
  /\ (forall front k, (6 < String.length k)%nat ->
        _mask_key (front +:+ k) = _mask_key k).
Proof.
  split; [|split].
  - intros k. unfold _mask_key. destruct (String.eqb k ""); [simpl; lia|].
    destruct (String.length k <=? 6)%nat; [simpl; lia|].
    rewrite length_append_string. pose proof (length_substring_le
      (String.length k - 6) 6 k). unfold py_last. simpl. lia.
  - intros k [H1 H2]. unfold _mask_key.
    apply eqb_empty_length in H1. rewrite H1.
    apply Nat.leb_le in H2. rewrite H2. reflexivity.
  - intros front k Hk. unfold _mask_key.
    assert (H1 : String.eqb k "" = false) by (apply eqb_empty_length; lia).
    assert (H2 : String.eqb (front +:+ k) "" = false)
      by (apply eqb_empty_length; rewrite length_append_string; lia).
    rewrite H1, H2.
    replace (String.length k <=? 6)%nat with false by (symmetry; apply Nat.leb_gt; lia).
    replace (String.length (front +:+ k) <=? 6)%nat with false
      by (symmetry; apply Nat.leb_gt; rewrite length_append_string; lia).
    f_equal. unfold py_last. rewrite length_append_string.
    replace (String.length front + String.length k - 6)%nat
      with (String.length front + (String.length k - 6))%nat by lia.
    apply substring_after_prefix.
Qed.

Lemma mask_key_shows_the_last_six_only_witness :
  _mask_key "abc" = "***"%string
  /\ _mask_key ("secret-part-" +:+ "0123456789") = _mask_key "0123456789".
Proof.
  split.
  - apply (proj1 (proj2 mask_key_shows_the_last_six_only)). simpl. lia.
  - apply (proj2 (proj2 mask_key_shows_the_last_six_only)). simpl. lia.
Defined.

(** ** Normalizing the URL *)

Lemma rstrip_slash_split s :
  exists slashes,
    s = rstrip_slash s +:+ slashes /\ all_slashes slashes = true.
Proof.
  induction s as [|c r (slashes & Hs & Ha)]; simpl.
  - exists EmptyString. split; reflexivity.
  - destruct (rstrip_slash r) as [|c' r'] eqn:Hr.
    + destruct (Ascii.eqb_spec c "/") as [->|Hc].
      * exists (String "/" slashes). simpl in Hs. subst r. split; [reflexivity|].
        simpl. exact Ha.
      * exists slashes. simpl in *. subst r. split; [reflexivity|exact Ha].
    + exists slashes. simpl in *. rewrite Hs at 1. split; [reflexivity|exact Ha].
Qed.

Lemma rstrip_slash_end s : ends_with "/" (rstrip_slash s) = false.
Proof.
  induction s as [|c r IH]; simpl; [reflexivity|].
  destruct (rstrip_slash r) as [|c' r'] eqn:Hr.
  - destruct (Ascii.eqb c "/") eqn:Hc; simpl; [reflexivity|exact Hc].
  - exact IH.
Qed.

Lemma rstrip_slash_head c r :
  rstrip_slash (String c r) = EmptyString
  \/ exists r', rstrip_slash (String c r) = String c r'.
Proof.
  simpl. destruct (rstrip_slash r); [|eauto].
  destruct (Ascii.eqb c "/"); eauto.
Qed.

(** X18. The normalized URL is the trimmed text without its trailing
    slashes: it never ends with a slash, does not start with white space,
    and the trimmed text is the normalized URL followed by slashes only. *)
Theorem normalize_url_drops_trailing_slashes :
  forall url,
    ends_with "/" (_normalize_url url) = false
    /\ lstrip (_normalize_url url) = _normalize_url url
    /\ exists slashes,
         strip url = _normalize_url url +:+ slashes /\ all_slashes slashes = true.
Proof.
  intros url. unfold _normalize_url.
  split; [apply rstrip_slash_end|]. split; [|apply rstrip_slash_split].
  pose proof (lstrip_of_strip url) as Hl.
  destruct (strip url) as [|c r]; [reflexivity|].
  simpl in Hl. destruct (isspace c) eqn:Hc.
  - pose proof (lstrip_head r) as Hh. rewrite Hl in Hh. congruence.
  - destruct (rstrip_slash_head c r) as [-> | (r' & ->)]; [reflexivity|].
    simpl. rewrite Hc. reflexivity.
Qed.

(** ** Cleanup *)

Lemma safe_unlink_effect path d :
  let d' := snd (_safe_unlink path d) in
  stuck d' = stuck d
  /\ present d' ⊆ present d
  /\ (forall p, p ∈ present d -> p <> path -> p ∈ present d')
  /\ (path ∉ stuck d -> path ∉ present d').
Proof.
  cbv zeta. unfold _safe_unlink.
  destruct (bool_decide (path ∈ present d)) eqn:Hp.
  - destruct (bool_decide (path ∈ stuck d)) eqn:Hs; cbn [snd present stuck].
    + apply bool_decide_eq_true in Hs.
      split; [reflexivity|]. split; [reflexivity|]. split; [auto|].
      intros Hn. contradiction.
    + split; [reflexivity|]. split; [|split].
      * apply subseteq_difference_l. reflexivity.
      * intros p Hin Hne. apply elem_of_difference. split; [exact Hin|].
        intros H%elem_of_singleton. contradiction.
      * intros _ H%elem_of_difference. destruct H as [_ H]. apply H.
        apply elem_of_singleton. reflexivity.
  - apply bool_decide_eq_false in Hp. cbn [snd].
    split; [reflexivity|]. split; [reflexivity|]. split; [auto|].
    intros _. exact Hp.
Qed.

Lemma unlink_all_effect targets : forall d,
  let d' := fst (fst (unlink_all targets d)) in
  stuck d' = stuck d
  /\ present d' ⊆ present d
  /\ (forall p, p ∈ present d -> ~ In p targets -> p ∈ present d')
  /\ (forall p, In p targets -> p ∉ stuck d -> p ∉ present d').
Proof.
  induction targets as [|t rest IH]; intros d; cbv zeta.
  - simpl. split; [reflexivity|]. split; [reflexivity|]. split; [auto|].
    intros p [].
  - cbn [unlink_all].
    destruct (safe_unlink_effect t d) as (Hs1 & Hp1 & Hk1 & Hg1).
    destruct (_safe_unlink t d) as [ok d1]. cbn [snd] in *.
    destruct (IH d1) as (Hs2 & Hp2 & Hk2 & Hg2).
    destruct (unlink_all rest d1) as [[d2 deleted] skipped]. cbn [fst] in *.
    assert (Hres : fst (fst (if ok then (d2, t :: deleted, skipped)
                             else (d2, deleted, t :: skipped))) = d2)
      by (destruct ok; reflexivity).
    rewrite Hres. split; [congruence|]. split; [etrans; eassumption|]. split.
    + intros p Hin Hnot. apply Hk2.
      * apply Hk1; [exact Hin|]. intros ->. apply Hnot. left. reflexivity.
      * intros Hr. apply Hnot. right. exact Hr.
    + intros p [<-|Hin] Hns.
      * intros H. apply (Hg1 Hns). apply Hp2, H.
      * apply Hg2; [exact Hin|]. rewrite Hs1. exact Hns.
Qed.

Lemma cleanup_files_cases f console d :
  let res := cleanup_files f console d in
  snd res = d
  \/ (snd res = fst (fst (unlink_all (cleanup_targets f) d))
      /\ fst (fst res) = Exit
      /\ (flag_WIPE_CONFIG f && negb (flag_FORCE f) = true ->
            fst (confirm_wipe_config console) = Ret tt)
      /\ (flag_FORCE f = false ->
            exists console1,
              (console1 = console \/ exists l, console = l :: console1)
              /\ fst (prompt_yes_no_default false console1) = Ret true)).
Proof.
  cbv zeta. unfold cleanup_files.
  destruct (cleanup_targets f) as [|t ts]; [left; reflexivity|].
  destruct (flag_WIPE_CONFIG f && negb (flag_FORCE f)) eqn:Hw.
  - destruct (confirm_wipe_config console) as [[[]| |] console1] eqn:Hc;
      try (left; reflexivity).
    assert (Htail : exists l, console = l :: console1).
    { unfold confirm_wipe_config in Hc. destruct console as [|l rest]; [discriminate|].
      destruct (String.eqb (strip l) "WIPE"); [|discriminate].
      injection Hc as <-. eauto. }
    destruct (negb (flag_FORCE f)) eqn:Hf.
    + destruct (prompt_yes_no_default false console1) as [[[]| |] console2] eqn:Hy;
        try (left; reflexivity).
      right. repeat split; auto. intros _. exists console1. rewrite Hy. auto.
    + apply andb_prop in Hw as [_ Hw]. discriminate.
  - destruct (negb (flag_FORCE f)) eqn:Hf.
    + destruct (prompt_yes_no_default false console) as [[[]| |] console2] eqn:Hy;
        try (left; reflexivity).
      right. repeat split; auto; try discriminate.
      intros _. exists console. rewrite Hy. auto.
    + right. repeat split; auto; try discriminate.
      intros Hforce. rewrite Hforce in Hf. discriminate.
Qed.

(** X19. [cleanup_files] returns to [main] only when no cleanup was
    asked for, and then changes nothing.  Whatever it does, it creates no
    file and removes none but its targets: the log, the state file and the
    dry-run report under [--clean], the saved settings under
    [--wipe-config]. *)
Theorem cleanup_removes_only_its_targets :
  forall f console d,
    let res := cleanup_files f console d in
    (cleanup_targets f = [] -> res = (Ret tt, console, d))
    /\ (cleanup_targets f <> [] -> fst (fst res) <> Ret tt)
    /\ present (snd res) ⊆ present d
    /\ (forall p, p ∈ present d -> ~ In p (cleanup_targets f) -> p ∈ present (snd res))
    /\ (flag_WIPE_CONFIG f = false ->
          LAST_SETTINGS_FILE ∈ present d -> LAST_SETTINGS_FILE ∈ present (snd res)).
Proof.
  intros f console d res.
  assert (Hkeep : present (snd res) ⊆ present d
                  /\ (forall p, p ∈ present d -> ~ In p (cleanup_targets f)
                                -> p ∈ present (snd res))).
  { destruct (cleanup_files_cases f console d) as [Hsame|(Hdel & _)];
      fold res in Hsame || fold res in Hdel.
    - rewrite Hsame. split; [reflexivity|auto].
    - rewrite Hdel.
      destruct (unlink_all_effect (cleanup_targets f) d) as (_ & Hp & Hk & _). auto. }
  destruct Hkeep as [Hsub Hkeep].
  split; [|split; [|split; [exact Hsub|split; [exact Hkeep|]]]].
  - intros Hno. subst res. unfold cleanup_files. rewrite Hno. reflexivity.
  - intros Hsome. subst res. unfold cleanup_files.
    destruct (cleanup_targets f) as [|t ts]; [congruence|].
    destruct (flag_WIPE_CONFIG f && negb (flag_FORCE f)).
    + destruct (confirm_wipe_config console) as [[[]| |] console1]; try discriminate.
      destruct (negb (flag_FORCE f)); [|discriminate].
      destruct (prompt_yes_no_default false console1) as [[[]| |] console2];
        discriminate.
    + destruct (negb (flag_FORCE f)); [|discriminate].
      destruct (prompt_yes_no_default false console) as [[[]| |] console2];
        discriminate.
  - intros Hw Hin. apply Hkeep; [exact Hin|].
    unfold cleanup_targets. rewrite Hw.
    destruct (flag_CLEAN_RUN_FILES f); simpl; [|tauto].
    intros [H|[H|[H|[]]]]; discriminate.
Qed.

Lemma cleanup_removes_only_its_targets_witness :
  let f := {| flag_DRY_RUN := false; flag_INPUT_FILE := "movies.txt";
              flag_RADARR_URL := "http://127.0.0.1:7878";
              flag_AUTO_ADD := false; flag_YES_ALL := false; flag_MAX_ADD := None;
              flag_CLEAN_RUN_FILES := true; flag_WIPE_CONFIG := false;
              flag_NUKE_ALL := false; flag_FORCE := true |} in
  let d := Folder {[LOG_FILE; LAST_SETTINGS_FILE]} ∅ in
  LAST_SETTINGS_FILE ∈ present (snd (cleanup_files f [] d)).
Proof.
  cbv zeta.
  apply (cleanup_removes_only_its_targets
           {| flag_DRY_RUN := false; flag_INPUT_FILE := "movies.txt";
              flag_RADARR_URL := "http://127.0.0.1:7878";
              flag_AUTO_ADD := false; flag_YES_ALL := false; flag_MAX_ADD := None;
              flag_CLEAN_RUN_FILES := true; flag_WIPE_CONFIG := false;
              flag_NUKE_ALL := false; flag_FORCE := true |} []
           (Folder {[LOG_FILE; LAST_SETTINGS_FILE]} ∅)).
  - reflexivity.
  - apply elem_of_union_r, elem_of_singleton. reflexivity.
Defined.

Lemma read_yes_no_true inp : forall rest,
  read_yes_no false inp = (Some true, rest) ->
  exists l, In l inp /\ among (lower (strip l)) ["y"; "yes"]%string = true.
Proof.
  induction inp as [|l inp IH]; intros rest; cbn [read_yes_no]; [discriminate|].
  destruct (String.eqb (lower (strip l)) ""); [discriminate|].
  destruct (among (lower (strip l)) ["y"; "yes"]%string) eqn:Hy.
  - intros _. exists l. split; [left; reflexivity|exact Hy].
  - destruct (among (lower (strip l)) ["n"; "no"]%string); [discriminate|].
    intros H. destruct (IH _ H) as (l' & Hin & Hl'). exists l'.
    split; [right; exact Hin|exact Hl'].
Qed.

(** X20. Without [--force] nothing is deleted unless the operator says
    so: if the folder changed, a line answering [y] or [yes] was typed,
    and when the saved settings were a target the first line typed was
    [WIPE]. *)
Theorem cleanup_without_force_needs_consent :
  forall f console d,
    flag_FORCE f = false ->
    snd (cleanup_files f console d) <> d ->
    (exists l, In l console /\ among (lower (strip l)) ["y"; "yes"]%string = true)
    /\ (flag_WIPE_CONFIG f = true ->
          exists l rest, console = l :: rest /\ strip l = "WIPE"%string).
Proof.
  intros f console d Hforce Hchanged.
  destruct (cleanup_files_cases f console d) as [Hsame|(_ & _ & Hwipe & Hyes)];
    [contradiction|].
  destruct (Hyes Hforce) as (console1 & Hsub & Hy). split.
  - unfold prompt_yes_no_default in Hy.
    destruct (read_yes_no false console1) as [[[]|] rest] eqn:Hr; try discriminate.
    destruct (read_yes_no_true _ _ Hr) as (l & Hin & Hl). exists l. split; [|exact Hl].
    destruct Hsub as [->|(l0 & ->)]; [exact Hin|right; exact Hin].
  - intros Hw. rewrite Hw, Hforce in Hwipe. specialize (Hwipe eq_refl).
    unfold confirm_wipe_config in Hwipe. destruct console as [|l rest]; [discriminate|].
    destruct (String.eqb_spec (strip l) "WIPE"); [eauto|discriminate].
Qed.

(** X21. When the cleanup goes ahead, every target whose removal does
    not fail is gone afterwards; with [--force] it goes ahead without
    reading the console, and the process then exits. *)
Theorem forced_cleanup_removes_what_it_can :
  forall f console d,
    flag_FORCE f = true ->
    cleanup_targets f <> [] ->
    let res := cleanup_files f console d in
    fst res = (Exit, console)
    /\ (forall p, In p (cleanup_targets f) -> p ∉ stuck d -> p ∉ present (snd res)).
Proof.
  intros f console d Hforce Hsome res. subst res. unfold cleanup_files.
  destruct (cleanup_targets f) as [|t ts] eqn:Ht; [congruence|].
  rewrite Hforce, andb_false_r. simpl negb. cbn iota.
  split; [reflexivity|]. cbn [snd].
  destruct (unlink_all_effect (t :: ts) d) as (_ & _ & _ & Hgone). exact Hgone.
Qed.

Lemma cleanup_without_force_needs_consent_witness :
  (exists l, In l [" Yes "]%string
             /\ among (lower (strip l)) ["y"; "yes"]%string = true)
  /\ (flag_WIPE_CONFIG (clean_flags false) = true ->
        exists l rest, [" Yes "]%string = l :: rest /\ strip l = "WIPE"%string).
Proof.
  apply (cleanup_without_force_needs_consent (clean_flags false) [" Yes "]%string
           used_folder).
  - reflexivity.
  - intros H.
    assert (Hgone : bool_decide
              (LOG_FILE ∈ present (snd (cleanup_files (clean_flags false)
                                          [" Yes "]%string used_folder))) = false)
      by (vm_compute; reflexivity).
    assert (Hthere : bool_decide (LOG_FILE ∈ present used_folder) = true)
      by (vm_compute; reflexivity).
    pose proof (f_equal (fun x => bool_decide (LOG_FILE ∈ present x)) H) as Hb.
    pose proof (eq_trans (eq_sym Hgone) (eq_trans Hb Hthere)) as Hft.
    discriminate Hft.
Defined.

Lemma forced_cleanup_removes_what_it_can_witness :
  fst (cleanup_files (clean_flags true) ["n"%string] used_folder)
  = (Exit, ["n"%string])
  /\ (forall p, In p (cleanup_targets (clean_flags true)) ->
        p ∉ stuck used_folder ->
        p ∉ present (snd (cleanup_files (clean_flags true) ["n"%string] used_folder))).
Proof.
  apply (forced_cleanup_removes_what_it_can (clean_flags true) ["n"%string] used_folder).
  - reflexivity.
  - discriminate.
Defined.

(** ** A saved index out of range *)

Lemma py_index_below movies idx :
  idx < - Z.of_nat (length movies) -> py_index movies idx = None.
Proof.
  intros H. unfold py_index.
  replace (0 <=? idx) with false by (symmetry; apply Z.leb_gt; lia).
  replace (- Z.of_nat (length movies) <=? idx) with false
    by (symmetry; apply Z.leb_gt; lia).
  reflexivity.
Qed.

(** X22. A saved index beyond the end makes the run process nothing and
    write the number of lines back; a saved index below minus the number
    of lines makes the run raise on its first line, before anything is
    written or looked up. *)
Theorem saved_index_out_of_range :
  forall w cfg movies console n library,
    on_library w = Some library ->
    let res := main w cfg movies (initial_state (saved_index n) console) in
    (Z.of_nat (length movies) <= n ->
       fst res = Ret tt
       /\ trace (snd res) = [Saved (Z.of_nat (length movies)) (on_write w 0)])
    /\ (n < - Z.of_nat (length movies) ->
          fst res = Raise /\ trace (snd res) = []
          /\ state_file (snd res) = saved_index n).
Proof.
  intros w cfg movies console n library Hlib res. subst res.
  rewrite (main_unfold w cfg movies (saved_index n) console n eq_refl), Hlib.
  unfold import_from. split.
  - intros Hn. rewrite py_range_empty by exact Hn. split; reflexivity.
  - intros Hn. rewrite py_range_step by lia. rewrite bind_at. cbn [for_each].
    unfold loop_body. rewrite (py_index_below movies n Hn).
    repeat split; reflexivity.
Qed.

Lemma saved_index_out_of_range_witness :
  fst (main obliging_world auto_config four_lines (initial_state (saved_index 9) []))
  = Ret tt
  /\ fst (main obliging_world auto_config four_lines
            (initial_state (saved_index (-5)) [])) = Raise.
Proof.
  split.
  - apply (proj1 (saved_index_out_of_range obliging_world auto_config four_lines []
                    9 [] eq_refl)).
    simpl. lia.
  - apply (proj2 (saved_index_out_of_range obliging_world auto_config four_lines []
                    (-5) [] eq_refl)).
    simpl. lia.
Defined.
